(** * FAQ chatbox: input filter, mock retrieval service, topic bridge

    A shallow embedding of the TypeScript sources

    - [chat/chatbox.component.ts]   (class [ChatboxComponent], and its
                                     revision with live filtering),
    - [core/rag.service.ts]         (class [RagService]),
    - [core/topics-bridge.service.ts] (class [TopicsBridgeService]),
    - [utils/delay.ts]              (function [delay]),
    - [topics/sidebar-topics.component.ts] and [app.component.ts]
                                    (the selection of a topic),

    together with the properties of the design document that concern them.

    Conventions of the embedding.
    - A JavaScript string is the list of its UTF-16 code units ([N]).
    - A [Record<string, T[]>] table is an object literal: the properties it
      owns are the bindings written in the literal (an association list,
      first binding wins), and a read [table[key]] of a key it does not own
      goes on to [Object.prototype], whose members ([constructor],
      [toString], [__proto__], ...) are neither [undefined] nor arrays.
    - What the host provides and the sources only call is a field of
      [Host]: [String.prototype.toLowerCase] and [globalThis.setTimeout].
    - A promise is described by the state it ends in: fulfilled, rejected,
      or pending for ever; the evaluation of an expression by the value it
      yields or the exception it throws. *)

From Stdlib Require Import List NArith Bool String Ascii Lia QArith.
From Stdlib Require Import PeanoNat.
Import ListNotations.

Set Implicit Arguments.

(* ===================================================================== *)
(** * JavaScript strings and the string primitives the sources call *)
(* ===================================================================== *)

Module JS.

Local Open Scope N_scope.

Definition jsstring := list N.

(** An ASCII literal of the sources, as code units. *)
Definition lit (s : string) : jsstring :=
  map N_of_ascii (list_ascii_of_string s).

(** Truthiness of a string: only the empty string is falsy. *)
Definition truthy (s : jsstring) : bool :=
  match s with [] => false | _ :: _ => true end.

Definition inRange (lo hi c : N) : bool := (lo <=? c) && (c <=? hi).

(** [\s] of a regular expression and the characters [trim] removes:
    WhiteSpace and LineTerminator of ECMAScript. *)
Definition isSpace (c : N) : bool :=
  inRange 9 13 c || (c =? 32) || (c =? 160) || (c =? 5760)
  || inRange 8192 8202 c || (c =? 8232) || (c =? 8233) || (c =? 8239)
  || (c =? 8287) || (c =? 12288) || (c =? 65279).

(** [\w]: the class behind [\b] (no [u] flag: ASCII letters, digits, [_]). *)
Definition isWordChar (c : N) : bool :=
  inRange 48 57 c || inRange 65 90 c || (c =? 95) || inRange 97 122 c.

Definition asciiUpper (c : N) : N := if inRange 97 122 c then c - 32 else c.
Definition asciiLower (c : N) : N := if inRange 65 90 c then c + 32 else c.

(** A pattern character [p] of a [/.../i] literal against an input character
    [c].  Every pattern of the sources is ASCII, and without the [u] flag a
    code unit above 127 never canonicalizes to one below 128. *)
Definition eqCI (p c : N) : bool := asciiUpper p =? asciiUpper c.

Definition eqb (a b : jsstring) : bool :=
  if list_eq_dec N.eq_dec a b then true else false.

(** ** Substring search *)

Fixpoint startsWith (pat s : jsstring) : bool :=
  match pat, s with
  | [], _ => true
  | p :: pat', c :: s' => (p =? c) && startsWith pat' s'
  | _ :: _, [] => false
  end.

(** [s.includes(pat)]. *)
Fixpoint includes (s pat : jsstring) : bool :=
  startsWith pat s ||
  match s with
  | [] => false
  | _ :: s' => includes s' pat
  end.

Fixpoint startsWithCI (pat s : jsstring) : bool :=
  match pat, s with
  | [], _ => true
  | p :: pat', c :: s' => eqCI p c && startsWithCI pat' s'
  | _ :: _, [] => false
  end.

(** [/pat/i.test(s)] for a pattern [pat] without metacharacters. *)
Fixpoint testCI (pat s : jsstring) : bool :=
  startsWithCI pat s ||
  match s with
  | [] => false
  | _ :: s' => testCI pat s'
  end.

(** [/a|b|c/i.test(s)]: some alternative occurs somewhere. *)
Definition testAnyCI (alts : list jsstring) (s : jsstring) : bool :=
  existsb (fun pat => testCI pat s) alts.

(** ** Whitespace normalisation *)

(** [s.replace(/\s+/g, ' ')]: [inRun] tells that the previous character
    belonged to the run of whitespace being replaced. *)
Fixpoint collapseFrom (inRun : bool) (s : jsstring) : jsstring :=
  match s with
  | [] => []
  | c :: s' =>
      if isSpace c
      then (if inRun then collapseFrom true s' else 32 :: collapseFrom true s')
      else c :: collapseFrom false s'
  end.

Definition collapseSpaces (s : jsstring) : jsstring := collapseFrom false s.

Fixpoint trimStart (s : jsstring) : jsstring :=
  match s with
  | [] => []
  | c :: s' => if isSpace c then trimStart s' else s
  end.

Fixpoint trimEnd (s : jsstring) : jsstring :=
  match s with
  | [] => []
  | c :: s' =>
      match trimEnd s' with
      | [] => if isSpace c then [] else [c]
      | t => c :: t
      end
  end.

(** [s.trim()]. *)
Definition trim (s : jsstring) : jsstring := trimEnd (trimStart s).

(** The class [[<>]]. *)
Definition isAngle (c : N) : bool := (c =? 60) || (c =? 62).

(** [s.replace(/[<>]/g, '')]. *)
Definition stripAngles (s : jsstring) : jsstring :=
  filter (fun c => negb (isAngle c)) s.

(** [s.replace(a, b)] with string arguments of one character: only the
    first occurrence is replaced. *)
Fixpoint replaceFirst (a b : N) (s : jsstring) : jsstring :=
  match s with
  | [] => []
  | c :: s' => if c =? a then b :: s' else c :: replaceFirst a b s'
  end.

(** [s.split(sep)] for a separator of one character. *)
Fixpoint split (sep : N) (s : jsstring) : list jsstring :=
  match s with
  | [] => [[]]
  | c :: s' =>
      if c =? sep then [] :: split sep s'
      else match split sep s' with
           | h :: t => (c :: h) :: t
           | [] => [[c]]
           end
  end.

(** [parts.join(sep)]. *)
Fixpoint join (sep : jsstring) (parts : list jsstring) : jsstring :=
  match parts with
  | [] => []
  | [p] => p
  | p :: rest => p ++ sep ++ join sep rest
  end.

(** ** Word boundaries and alternations of literal words *)

Definition isWordAt (o : option N) : bool :=
  match o with Some c => isWordChar c | None => false end.

(** [\b] between two neighbours; the start and the end of the input count
    as a non-word neighbour. *)
Definition wordBoundary (before after : option N) : bool :=
  xorb (isWordAt before) (isWordAt after).

(** Consume the literal [pat] case-insensitively; the result is the last
    character consumed (or [prev]) and what is left of the input. *)
Fixpoint matchLitCI (pat : jsstring) (prev : option N) (s : jsstring)
  : option (option N * jsstring) :=
  match pat with
  | [] => Some (prev, s)
  | p :: pat' =>
      match s with
      | c :: s' => if eqCI p c then matchLitCI pat' (Some c) s' else None
      | [] => None
      end
  end.

(** [(w1|w2|...)\b] at the current position: alternatives are tried in
    order, and an alternative whose end is not at a word boundary is
    abandoned for the next one.  The result is the length of the match. *)
Fixpoint matchAlts (alts : list jsstring) (prev : option N) (s : jsstring)
  : option nat :=
  match alts with
  | [] => None
  | w :: alts' =>
      match matchLitCI w prev s with
      | Some (last, rest) =>
          if wordBoundary last (hd_error rest) then Some (List.length w)
          else matchAlts alts' prev s
      | None => matchAlts alts' prev s
      end
  end.

(** [\b(w1|w2|...)\b] at the current position, [prev] being the character
    before it. *)
Definition matchWordsAt (alts : list jsstring) (prev : option N)
  (s : jsstring) : option nat :=
  if wordBoundary prev (hd_error s) then matchAlts alts prev s else None.

(** [new RegExp('\\b(w1|...)\\b', 'gi').test(s)], the regular expression
    being fresh ([lastIndex] is 0). *)
Fixpoint testWordsFrom (alts : list jsstring) (prev : option N)
  (s : jsstring) : bool :=
  match matchWordsAt alts prev s with
  | Some _ => true
  | None =>
      match s with
      | [] => false
      | c :: s' => testWordsFrom alts (Some c) s'
      end
  end.

Definition testWords (alts : list jsstring) (s : jsstring) : bool :=
  testWordsFrom alts None s.

(** [s.replace(re, mask)] for the same global regular expression: matches
    are found left to right and do not overlap; [skip] counts the
    characters of the current match that are still to be dropped. *)
Fixpoint replaceWordsFrom (alts : list jsstring) (mask : jsstring)
  (skip : nat) (prev : option N) (s : jsstring) : jsstring :=
  match s with
  | [] => []
  | c :: s' =>
      match skip with
      | S k => replaceWordsFrom alts mask k (Some c) s'
      | O =>
          match matchWordsAt alts prev s with
          | Some n => mask ++ replaceWordsFrom alts mask (pred n) (Some c) s'
          | None => c :: replaceWordsFrom alts mask O (Some c) s'
          end
      end
  end.

Definition replaceWords (alts : list jsstring) (mask s : jsstring)
  : jsstring :=
  replaceWordsFrom alts mask O None s.

(** A literal word of lowercase ASCII letters, as in the alternations of
    the sources. *)
Definition letterWord (w : jsstring) : bool :=
  truthy w && forallb (inRange 97 122) w.


(** ** Promises *)

Inductive JsError : Type :=
| TypeError (what : jsstring)
| Thrown (what : jsstring).

(** The result of evaluating an expression: a value, or an exception. *)
Inductive Completion (A : Type) : Type :=
| Normal (a : A)
| Abrupt (e : JsError).

Arguments Abrupt {A} e.

(** The state a promise ends in. *)
Inductive Promise (A : Type) : Type :=
| Fulfilled (a : A)
| Rejected (e : JsError)
| Pending.

Arguments Rejected {A} e.
Arguments Pending {A}.

(** [await p] followed by the rest of an async function. *)
Definition await {A B : Type} (p : Promise A) (k : A -> Promise B)
  : Promise B :=
  match p with
  | Fulfilled a => k a
  | Rejected e => Rejected e
  | Pending => Pending
  end.

Definition settled {A : Type} (p : Promise A) : bool :=
  match p with Pending => false | _ => true end.

(** ** Object literals *)

(** The properties every object written as a literal inherits from
    [Object.prototype]: those ECMA-262 gives the Object prototype object,
    the last five being its legacy accessors.  Each holds a function, except
    [__proto__], an accessor that answers [Object.prototype] itself: every
    one is truthy, and none is an array nor has a method [filter]. *)
Definition objectPrototypeKeys : list jsstring :=
  [ lit "constructor"; lit "hasOwnProperty"; lit "isPrototypeOf";
    lit "propertyIsEnumerable"; lit "toLocaleString"; lit "toString";
    lit "valueOf"; lit "__proto__"; lit "__defineGetter__";
    lit "__defineSetter__"; lit "__lookupGetter__"; lit "__lookupSetter__" ].

Definition inherited (key : jsstring) : bool :=
  existsb (eqb key) objectPrototypeKeys.

(** What a read [table[key]] finds. *)
Inductive Property (V : Type) : Type :=
| Own (v : V)          (* the value bound to the key in the literal *)
| Inherited            (* a member of [Object.prototype] *)
| Undefined.

Arguments Inherited {V}.
Arguments Undefined {V}.

(** Truthiness of what a read finds, the values of the tables being
    arrays: only [undefined] is falsy. *)
Definition truthyProperty {V : Type} (p : Property V) : bool :=
  match p with Undefined => false | _ => true end.

(** [a || b]. *)
Definition orElse {V : Type} (a b : Property V) : Property V :=
  if truthyProperty a then a else b.

(** ** The host *)

(** A timer function receives the callback and the duration, and answers
    with the timers it has registered with the event loop. *)
Inductive Callback : Type := ResolveCb.
Definition TimerFn := Callback -> Q -> list (Q * Callback).

(** The browser's [setTimeout]. *)
Definition hostTimer : TimerFn := fun cb ms => [(ms, cb)].

(** What [(cb, t) => {}] registers. *)
Definition noTimer : TimerFn := fun _ _ => [].

Record Host : Type := {
  toLowerCase : jsstring -> jsstring;  (* String.prototype.toLowerCase *)
  hasSetTimeout : bool                 (* globalThis.setTimeout is defined *)
}.

Definition lowerAscii (s : jsstring) : jsstring := map asciiLower s.

(** A browser; its [toLowerCase] is the one of JavaScript on strings of
    ASCII code units. *)
Definition browser : Host :=
  {| toLowerCase := lowerAscii; hasSetTimeout := true |}.

(** A server-side rendering host without timers. *)
Definition ssr : Host :=
  {| toLowerCase := lowerAscii; hasSetTimeout := false |}.

Definition isAscii (s : jsstring) : bool := forallb (fun c => c <? 128) s.

(** What ECMAScript asks of [toLowerCase] on a string of ASCII characters:
    the letters [A] to [Z] become [a] to [z], nothing else changes. *)
Definition lowersAscii (h : Host) : Prop :=
  forall s : jsstring, isAscii s = true -> toLowerCase h s = lowerAscii s.

End JS.

(* ===================================================================== *)
(** * utils/delay.ts and core/rag.service.ts *)
(* ===================================================================== *)

Module Rag.
Import JS.

Inductive Role : Type := user | assistant | system.

Record ChatMessage : Type := {
  role : Role;
  content : jsstring;
  error : option bool          (* error?: boolean *)
}.

Record QueryOptions : Type := {
  topic : option jsstring      (* topic?: string *)
}.

(** The property [key] that a table owns, if it owns one. *)
Fixpoint lookup {V : Type} (key : jsstring) (table : list (jsstring * V))
  : option V :=
  match table with
  | [] => None
  | (k, v) :: rest => if JS.eqb key k then Some v else lookup key rest
  end.

(** [table[key]]: the property the table owns, else the one it inherits
    from [Object.prototype], else [undefined]. *)
Definition getProp {V : Type} (key : jsstring) (table : list (jsstring * V))
  : Property V :=
  match lookup key table with
  | Some v => Own v
  | None => if inherited key then Inherited else Undefined
  end.

(** The read [table[key]] ends on [Object.prototype]. *)
Definition hitsPrototype {V : Type} (key : jsstring)
  (table : list (jsstring * V)) : bool :=
  match getProp key table with
  | Inherited => true
  | _ => false
  end.

(** The topic, if there is one, names a property that the table does not
    own and inherits. *)
Definition topicHitsPrototype {V : Type} (topic : option jsstring)
  (table : list (jsstring * V)) : bool :=
  match topic with
  | Some t => hitsPrototype t table
  | None => false
  end.

(** [delay(ms)]: the executor hands [() => resolve()] to [setTimeout], or to
    a function that does nothing when the host has none; the promise is
    fulfilled when the event loop fires a timer registered for it. *)
Definition delay (h : Host) (ms : Q) : Promise unit :=
  let fn : TimerFn :=
    if hasSetTimeout h then hostTimer
    else noTimer                     (* no-op for non-browser SSR *) in
  match fn ResolveCb ms with
  | [] => Pending
  | _ :: _ => Fulfilled tt
  end.

Definition mockKnowledgeBase : list (jsstring * list jsstring) :=
  [ (lit "getting-started",
      [ lit "Welcome to our platform! To get started, create an account and verify your email.";
        lit "Use your dashboard to set up initial preferences and connect integrations." ]);
    (lit "account",
      [ lit "You can update billing details under Settings > Billing.";
        lit "Invoices are generated monthly and emailed to the account owner." ]);
    (lit "security",
      [ lit "We support SSO, MFA, and granular role-based access control.";
        lit "All data is encrypted at rest and in transit." ]);
    (lit "api",
      [ lit "Use API keys from Settings > API to authenticate your requests.";
        lit "Rate limiting is enforced at 60 requests per minute." ]);
    (lit "troubleshooting",
      [ lit "Try clearing cache and re-authenticating if something looks off.";
        lit "Contact support with your request ID for detailed investigation." ]);
    (lit "default",
      [ lit "I can help with getting started, account & billing, security, API & integrations, and troubleshooting.";
        lit "Please ask a question or select a topic." ]) ].

Definition isSome {A : Type} (o : option A) : bool :=
  match o with Some _ => true | None => false end.

(** [query.toLowerCase().split(' ')[0] || '']. *)
Definition keyword (h : Host) (query : jsstring) : jsstring :=
  match nth_error (split 32 (toLowerCase h query)) 0 with
  | Some tok => tok
  | None => []
  end.

(** The exception of [base.filter(...)] when [base] is not an array. *)
Definition baseError : JsError :=
  TypeError (lit "base.filter is not a function").

(** An exception thrown inside the async function rejects its promise. *)
Definition retrieveFromChroma (h : Host) (query : jsstring)
  (topic : option jsstring) : Promise (list jsstring) :=
  await (delay h 200) (fun _ =>
    let key :=
      match topic with
      | Some t =>
          if truthy t && truthyProperty (getProp t mockKnowledgeBase)
          then t else lit "default"
      | None => lit "default"
      end in
    match getProp key mockKnowledgeBase with
    | Own base =>
        let subset :=
          filter (fun s => includes (toLowerCase h s) (keyword h query)) base in
        Fulfilled (match subset with
                   | _ :: _ => subset
                   | [] => firstn 2 base
                   end)
    | Inherited => Rejected baseError
    | Undefined =>
        Rejected (TypeError (lit "Cannot read properties of undefined (reading 'filter')"))
    end).

Definition selectMcpTool (question : jsstring) : jsstring :=
  if testAnyCI [lit "billing"; lit "invoice"; lit "payment"] question
  then lit "billing.lookup"
  else if testAnyCI [lit "api"; lit "key"; lit "token"; lit "rate"] question
  then lit "api.docs.search"
  else if testAnyCI [lit "security"; lit "mfa"; lit "sso"; lit "rbac"] question
  then lit "security.policy.fetch"
  else if testAnyCI [lit "troubleshoot"; lit "error"; lit "issue"] question
  then lit "diagnostics.helper"
  else lit "knowledge.search".

(** U+2022 BULLET and a space. *)
Definition bullet : jsstring := [8226; 32]%N.

(** The answer starts with [Here], U+2019 RIGHT SINGLE QUOTATION MARK, [s]. *)
Definition synthesizeAnswer (question : jsstring) (docs : list jsstring)
  (tool : jsstring) : jsstring :=
  let context := join [10%N] (map (fun d => bullet ++ d) docs) in
  lit "Here" ++ [8217%N] ++ lit "s what I found using " ++ tool ++ lit ":"
  ++ [10%N] ++ context ++ [10%N; 10%N]
  ++ lit "If you need more details, feel free to ask or refine by selecting a topic.".

Definition optTopic (opts : option QueryOptions) : option jsstring :=
  match opts with
  | Some o => topic o
  | None => None
  end.

(** [ask(question, opts)]; [rnd] is the value [Math.random()] draws. *)
Definition ask (h : Host) (rnd : Q) (question : jsstring)
  (opts : option QueryOptions) : Promise ChatMessage :=
  await (retrieveFromChroma h question (optTopic opts)) (fun docs =>
    let toolUsed := selectMcpTool question in
    let answer := synthesizeAnswer question docs toolUsed in
    await (delay h (450 + rnd * 300)) (fun _ =>
      Fulfilled {| role := assistant; content := answer; error := None |})).

End Rag.

(* ===================================================================== *)
(** * core/topics-bridge.service.ts *)
(* ===================================================================== *)

Module Bridge.
Import JS.

(** [string | null]. *)
Definition Topic := option jsstring.

(** A subscription to [topic$]: [received] lists the values its callback
    was called with, oldest first. *)
Record Subscriber : Type := {
  subId : nat;
  received : list Topic
}.

(** rxjs [BehaviorSubject]: it holds a current value, calls every observer
    with each value passed to [next], and calls a new observer at once with
    the current value. *)
Record BehaviorSubject : Type := {
  value : Topic;
  observers : list Subscriber;
  nextId : nat
}.

Definition newBehaviorSubject (seed : Topic) : BehaviorSubject :=
  {| value := seed; observers := []; nextId := 0 |}.

Definition deliver (v : Topic) (o : Subscriber) : Subscriber :=
  {| subId := subId o; received := received o ++ [v] |}.

Definition next (v : Topic) (s : BehaviorSubject) : BehaviorSubject :=
  {| value := v; observers := map (deliver v) (observers s); nextId := nextId s |}.

Definition subscribe (s : BehaviorSubject) : nat * BehaviorSubject :=
  (nextId s,
   {| value := value s;
      observers := observers s ++ [{| subId := nextId s; received := [value s] |}];
      nextId := S (nextId s) |}).

Definition unsubscribe (id : nat) (s : BehaviorSubject) : BehaviorSubject :=
  {| value := value s;
     observers := filter (fun o => negb (Nat.eqb (subId o) id)) (observers s);
     nextId := nextId s |}.

Record TopicsBridgeService : Type := {
  topicSubject : BehaviorSubject
}.

(** [new BehaviorSubject<string | null>('getting-started')]. *)
Definition newTopicsBridgeService : TopicsBridgeService :=
  {| topicSubject := newBehaviorSubject (Some (lit "getting-started")) |}.

Definition setTopic (topic : Topic) (svc : TopicsBridgeService)
  : TopicsBridgeService :=
  {| topicSubject := next topic (topicSubject svc) |}.

(** [topic$.subscribe(cb)]. *)
Definition subscribeTopic (svc : TopicsBridgeService)
  : nat * TopicsBridgeService :=
  let (id, s) := subscribe (topicSubject svc) in
  (id, {| topicSubject := s |}).

Definition unsubscribeTopic (id : nat) (svc : TopicsBridgeService)
  : TopicsBridgeService :=
  {| topicSubject := unsubscribe id (topicSubject svc) |}.

(** What a client of the bridge can do to it. *)
Inductive Op : Type :=
| OpSetTopic (t : Topic)
| OpSubscribe
| OpUnsubscribe (id : nat).

Definition step (svc : TopicsBridgeService) (op : Op) : TopicsBridgeService :=
  match op with
  | OpSetTopic t => setTopic t svc
  | OpSubscribe => snd (subscribeTopic svc)
  | OpUnsubscribe id => unsubscribeTopic id svc
  end.

Definition run (ops : list Op) (svc : TopicsBridgeService)
  : TopicsBridgeService :=
  fold_left step ops svc.

Definition current (svc : TopicsBridgeService) : Topic :=
  value (topicSubject svc).

Definition subscribers (svc : TopicsBridgeService) : list Subscriber :=
  observers (topicSubject svc).

(** The value published last by [ops], or [seed] when they publish none. *)
Definition lastPublished (seed : Topic) (ops : list Op) : Topic :=
  fold_left (fun acc op => match op with OpSetTopic t => t | _ => acc end)
            ops seed.

(** Every subscriber has been called last with the current value. *)
Definition upToDate (svc : TopicsBridgeService) : Prop :=
  Forall (fun sub => exists before, received sub = before ++ [current svc])
         (subscribers svc).

End Bridge.

(* ===================================================================== *)
(** * chat/chatbox.component.ts *)
(* ===================================================================== *)

Module Chatbox.
Import JS.
Export Rag.

(** An entry of the FAQ catalog, [{ title: string; content: string }]. *)
Module Faq.
Record t : Type := {
  title : jsstring;
  content : jsstring
}.
End Faq.
Abbreviation Faq := Faq.t.

(** The fields of [ChatboxComponent]. *)
Record ChatboxComponent : Type := {
  input : jsstring;
  sending : bool;
  messages : list ChatMessage;
  activeTopic : option jsstring;
  filterFeedback : option jsstring;
  filterMatches : bool;
  filteredMessages : list ChatMessage;
  filteredFaqs : list Faq;
  lastQuery : jsstring;
  faqCatalog : list (jsstring * list Faq)
}.

Definition set_input v (c : ChatboxComponent) : ChatboxComponent :=
  {| input := v; sending := sending c; messages := messages c;
     activeTopic := activeTopic c; filterFeedback := filterFeedback c;
     filterMatches := filterMatches c; filteredMessages := filteredMessages c;
     filteredFaqs := filteredFaqs c; lastQuery := lastQuery c;
     faqCatalog := faqCatalog c |}.

Definition set_sending v (c : ChatboxComponent) : ChatboxComponent :=
  {| input := input c; sending := v; messages := messages c;
     activeTopic := activeTopic c; filterFeedback := filterFeedback c;
     filterMatches := filterMatches c; filteredMessages := filteredMessages c;
     filteredFaqs := filteredFaqs c; lastQuery := lastQuery c;
     faqCatalog := faqCatalog c |}.

Definition set_messages v (c : ChatboxComponent) : ChatboxComponent :=
  {| input := input c; sending := sending c; messages := v;
     activeTopic := activeTopic c; filterFeedback := filterFeedback c;
     filterMatches := filterMatches c; filteredMessages := filteredMessages c;
     filteredFaqs := filteredFaqs c; lastQuery := lastQuery c;
     faqCatalog := faqCatalog c |}.

Definition set_activeTopic v (c : ChatboxComponent) : ChatboxComponent :=
  {| input := input c; sending := sending c; messages := messages c;
     activeTopic := v; filterFeedback := filterFeedback c;
     filterMatches := filterMatches c; filteredMessages := filteredMessages c;
     filteredFaqs := filteredFaqs c; lastQuery := lastQuery c;
     faqCatalog := faqCatalog c |}.

Definition set_filterFeedback v (c : ChatboxComponent) : ChatboxComponent :=
  {| input := input c; sending := sending c; messages := messages c;
     activeTopic := activeTopic c; filterFeedback := v;
     filterMatches := filterMatches c; filteredMessages := filteredMessages c;
     filteredFaqs := filteredFaqs c; lastQuery := lastQuery c;
     faqCatalog := faqCatalog c |}.

Definition set_filterMatches v (c : ChatboxComponent) : ChatboxComponent :=
  {| input := input c; sending := sending c; messages := messages c;
     activeTopic := activeTopic c; filterFeedback := filterFeedback c;
     filterMatches := v; filteredMessages := filteredMessages c;
     filteredFaqs := filteredFaqs c; lastQuery := lastQuery c;
     faqCatalog := faqCatalog c |}.

Definition set_filteredMessages v (c : ChatboxComponent) : ChatboxComponent :=
  {| input := input c; sending := sending c; messages := messages c;
     activeTopic := activeTopic c; filterFeedback := filterFeedback c;
     filterMatches := filterMatches c; filteredMessages := v;
     filteredFaqs := filteredFaqs c; lastQuery := lastQuery c;
     faqCatalog := faqCatalog c |}.

Definition set_filteredFaqs v (c : ChatboxComponent) : ChatboxComponent :=
  {| input := input c; sending := sending c; messages := messages c;
     activeTopic := activeTopic c; filterFeedback := filterFeedback c;
     filterMatches := filterMatches c; filteredMessages := filteredMessages c;
     filteredFaqs := v; lastQuery := lastQuery c;
     faqCatalog := faqCatalog c |}.

Definition set_lastQuery v (c : ChatboxComponent) : ChatboxComponent :=
  {| input := input c; sending := sending c; messages := messages c;
     activeTopic := activeTopic c; filterFeedback := filterFeedback c;
     filterMatches := filterMatches c; filteredMessages := filteredMessages c;
     filteredFaqs := filteredFaqs c; lastQuery := v;
     faqCatalog := faqCatalog c |}.

(** [this.messages.push(m)]. *)
Definition push (m : ChatMessage) (c : ChatboxComponent) : ChatboxComponent :=
  set_messages (messages c ++ [m]) c.

Definition mkFaq (t c : string) : Faq :=
  {| Faq.title := lit t; Faq.content := lit c |}.

Definition initialFaqCatalog : list (jsstring * list Faq) :=
  [ (lit "getting-started",
      [ mkFaq "Create an account" "To get started, sign up and verify your email to activate your account.";
        mkFaq "Initial setup" "Use the dashboard to configure preferences and connect integrations." ]);
    (lit "account",
      [ mkFaq "Billing details" "Update billing details under Settings > Billing and download invoices.";
        mkFaq "Invoices & charges" "Invoices are generated monthly and emailed to the account owner." ]);
    (lit "security",
      [ mkFaq "Authentication" "We support SSO and MFA. Enable MFA for higher security.";
        mkFaq "Access control" "Use granular role-based access control (RBAC) to restrict permissions." ]);
    (lit "api",
      [ mkFaq "API keys" "Generate and manage API keys from Settings > API.";
        mkFaq "Rate limits" "API rate limiting is enforced at 60 requests per minute." ]);
    (lit "troubleshooting",
      [ mkFaq "Common fixes" "Clear cache and re-authenticate if something looks off.";
        mkFaq "Contact support" "Provide your request ID to support for detailed investigation." ]);
    (lit "default",
      [ mkFaq "General help" "Ask about getting started, account & billing, security, API & integrations, or troubleshooting." ]) ].

(** The greeting of the source file holds the three code units U+00E2,
    U+20AC, U+2122 between [I] and [m]. *)
Definition greeting : ChatMessage :=
  {| role := assistant;
     content := lit "Hi! I" ++ [226; 8364; 8482]%N
       ++ lit "m your AI FAQ assistant. Ask me anything or pick a topic from the left to get started.";
     error := None |}.

(** The field initialisers of the class. *)
Definition initial : ChatboxComponent :=
  {| input := []; sending := false; messages := [greeting];
     activeTopic := None; filterFeedback := None; filterMatches := false;
     filteredMessages := []; filteredFaqs := []; lastQuery := [];
     faqCatalog := initialFaqCatalog |}.

Definition resetFilterView (c : ChatboxComponent) : ChatboxComponent :=
  set_lastQuery []
    (set_filteredFaqs []
       (set_filteredMessages []
          (set_filterMatches false c))).

Definition contextNote (topic : jsstring) : ChatMessage :=
  {| role := system;
     content := lit "Context updated to topic: " ++ replaceFirst 45 32 topic;
     error := None |}.

(** The callback the constructor subscribes to [topicsBridge.topic$]. *)
Definition onTopic (topic : option jsstring) (c : ChatboxComponent) : ChatboxComponent :=
  let c1 := resetFilterView (set_activeTopic topic c) in
  match topic with
  | Some t => if truthy t then push (contextNote t) c1 else c1
  | None => c1
  end.

(** The constructor: the subscription delivers the current topic at once. *)
Definition construct (svc : Bridge.TopicsBridgeService) : ChatboxComponent :=
  onTopic (Bridge.current svc) initial.

(** ** filterInput *)

Record FilterResult : Type := {
  cleaned : option jsstring;         (* string | null *)
  feedback : option jsstring         (* feedback?: string *)
}.

Definition banned : list jsstring :=
  [lit "badword"; lit "curse"; lit "offensive"].

Definition maskToken : jsstring := lit "****".

Definition maskNote : jsstring :=
  lit "Note: Certain words were masked for safety.".

Definition pleaseEnter : jsstring :=
  lit "Please enter a question before sending.".

Definition filterInput (raw : jsstring) : FilterResult :=
  let text := trim (collapseSpaces raw) in
  if negb (truthy text) then {| cleaned := None; feedback := None |}
  else if testWords banned text then
    {| cleaned := Some (replaceWords banned maskToken text);
       feedback := Some maskNote |}
  else {| cleaned := Some (stripAngles text); feedback := None |}.

(** ** The filtered view *)

Definition buildFilterDataset (c : ChatboxComponent) : list ChatMessage :=
  messages c.

Definition isSystem (r : Role) : bool :=
  match r with system => true | _ => false end.

(** The exception of [faqs.filter(...)] when [faqs] is not an array. *)
Definition faqsError : JsError :=
  TypeError (lit "faqs.filter is not a function").

Section WithHost.
Variable h : Host.

Definition computeFilteredHistory (c : ChatboxComponent) (query : jsstring)
  : list ChatMessage :=
  let q := toLowerCase h query in
  let inTopic := match activeTopic c with Some t => truthy t | None => false end in
  let data := buildFilterDataset c in
  filter (fun m =>
            let isContextNote :=
              isSystem (role m)
              && testCI (lit "Context updated to topic") (content m) in
            if inTopic && isContextNote then true
            else includes (toLowerCase h (content m)) q)
         data.

(** [faqs.filter(...)] throws when [faqs] is not an array. *)
Definition computeFilteredFaqs (c : ChatboxComponent) (query : jsstring)
  : Completion (list Faq) :=
  let q := toLowerCase h query in
  let topicKey :=
    match activeTopic c with
    | Some t =>
        if truthy t && truthyProperty (getProp t (faqCatalog c)) then t
        else lit "default"
    | None => lit "default"
    end in
  let faqs := orElse (getProp topicKey (faqCatalog c)) (Own []) in
  match faqs with
  | Own l =>
      Normal (filter (fun f => includes (toLowerCase h (Faq.title f)) q
                               || includes (toLowerCase h (Faq.content f)) q)
                     l)
  | Inherited => Abrupt faqsError
  | Undefined =>
      Abrupt (TypeError (lit "Cannot read properties of undefined (reading 'filter')"))
  end.

(** What [computeFilteredFaqs] returns, when it returns. *)
Definition filteredFaqsOf (c : ChatboxComponent) (query : jsstring)
  : list Faq :=
  match computeFilteredFaqs c query with
  | Normal l => l
  | Abrupt _ => []
  end.

End WithHost.

(** ** Handlers as computations on the component *)

(** A client of [RagService]: what [ask] answers to a question. *)
Definition RagService := jsstring -> option QueryOptions -> Promise ChatMessage.

(** The component together with the calls it has made to the service. *)
Record World : Type := {
  self : ChatboxComponent;
  ragCalls : list (jsstring * option QueryOptions)
}.

(** How a handler ends: it returns, it throws, or it stays suspended at an
    [await] whose promise never settles. *)
Inductive Outcome (A : Type) : Type :=
| Returned (a : A) (w : World)
| Threw (e : JsError) (w : World)
| Suspended (w : World).

Arguments Threw {A} e w.
Arguments Suspended {A} w.

Definition M (A : Type) : Type := World -> Outcome A.

Definition ret {A : Type} (a : A) : M A := fun w => Returned a w.

Definition bind {A B : Type} (c : M A) (k : A -> M B) : M B :=
  fun w =>
    match c w with
    | Returned a w' => k a w'
    | Threw e w' => Threw e w'
    | Suspended w' => Suspended w'
    end.

Declare Scope handler_scope.
Delimit Scope handler_scope with handler.
Notation "x <- c ;; k" := (bind c (fun x => k))
  (at level 61, c at next level, right associativity) : handler_scope.
Notation "c ;; k" := (bind c (fun _ => k))
  (at level 61, right associativity) : handler_scope.
Local Open Scope handler_scope.

Definition gets {A : Type} (f : ChatboxComponent -> A) : M A :=
  fun w => Returned (f (self w)) w.

Definition modify (f : ChatboxComponent -> ChatboxComponent) : M unit :=
  fun w => Returned tt {| self := f (self w); ragCalls := ragCalls w |}.

(** An expression over the fields of the component, whose evaluation may
    throw. *)
Definition eval {A : Type} (f : ChatboxComponent -> Completion A) : M A :=
  fun w =>
    match f (self w) with
    | Normal a => Returned a w
    | Abrupt e => Threw e w
    end.

Definition when (b : bool) (c : M unit) : M unit := if b then c else ret tt.

(** [try { body } catch (e) { handler e }]. *)
Definition tryCatch {A : Type} (body : M A) (handler : JsError -> M A) : M A :=
  fun w =>
    match body w with
    | Threw e w' => handler e w'
    | o => o
    end.

(** [try { body } finally { fin }]. *)
Definition tryFinally {A : Type} (body : M A) (fin : M unit) : M A :=
  fun w =>
    match body w with
    | Returned a w' => (fin ;; ret a) w'
    | Threw e w' => (fin ;; (fun w'' => Threw e w'')) w'
    | Suspended w' => Suspended w'
    end.

(** [await rag.ask(q, opts)].  The call is recorded; while the handler is
    suspended other handlers of the component may run, which [during]
    stands for; a promise that never settles leaves the handler
    suspended.  A call that throws is, for the handler, a rejected
    promise. *)
Definition awaitAsk (rag : RagService) (during : ChatboxComponent -> ChatboxComponent)
  (q : jsstring) (opts : option QueryOptions) : M ChatMessage :=
  fun w =>
    let called := {| self := self w; ragCalls := ragCalls w ++ [(q, opts)] |} in
    let resumed := {| self := during (self called); ragCalls := ragCalls called |} in
    match rag q opts with
    | Fulfilled m => Returned m resumed
    | Rejected e => Threw e resumed
    | Pending => Suspended called
    end.

Definition errMsg : ChatMessage :=
  {| role := assistant;
     content := lit "Sorry, something went wrong while fetching the answer.";
     error := Some true |}.

(** [feedback && /masked/i.test(feedback)]. *)
Definition wasMasked (fb : option jsstring) : bool :=
  match fb with
  | Some s => truthy s && testCI (lit "masked") s
  | None => false
  end.

Section Handlers.
Variable h : Host.

(** The three assignments that refresh the filtered view for [query]. *)
Definition refreshFilters (query : jsstring) : M unit :=
  faqs <- eval (fun c => computeFilteredFaqs h c query) ;;
  modify (set_filteredFaqs faqs) ;;
  msgs <- gets (fun c => computeFilteredHistory h c query) ;;
  modify (set_filteredMessages msgs) ;;
  modify (set_filterMatches true).

(** [async send()].  Scrolling the message list and [console.error] act on
    the document and the console only and are left out.  An exception that
    leaves the function rejects its promise. *)
Definition send (rag : RagService) (during : ChatboxComponent -> ChatboxComponent)
  : M unit :=
  busy <- gets sending ;;
  if busy then ret tt else
  raw <- gets input ;;
  let r := filterInput raw in
  match cleaned r with
  | None => modify (set_filterFeedback (Some pleaseEnter))
  | Some [] => modify (set_filterFeedback (Some pleaseEnter))
  | Some cleaned =>
      modify (set_filterFeedback (feedback r)) ;;
      modify (set_lastQuery cleaned) ;;
      refreshFilters cleaned ;;
      modify (set_sending true) ;;
      modify (push {| role := user; content := cleaned; error := None |}) ;;
      modify (set_input []) ;;
      when (wasMasked (feedback r))
           (modify (push {| role := system; content := maskNote; error := None |})) ;;
      tryFinally
        (tryCatch
           (q <- gets lastQuery ;;
            t <- gets activeTopic ;;
            response <- awaitAsk rag during q (Some {| topic := t |}) ;;
            modify (push response) ;;
            q' <- gets lastQuery ;;
            when (truthy q') (refreshFilters q'))
           (fun e =>
              modify (push errMsg) ;;
              q' <- gets lastQuery ;;
              when (truthy q') (refreshFilters q')))
        (modify (set_sending false))
  end.

(** [clear()]. *)
Definition clear (c : ChatboxComponent) : ChatboxComponent :=
  resetFilterView
    (set_filterFeedback None
       (set_messages
          [ {| role := assistant;
               content := lit "Chat cleared. How can I help you next?";
               error := None |} ] c)).

(** *** The states of a submit cycle *)

(** The component after [refreshFilters query], when it completes. *)
Definition refreshed (query : jsstring) (c : ChatboxComponent) : ChatboxComponent :=
  let c1 := set_filteredFaqs (filteredFaqsOf h c query) c in
  set_filterMatches true
    (set_filteredMessages (computeFilteredHistory h c1 query) c1).

(** The component when [send] reaches its [await]: the input [text] was
    accepted with feedback [fb] and the filters were refreshed. *)
Definition submitted (text : jsstring) (fb : option jsstring) (c : ChatboxComponent)
  : ChatboxComponent :=
  let c1 := refreshed text (set_lastQuery text (set_filterFeedback fb c)) in
  let c2 :=
    set_input []
      (push {| role := user; content := text; error := None |}
         (set_sending true c1)) in
  if wasMasked fb
  then push {| role := system; content := maskNote; error := None |} c2
  else c2.

(** The component when [send] returns, [m] being the answer of the service
    or [errMsg], and [c] the component when [send] resumes. *)
Definition completed (m : ChatMessage) (c : ChatboxComponent) : ChatboxComponent :=
  let c1 := push m c in
  set_sending false
    (if truthy (lastQuery c1) then refreshed (lastQuery c1) c1 else c1).

End Handlers.

(** *** What happens while [send] is suspended *)

(** The handlers that can run between the call of the service and its
    answer: an assignment to the public field [input] (the text box bound
    to it), the callback of the topic subscription, and [clear()]; a second
    [send()] returns at its first line. *)
Inductive Event : Type :=
| Typed (v : jsstring)
| TopicChanged (t : option jsstring)
| Cleared.

Definition handle (c : ChatboxComponent) (e : Event) : ChatboxComponent :=
  match e with
  | Typed v => set_input v c
  | TopicChanged t => onTopic t c
  | Cleared => clear c
  end.

Definition interleaved (evs : list Event) (c : ChatboxComponent)
  : ChatboxComponent :=
  fold_left handle evs c.

Definition world (c : ChatboxComponent) : World := {| self := c; ragCalls := [] |}.

(** The world a handler leaves behind, however it ends. *)
Definition finalWorld {A : Type} (o : Outcome A) : World :=
  match o with
  | Returned _ w => w
  | Threw _ w => w
  | Suspended w => w
  end.

End Chatbox.

(* ===================================================================== *)
(** * Shapes of texts *)
(* ===================================================================== *)

Module Text.
Import JS.
Local Open Scope N_scope.

Definition isSpaceAt (o : option N) : bool :=
  match o with Some c => isSpace c | None => false end.

(** No whitespace character other than the space U+0020. *)
Definition onlyPlainSpaces (s : jsstring) : bool :=
  forallb (fun c => negb (isSpace c) || (c =? 32)) s.

(** No two spaces U+0020 in a row. *)
Fixpoint noDoubleSpace (s : jsstring) : bool :=
  match s with
  | [] => true
  | c :: s' =>
      match s' with
      | c' :: _ => negb ((c =? 32) && (c' =? 32))
      | [] => true
      end && noDoubleSpace s'
  end.

(** The ways of cutting a text in two. *)
Fixpoint cuts (w : jsstring) : list (jsstring * jsstring) :=
  match w with
  | [] => [([], [])]
  | c :: w' => ([], w) :: map (fun ab => (c :: fst ab, snd ab)) (cuts w')
  end.

(** The same text up to the case of its ASCII letters. *)
Definition sameUpToCase (a b : jsstring) : Prop :=
  map asciiUpper a = map asciiUpper b.

(** [x] occurs in [text]. *)
Definition occursIn (x text : jsstring) : Prop :=
  exists pre post, text = pre ++ x ++ post.

End Text.

(* ===================================================================== *)
(** * The wording of the design document *)
(* ===================================================================== *)

(** Definitions that follow the sentences of the design document rather
    than the sources; the theorems below compare the two. *)
Module Doc.
Import JS Rag.

(** "The first whitespace-delimited token": what precedes the first
    whitespace character. *)
Fixpoint firstWhitespaceToken (s : jsstring) : jsstring :=
  match s with
  | [] => []
  | c :: s' => if isSpace c then [] else c :: firstWhitespaceToken s'
  end.

(** What precedes the first space U+0020. *)
Fixpoint firstSpaceToken (s : jsstring) : jsstring :=
  match s with
  | [] => []
  | c :: s' => if N.eqb c 32 then [] else c :: firstSpaceToken s'
  end.

Definition defaultBucket : list jsstring :=
  match lookup (lit "default") mockKnowledgeBase with
  | Some b => b
  | None => []
  end.

(** "The knowledge bucket for topic if present and non-empty, else the
    default bucket." *)
Definition bucketFor (topic : option jsstring) : list jsstring :=
  match topic with
  | Some t =>
      match lookup t mockKnowledgeBase with
      | Some (s :: b) => s :: b
      | _ => defaultBucket
      end
  | None => defaultBucket
  end.

(** Retrieval for a given notion of first token: the entries whose
    lowercase text contains the token, or the first two entries of the
    bucket when there is none. *)
Definition retrievalWith (token : jsstring -> jsstring) (h : Host)
  (question : jsstring) (topic : option jsstring) : list jsstring :=
  let bucket := bucketFor topic in
  let tok := token (toLowerCase h question) in
  match filter (fun s => includes (toLowerCase h s) tok) bucket with
  | [] => firstn 2 bucket
  | kept => kept
  end.

(** Retrieval as the document words it. *)
Definition retrieval := retrievalWith firstWhitespaceToken.

(** The last character of [s], or [prev] when [s] is empty. *)
Fixpoint lastOr (prev : option N) (s : jsstring) : option N :=
  match s with
  | [] => prev
  | c :: s' => lastOr (Some c) s'
  end.

(** [m] is the word [w] up to the case of its letters. *)
Definition sameWordCI (w m : jsstring) : Prop :=
  Forall2 (fun p c => eqCI p c = true) w m.

(** "Contains a word of the list as a whole word, case-insensitively": an
    occurrence with no word character right before it nor right after it. *)
Definition hasWholeWord (words : list jsstring) (s : jsstring) : Prop :=
  exists pre m post w,
    s = pre ++ m ++ post /\ In w words /\ sameWordCI w m /\
    isWordAt (lastOr None pre) = false /\
    isWordAt (hd_error post) = false.

(** The keyword rules in their order of priority. *)
Definition toolRules : list (list jsstring * jsstring) :=
  [ ([lit "billing"; lit "invoice"; lit "payment"], lit "billing.lookup");
    ([lit "api"; lit "key"; lit "token"; lit "rate"], lit "api.docs.search");
    ([lit "security"; lit "mfa"; lit "sso"; lit "rbac"], lit "security.policy.fetch");
    ([lit "troubleshoot"; lit "error"; lit "issue"], lit "diagnostics.helper") ].

Definition ruleMatches (question : jsstring) (r : list jsstring * jsstring)
  : bool :=
  existsb (fun k => testCI k question) (fst r).

(** "First matching rule wins", [knowledge.search] otherwise. *)
Definition toolFor (question : jsstring) : jsstring :=
  match find (ruleMatches question) toolRules with
  | Some r => snd r
  | None => lit "knowledge.search"
  end.

(** The bulleted block: a bullet, a space and the snippet on each line. *)
Definition bulleted (docs : list jsstring) : jsstring :=
  join [10%N] (map (fun d => [8226%N; 32%N] ++ d) docs).

(** The answer template, for a given apostrophe after [Here]. *)
Definition templateWith (apostrophe : N) (tool block : jsstring) : jsstring :=
  lit "Here" ++ [apostrophe] ++ lit "s what I found using " ++ tool
  ++ lit ":" ++ [10%N] ++ block ++ [10%N; 10%N]
  ++ lit "If you need more details, feel free to ask or refine by selecting a topic.".

(** The template as the document prints it, with the apostrophe U+0027. *)
Definition template := templateWith 39%N.

End Doc.

Module DocView.
Import JS Chatbox.

Section WithHost.
Variable h : Host.

(** "Case-insensitive substring match": the query, in lower case, occurs
    in the text, in lower case. *)
Definition containsCI (text q : jsstring) : Prop :=
  Text.occursIn (toLowerCase h q) (toLowerCase h text).

(** "When a topic is currently active". *)
Definition topicActive (c : ChatboxComponent) : Prop :=
  exists t, activeTopic c = Some t /\ t <> [].

(** "System messages that record a topic-context change": their text holds
    the words of the note, whatever the case of the letters. *)
Definition recordsTopicChange (m : ChatMessage) : Prop :=
  role m = system /\
  exists pre s post,
    content m = pre ++ s ++ post /\
    Doc.sameWordCI (lit "Context updated to topic") s.

Definition inFilteredTranscript (c : ChatboxComponent) (q : jsstring)
  (m : ChatMessage) : Prop :=
  containsCI (content m) q \/ (topicActive c /\ recordsTopicChange m).

Definition inFilteredFaqs (q : jsstring) (f : Faq) : Prop :=
  containsCI (Faq.title f) q \/ containsCI (Faq.content f) q.

End WithHost.

(** The same match between texts of ASCII characters, said without the
    host: a piece of the text is the query up to the case of its letters. *)
Definition containsAsciiCI (text q : jsstring) : Prop :=
  exists pre s post, text = pre ++ s ++ post /\ Text.sameUpToCase s q.

Definition fallbackFaqs (c : ChatboxComponent) : list Faq :=
  match lookup (lit "default") (faqCatalog c) with
  | Some l => l
  | None => []
  end.

(** "The FAQ table bucket selected by the active topic (falling back to
    default when the topic has no bucket)". *)
Definition faqBucket (c : ChatboxComponent) : list Faq :=
  match activeTopic c with
  | Some t =>
      if truthy t
      then match lookup t (faqCatalog c) with
           | Some l => l
           | None => fallbackFaqs c
           end
      else fallbackFaqs c
  | None => fallbackFaqs c
  end.

End DocView.

(* ===================================================================== *)
(** * topics/sidebar-topics.component.ts and app.component.ts *)
(* ===================================================================== *)

Module Sidebar.
Import JS.

Record TopicEntry : Type := {
  id : jsstring;
  title : jsstring;
  count : option N             (* count?: number *)
}.

Record SidebarTopicsComponent : Type := {
  topics : list TopicEntry;
  active : jsstring
}.

Definition mkTopic (i t : string) (n : N) : TopicEntry :=
  {| id := lit i; title := lit t; count := Some n |}.

(** The field initialisers of the class. *)
Definition initial : SidebarTopicsComponent :=
  {| topics :=
       [ mkTopic "getting-started" "Getting Started" 8;
         mkTopic "account" "Account & Billing" 5;
         mkTopic "security" "Security" 6;
         mkTopic "api" "API & Integrations" 9;
         mkTopic "troubleshooting" "Troubleshooting" 7 ];
     active := lit "getting-started" |}.

(** [selectTopic(id)]: the component afterwards and the value emitted on
    [topicSelected]. *)
Definition selectTopic (i : jsstring) (s : SidebarTopicsComponent)
  : SidebarTopicsComponent * jsstring :=
  ({| topics := topics s; active := i |}, i).

End Sidebar.

Module Shell.
Import JS Chatbox.

(** [AppComponent.onTopicSelected(topic)]. *)
Definition onTopicSelected (topic : jsstring)
  (svc : Bridge.TopicsBridgeService) : Bridge.TopicsBridgeService :=
  Bridge.setTopic (Some topic) svc.

(** The chat component after the callback it subscribed in its constructor
    has been called with the values of [log], oldest first. *)
Definition chatAfter (log : list Bridge.Topic) (c : ChatboxComponent)
  : ChatboxComponent :=
  fold_left (fun c t => onTopic t c) log c.

(** The values the operations publish, oldest first. *)
Fixpoint published (ops : list Bridge.Op) : list Bridge.Topic :=
  match ops with
  | [] => []
  | Bridge.OpSetTopic t :: ops' => t :: published ops'
  | _ :: ops' => published ops'
  end.

(** What the subscriber [i] has received, if it is subscribed. *)
Definition receivedBy (i : nat) (svc : Bridge.TopicsBridgeService)
  : option (list Bridge.Topic) :=
  option_map Bridge.received
    (find (fun o => Nat.eqb (Bridge.subId o) i) (Bridge.subscribers svc)).

(** No operation of the list unsubscribes [i]. *)
Definition keeps (i : nat) (ops : list Bridge.Op) : bool :=
  forallb (fun op => match op with
                     | Bridge.OpUnsubscribe j => negb (Nat.eqb j i)
                     | _ => true
                     end) ops.

(** The bridge after the entries [es] of the sidebar were selected one
    after the other, the shell relaying what [selectTopic] emits. *)
Definition afterSelecting (es : list Sidebar.TopicEntry)
  (svc : Bridge.TopicsBridgeService) : Bridge.TopicsBridgeService :=
  fold_left
    (fun svc e =>
       onTopicSelected (snd (Sidebar.selectTopic (Sidebar.id e) Sidebar.initial)) svc)
    es svc.

(** The chat component that subscribed, in its constructor, to the freshly
    seeded bridge, after those selections: its callback has been called with
    what its subscription received. *)
Definition chatAfterSelecting (es : list Sidebar.TopicEntry)
  : option ChatboxComponent :=
  let (i, svc) := Bridge.subscribeTopic Bridge.newTopicsBridgeService in
  option_map (fun log => chatAfter log initial)
             (receivedBy i (afterSelecting es svc)).

End Shell.

(* ===================================================================== *)
(** * The chat component with live filtering *)
(* ===================================================================== *)

(** The revision of [chatbox.component.ts] that filters while the user
    types: its fields, [filterInput], [computeFilteredHistory],
    [computeFilteredFaqs], [resetFilterView] and [clear] are those of
    [Chatbox], and so is [send] but for the argument of [ask], written
    [cleaned], which is what [lastQuery] holds at that point; it adds
    [updateLiveFilters] and [onInputChanged], and its subscription callback
    recomputes the filters. *)
Module LiveFilter.
Import JS Chatbox.
Local Open Scope handler_scope.

Section WithHost.
Variable h : Host.

Definition updateLiveFilters (query : jsstring) : M unit :=
  let r := filterInput query in
  modify (set_filterFeedback (feedback r)) ;;
  match cleaned r with
  | None => modify resetFilterView
  | Some [] => modify resetFilterView
  | Some cleaned =>
      modify (set_lastQuery cleaned) ;;
      faqs <- eval (fun c => computeFilteredFaqs h c cleaned) ;;
      modify (set_filteredFaqs faqs) ;;
      msgs <- gets (fun c => computeFilteredHistory h c cleaned) ;;
      modify (set_filteredMessages msgs) ;;
      modify (set_filterMatches true)
  end.

Definition onInputChanged (value : jsstring) : M unit :=
  modify (set_input value) ;;
  v <- gets input ;;
  updateLiveFilters v.

(** The callback subscribed to [topicsBridge.topic$]. *)
Definition onTopic (topic : option jsstring) : M unit :=
  modify (set_activeTopic topic) ;;
  modify resetFilterView ;;
  match topic with
  | Some t => when (truthy t) (modify (push (contextNote t)))
  | None => ret tt
  end ;;
  v <- gets input ;;
  when (truthy v && truthy (trim v)) (updateLiveFilters v).

End WithHost.
End LiveFilter.

(* ===================================================================== *)
(** * Properties *)
(* ===================================================================== *)

Import JS Rag Chatbox.
Local Open Scope N_scope.

(** ** Worked examples *)

Example ask_rate_limits :
  ask browser 0 (lit "What are the rate limits?") (Some {| topic := Some (lit "api") |})
  = Fulfilled {| role := assistant;
                 content := lit "Here" ++ [8217%N] ++ lit "s what I found using api.docs.search:"
                   ++ [10%N; 8226%N] ++ lit " Use API keys from Settings > API to authenticate your requests."
                   ++ [10%N; 8226%N] ++ lit " Rate limiting is enforced at 60 requests per minute."
                   ++ [10%N; 10%N]
                   ++ lit "If you need more details, feel free to ask or refine by selecting a topic.";
                 error := None |}.
Proof. vm_compute. reflexivity. Qed.


Example send_rate_limits :
  let c := set_input (lit "  What are   the <b>rate</b> limits? ")
             (onTopic (Some (lit "api")) initial) in
  match send browser (ask browser 0) (fun c => c) (world c) with
  | Returned _ w =>
      sending (self w) = false /\
      map role (messages (self w)) = [assistant; system; user; assistant] /\
      map content (firstn 3 (messages (self w)))
        = [content greeting; lit "Context updated to topic: api";
           lit "What are the brate/b limits?"] /\
      ragCalls w = [(lit "What are the brate/b limits?",
                     Some {| topic := Some (lit "api") |})]
  | _ => False
  end.
Proof. vm_compute. repeat split; reflexivity. Qed.

Example filterInput_masks :
  filterInput (lit "  you   BadWord, curse! cursed ")
  = {| cleaned := Some (lit "you ****, ****! cursed"); feedback := Some maskNote |}.
Proof. vm_compute. reflexivity. Qed.


(** The component as the constructor leaves it: the bridge delivers its
    seed at once. *)
Example construct_seeded :
  let c := construct Bridge.newTopicsBridgeService in
  activeTopic c = Some (lit "getting-started") /\
  messages c = [greeting;
                {| role := system;
                   content := lit "Context updated to topic: getting started";
                   error := None |}].
Proof. vm_compute. split; reflexivity. Qed.

(** [clear()] leaves one assistant message and no filtered view. *)
Lemma clear_resets (c : ChatboxComponent) :
  messages (clear c)
  = [ {| role := assistant;
         content := lit "Chat cleared. How can I help you next?";
         error := None |} ] /\
  filterMatches (clear c) = false /\
  filteredMessages (clear c) = [] /\
  filteredFaqs (clear c) = [] /\
  lastQuery (clear c) = [] /\
  filterFeedback (clear c) = None.
Proof. repeat split; reflexivity. Qed.

(** ** Whitespace normalisation *)

Lemma collapseFrom_blank (s : jsstring) (inRun : bool) :
  forallb isSpace s = true ->
  forallb isSpace (collapseFrom inRun s) = true.
Proof.
  revert inRun. induction s as [|c s IH]; intros inRun Hs; simpl in *.
  - reflexivity.
  - apply andb_true_iff in Hs as [Hc Hs]. rewrite Hc.
    destruct inRun; simpl; auto.
Qed.

Lemma trimStart_blank (s : jsstring) :
  forallb isSpace s = true -> trimStart s = [].
Proof.
  induction s as [|c s IH]; simpl; intros Hs.
  - reflexivity.
  - apply andb_true_iff in Hs as [Hc Hs]. rewrite Hc. auto.
Qed.

Lemma normalize_blank (raw : jsstring) :
  forallb isSpace raw = true -> trim (collapseSpaces raw) = [].
Proof.
  intros Hraw. unfold trim, collapseSpaces.
  rewrite trimStart_blank by (apply collapseFrom_blank; assumption).
  reflexivity.
Qed.

(** ** filterInput and angle brackets *)

Lemma stripAngles_clean (s : jsstring) :
  existsb isAngle (stripAngles s) = false.
Proof.
  unfold stripAngles. induction s as [|c s IH]; simpl.
  - reflexivity.
  - destruct (isAngle c) eqn:Hc; simpl; [assumption|].
    rewrite Hc. assumption.
Qed.

(** On the path without masking the cleaned text has no angle bracket. *)
Lemma filterInput_unmasked_strips (raw text : jsstring) :
  cleaned (filterInput raw) = Some text ->
  feedback (filterInput raw) = None ->
  existsb isAngle text = false.
Proof.
  unfold filterInput.
  destruct (negb (truthy (trim (collapseSpaces raw)))); simpl; [discriminate|].
  destruct (testWords banned (trim (collapseSpaces raw))); simpl.
  - discriminate.
  - intros [= <-] _. apply stripAngles_clean.
Qed.

(** ** Blank input *)

(** C4, as stated, fails: for a blank input [filterInput] returns no
    feedback at all; the rejection feedback is an assignment of [send]. *)
Lemma filterInput_blank_has_no_feedback :
  forallb isSpace (lit "   ") = true /\
  cleaned (filterInput (lit "   ")) = None /\
  feedback (filterInput (lit "   ")) <> Some pleaseEnter.
Proof. repeat split; vm_compute; discriminate. Qed.

(** C4 (amended).  For an input made of whitespace only (or empty),
    [filterInput] yields no cleaned text and no feedback; [send], called when
    no submit is in flight, sets the feedback "Please enter a question before
    sending." and nothing else: the transcript is unchanged and no call to the
    service is made. *)
Theorem blank_input_rejected_locally
  (h : Host) (rag : RagService) (during : ChatboxComponent -> ChatboxComponent)
  (c : ChatboxComponent) (calls : list (jsstring * option QueryOptions)) :
  forallb isSpace (input c) = true ->
  sending c = false ->
  filterInput (input c) = {| cleaned := None; feedback := None |} /\
  send h rag during {| self := c; ragCalls := calls |}
  = Returned tt {| self := set_filterFeedback (Some pleaseEnter) c;
                   ragCalls := calls |} /\
  messages (set_filterFeedback (Some pleaseEnter) c) = messages c.
Proof.
  intros Hblank Hidle.
  assert (Hf : filterInput (input c) = {| cleaned := None; feedback := None |}).
  { unfold filterInput. rewrite (normalize_blank _ Hblank). reflexivity. }
  split; [exact Hf|]. split; [|reflexivity].
  unfold send, bind, gets. cbn [self]. rewrite Hidle. cbn [self].
  rewrite Hf. reflexivity.
Qed.

Lemma blank_input_rejected_locally_witness :
  let c := set_input (lit "  ") initial in
  send browser (ask browser 0) (fun x => x) (world c)
  = Returned tt (world (set_filterFeedback (Some pleaseEnter) c)).
Proof.
  intros c.
  exact (proj1 (proj2 (@blank_input_rejected_locally browser (ask browser 0)
                         (fun x => x) c [] eq_refl eq_refl))).
Defined.

(** ** The delay and hosts without timers *)

Lemma delay_with_timer (h : Host) (ms : Q) :
  hasSetTimeout h = true -> delay h ms = Fulfilled tt.
Proof. intros H. unfold delay. rewrite H. reflexivity. Qed.

Lemma delay_independent_of_duration (h : Host) (ms ms' : Q) :
  delay h ms = delay h ms'.
Proof. unfold delay. destruct (hasSetTimeout h); reflexivity. Qed.

(** C10.  On a host without [setTimeout] the promise of [delay(ms)] stays
    pending whatever [ms] is, and so does the promise of every call of [ask]
    (it awaits the retrieval, which awaits [delay(200)] first). *)
Theorem ask_never_settles_without_setTimeout (h : Host) :
  hasSetTimeout h = false ->
  (forall ms, delay h ms = Pending) /\
  (forall q topic, retrieveFromChroma h q topic = Pending) /\
  (forall rnd q opts, ask h rnd q opts = Pending /\
                      settled (ask h rnd q opts) = false).
Proof.
  intros H.
  assert (Hd : forall ms, delay h ms = Pending).
  { intros ms. unfold delay. rewrite H. reflexivity. }
  assert (Hr : forall q topic, retrieveFromChroma h q topic = Pending).
  { intros q topic. unfold retrieveFromChroma. rewrite Hd. reflexivity. }
  repeat split; auto; unfold ask; rewrite Hr; reflexivity.
Qed.

Lemma ask_never_settles_without_setTimeout_witness :
  ask ssr 0 (lit "What are the rate limits?") (Some {| topic := Some (lit "api") |})
  = Pending.
Proof.
  exact (proj1 (proj2 (proj2 (@ask_never_settles_without_setTimeout ssr eq_refl))
                 0%Q (lit "What are the rate limits?")
                 (Some {| topic := Some (lit "api") |}))).
Defined.

(** ** Reads of the tables *)

Lemma JS_eqb_eq (a b : jsstring) : JS.eqb a b = true -> a = b.
Proof. unfold JS.eqb. destruct (list_eq_dec N.eq_dec a b); [auto|discriminate]. Qed.

Lemma lookup_In {V : Type} (key : jsstring) (table : list (jsstring * V)) (v : V) :
  lookup key table = Some v -> In (key, v) table.
Proof.
  induction table as [|[k w] table IH]; simpl; [discriminate|].
  unfold JS.eqb. destruct (list_eq_dec N.eq_dec key k) as [->|_].
  - intros [= ->]. left. reflexivity.
  - intros H. right. auto.
Qed.

Lemma inherited_In (key : jsstring) :
  inherited key = true <-> In key objectPrototypeKeys.
Proof.
  unfold inherited. rewrite existsb_exists. split.
  - intros [k [Hin Hk]]. apply JS_eqb_eq in Hk. subst k. exact Hin.
  - intros Hin. exists key. split; [exact Hin|].
    unfold JS.eqb. destruct (list_eq_dec N.eq_dec key key); congruence.
Qed.

(** A read ends on [Object.prototype] exactly for the keys the table does
    not own among those it inherits. *)
Lemma hitsPrototype_spec {V : Type} (key : jsstring) (table : list (jsstring * V)) :
  hitsPrototype key table = true
  <-> lookup key table = None /\ inherited key = true.
Proof.
  unfold hitsPrototype, getProp.
  destruct (lookup key table); [|destruct (inherited key)];
    split; try discriminate; try tauto; intros [? ?]; discriminate.
Qed.

(** Neither table of the sources owns a key that it inherits. *)
Lemma tables_own_no_inherited_key :
  forallb (fun k => negb (isSome (lookup k mockKnowledgeBase))
                    && negb (isSome (lookup k initialFaqCatalog)))
          objectPrototypeKeys = true.
Proof. vm_compute. reflexivity. Qed.

Lemma hitsPrototype_knowledge (t : jsstring) :
  hitsPrototype t mockKnowledgeBase = inherited t.
Proof.
  destruct (inherited t) eqn:Hi.
  - apply hitsPrototype_spec. split; [|exact Hi].
    apply inherited_In in Hi.
    pose proof tables_own_no_inherited_key as H.
    rewrite forallb_forall in H. specialize (H _ Hi).
    apply andb_true_iff in H as [H _].
    destruct (lookup t mockKnowledgeBase); [discriminate H|reflexivity].
  - destruct (hitsPrototype t mockKnowledgeBase) eqn:E; [|reflexivity].
    apply hitsPrototype_spec in E as [_ E]. congruence.
Qed.

Lemma hitsPrototype_initial_catalog (t : jsstring) :
  hitsPrototype t initialFaqCatalog = inherited t.
Proof.
  destruct (inherited t) eqn:Hi.
  - apply hitsPrototype_spec. split; [|exact Hi].
    apply inherited_In in Hi.
    pose proof tables_own_no_inherited_key as H.
    rewrite forallb_forall in H. specialize (H _ Hi).
    apply andb_true_iff in H as [_ H].
    destruct (lookup t initialFaqCatalog); [discriminate H|reflexivity].
  - destruct (hitsPrototype t initialFaqCatalog) eqn:E; [|reflexivity].
    apply hitsPrototype_spec in E as [_ E]. congruence.
Qed.

(** The key a handler settles on, [topic && table[topic] ? topic :
    'default'], and what the read of that key finds. *)
Lemma selected_key {V : Type} (topic : option jsstring)
  (table : list (jsstring * V)) :
  getProp (match topic with
           | Some t => if truthy t && truthyProperty (getProp t table)
                       then t else lit "default"
           | None => lit "default"
           end) table
  = if topicHitsPrototype topic table then Inherited
    else match topic with
         | Some t =>
             if truthy t
             then match lookup t table with
                  | Some v => Own v
                  | None => getProp (lit "default") table
                  end
             else getProp (lit "default") table
         | None => getProp (lit "default") table
         end.
Proof.
  destruct topic as [t|]; [|reflexivity].
  unfold topicHitsPrototype, hitsPrototype.
  destruct (truthy t) eqn:Ht; cbn [andb].
  - destruct (getProp t table) as [v| |] eqn:E; cbn [truthyProperty].
    + rewrite E. unfold getProp in E.
      destruct (lookup t table);
        [injection E as ->; reflexivity | destruct (inherited t); discriminate E].
    + exact E.
    + unfold getProp in E. destruct (lookup t table); [discriminate E|].
      reflexivity.
  - destruct t; [|discriminate Ht].
    destruct (getProp [] table) eqn:E; try reflexivity.
    unfold getProp in E. destruct (lookup [] table); [discriminate E|].
    vm_compute in E. discriminate E.
Qed.

(** ** Retrieval *)

Lemma knowledge_buckets_nonempty :
  Forall (fun kv => snd kv <> []) mockKnowledgeBase.
Proof. unfold mockKnowledgeBase. repeat constructor; simpl; discriminate. Qed.

Lemma lookup_knowledge_nonempty (t : jsstring) (b : list jsstring) :
  lookup t mockKnowledgeBase = Some b -> b <> [].
Proof.
  intros H. apply lookup_In in H.
  pose proof knowledge_buckets_nonempty as F.
  rewrite Forall_forall in F. exact (F _ H).
Qed.

Lemma lookup_default_knowledge :
  lookup (lit "default") mockKnowledgeBase = Some Doc.defaultBucket.
Proof. vm_compute. reflexivity. Qed.

Lemma getProp_default_knowledge :
  getProp (lit "default") mockKnowledgeBase = Own Doc.defaultBucket.
Proof. vm_compute. reflexivity. Qed.

Lemma bucketFor_nonempty (topic : option jsstring) : Doc.bucketFor topic <> [].
Proof.
  assert (Hd : Doc.defaultBucket <> []) by (vm_compute; discriminate).
  unfold Doc.bucketFor. destruct topic as [t|]; [|exact Hd].
  destruct (lookup t mockKnowledgeBase) as [[|s b]|]; try exact Hd.
  discriminate.
Qed.

(** Unless the read ends on [Object.prototype], the bucket the code reads
    is the one the document names. *)
Lemma selected_bucket (topic : option jsstring) :
  getProp (match topic with
           | Some t => if truthy t && truthyProperty (getProp t mockKnowledgeBase)
                       then t else lit "default"
           | None => lit "default"
           end) mockKnowledgeBase
  = if topicHitsPrototype topic mockKnowledgeBase then Inherited
    else Own (Doc.bucketFor topic).
Proof.
  rewrite selected_key.
  destruct (topicHitsPrototype topic mockKnowledgeBase); [reflexivity|].
  rewrite getProp_default_knowledge.
  destruct topic as [t|]; [|reflexivity].
  unfold Doc.bucketFor.
  destruct (truthy t) eqn:Ht.
  - destruct (lookup t mockKnowledgeBase) as [b|] eqn:Hl; [|reflexivity].
    destruct b; [|reflexivity].
    exfalso. exact (lookup_knowledge_nonempty _ Hl eq_refl).
  - destruct t; [|discriminate Ht]. reflexivity.
Qed.

Lemma keyword_firstSpaceToken (h : Host) (q : jsstring) :
  keyword h q = Doc.firstSpaceToken (toLowerCase h q).
Proof.
  unfold keyword. generalize (toLowerCase h q) as s.
  induction s as [|c s IH]; simpl; [reflexivity|].
  destruct (c =? 32); simpl; [reflexivity|].
  destruct (split 32 s) as [|hd tl]; simpl in *; rewrite <- IH; reflexivity.
Qed.

Lemma includes_empty (s : jsstring) : includes s [] = true.
Proof. destruct s; reflexivity. Qed.

Lemma retrieveFromChroma_eq (h : Host) (q : jsstring) (topic : option jsstring) :
  retrieveFromChroma h q topic
  = await (delay h 200)
      (fun _ =>
         if topicHitsPrototype topic mockKnowledgeBase
         then Rejected baseError
         else Fulfilled (Doc.retrievalWith Doc.firstSpaceToken h q topic)).
Proof.
  unfold retrieveFromChroma, Doc.retrievalWith, await.
  destruct (delay h 200); try reflexivity.
  rewrite selected_bucket, keyword_firstSpaceToken.
  destruct (topicHitsPrototype topic mockKnowledgeBase); [reflexivity|].
  destruct (filter _ (Doc.bucketFor topic)); reflexivity.
Qed.

(** C2, as stated, fails: the code cuts the question at the first space
    U+0020, not at the first whitespace character.  With a tab after the
    first word the whole question is the keyword, no entry contains it, and
    both entries of the bucket come back, where the token [rate] would have
    kept one. *)
Lemma retrieval_token_is_not_whitespace_delimited :
  let q := lit "rate" ++ [9] ++ lit "limits" in
  retrieveFromChroma browser q (Some (lit "api"))
  = Fulfilled [ lit "Use API keys from Settings > API to authenticate your requests.";
                lit "Rate limiting is enforced at 60 requests per minute." ]
  /\ Doc.retrieval browser q (Some (lit "api"))
     = [ lit "Rate limiting is enforced at 60 requests per minute." ]
  /\ retrieveFromChroma browser q (Some (lit "api"))
     <> Fulfilled (Doc.retrieval browser q (Some (lit "api"))).
Proof.
  intros q. split; [|split].
  - vm_compute. reflexivity.
  - vm_compute. reflexivity.
  - vm_compute. discriminate.
Qed.

(** C2 (amended).  On a host with timers, and for a topic that is not the
    name of a property the table inherits without owning it, retrieval
    answers with the entries of the bucket for the topic (the default bucket
    when the topic is absent or has no bucket) whose lowercase text contains
    what precedes the first space U+0020 of the lowercase question, or with
    the first two entries of the bucket when there is no such entry.  The
    answer is never empty, and an empty token keeps every entry. *)
Theorem retrieval_by_first_space_token
  (h : Host) (q : jsstring) (topic : option jsstring) :
  hasSetTimeout h = true ->
  topicHitsPrototype topic mockKnowledgeBase = false ->
  let bucket := Doc.bucketFor topic in
  let token := Doc.firstSpaceToken (toLowerCase h q) in
  let kept := filter (fun s => includes (toLowerCase h s) token) bucket in
  retrieveFromChroma h q topic
  = Fulfilled (match kept with [] => firstn 2 bucket | _ => kept end)
  /\ match kept with [] => firstn 2 bucket | _ => kept end <> []
  /\ (token = [] -> kept = bucket)
  /\ (forall t b, topic = Some t -> lookup t mockKnowledgeBase = Some b ->
      bucket = b)
  /\ (forall t, topic = Some t -> lookup t mockKnowledgeBase = None ->
      bucket = Doc.defaultBucket)
  /\ (topic = None -> bucket = Doc.defaultBucket).
Proof.
  intros Ht Hp bucket token kept.
  pose proof (bucketFor_nonempty topic) as Hne. fold bucket in Hne.
  split; [|split; [|split; [|split; [|split]]]].
  - rewrite retrieveFromChroma_eq, (delay_with_timer _ _ Ht), Hp.
    unfold await, Doc.retrievalWith. subst kept token bucket.
    destruct (filter _ _); reflexivity.
  - destruct kept eqn:Hk; [|discriminate].
    destruct bucket; [congruence|discriminate].
  - intros Htok. subst kept. rewrite Htok.
    clear. induction bucket as [|s b IH]; simpl; [reflexivity|].
    rewrite includes_empty. f_equal. exact IH.
  - intros t b -> Hl. subst bucket. unfold Doc.bucketFor. rewrite Hl.
    destruct b; [|reflexivity].
    exfalso. exact (lookup_knowledge_nonempty _ Hl eq_refl).
  - intros t -> Hl. subst bucket. unfold Doc.bucketFor. rewrite Hl. reflexivity.
  - intros ->. reflexivity.
Qed.

Lemma retrieval_by_first_space_token_witness :
  retrieveFromChroma browser (lit "rate limits") (Some (lit "api"))
  = Fulfilled [ lit "Rate limiting is enforced at 60 requests per minute." ].
Proof.
  exact (proj1 (@retrieval_by_first_space_token browser (lit "rate limits")
                  (Some (lit "api")) eq_refl eq_refl)).
Defined.

(** ** Tool selection and the answer *)

Lemma selectMcpTool_first_rule (q : jsstring) :
  selectMcpTool q = Doc.toolFor q.
Proof.
  unfold selectMcpTool, Doc.toolFor, Doc.toolRules, Doc.ruleMatches, testAnyCI.
  cbn [find fst snd].
  repeat match goal with
         | |- context [existsb ?f ?l] => destruct (existsb f l)
         end; reflexivity.
Qed.

Lemma synthesizeAnswer_template (q : jsstring) (docs : list jsstring)
  (tool : jsstring) :
  synthesizeAnswer q docs tool = Doc.templateWith 8217 tool (Doc.bulleted docs).
Proof. reflexivity. Qed.

(** What [ask] ends in. *)
Lemma ask_eq (h : Host) (rnd : Q) (q : jsstring) (opts : option QueryOptions) :
  ask h rnd q opts
  = if hasSetTimeout h
    then if topicHitsPrototype (optTopic opts) mockKnowledgeBase
         then Rejected baseError
         else Fulfilled
                {| role := assistant;
                   content := synthesizeAnswer q
                     (Doc.retrievalWith Doc.firstSpaceToken h q (optTopic opts))
                     (selectMcpTool q);
                   error := None |}
    else Pending.
Proof.
  unfold ask. rewrite retrieveFromChroma_eq.
  destruct (hasSetTimeout h) eqn:Ht.
  - rewrite !(delay_with_timer _ _ Ht). cbn [await].
    destruct (topicHitsPrototype (optTopic opts) mockKnowledgeBase); reflexivity.
  - unfold delay. rewrite Ht. reflexivity.
Qed.

Lemma ask_fulfilled (h : Host) (rnd : Q) (q : jsstring)
  (opts : option QueryOptions) :
  hasSetTimeout h = true ->
  topicHitsPrototype (optTopic opts) mockKnowledgeBase = false ->
  ask h rnd q opts
  = Fulfilled
      {| role := assistant;
         content := synthesizeAnswer q
                      (Doc.retrievalWith Doc.firstSpaceToken h q (optTopic opts))
                      (selectMcpTool q);
         error := None |}.
Proof. intros Ht Hp. rewrite ask_eq, Ht, Hp. reflexivity. Qed.

(** C3, as stated, fails: the answer of the code has U+2019 (right single
    quotation mark) after [Here], where the template of the design document has the
    apostrophe U+0027; the two strings differ at their fifth character. *)
Lemma answer_differs_from_documented_template :
  let q := lit "hello" in
  exists m docs,
    ask browser 0 q None = Fulfilled m /\
    retrieveFromChroma browser q None = Fulfilled docs /\
    nth_error (content m) 4 = Some 8217 /\
    nth_error (Doc.template (Doc.toolFor q) (Doc.bulleted docs)) 4 = Some 39 /\
    content m <> Doc.template (Doc.toolFor q) (Doc.bulleted docs).
Proof.
  intros q.
  eexists. eexists.
  split; [vm_compute; reflexivity|].
  split; [vm_compute; reflexivity|].
  split; [reflexivity|]. split; [reflexivity|].
  vm_compute. discriminate.
Qed.

(** C3 (amended).  On a host with timers, for every question and every
    topic that is not the name of a property the table inherits without
    owning it, [ask] is fulfilled with an assistant message without error
    flag whose content is [Here], U+2019, [s what I found using {tool}:], a
    line feed, the retrieved snippets in order, one per line, each after a
    bullet U+2022 and a space, two line feeds, and [If you need more
    details, feel free to ask or refine by selecting a topic.]; {tool} is
    the label of the first rule, in the order billing/invoice/payment,
    api/key/token/rate, security/mfa/sso/rbac, troubleshoot/error/issue, one
    of whose keywords occurs in the question whatever its case, and
    [knowledge.search] when no rule applies. *)
Theorem ask_answers_with_template
  (h : Host) (rnd : Q) (q : jsstring) (opts : option QueryOptions) :
  hasSetTimeout h = true ->
  topicHitsPrototype (optTopic opts) mockKnowledgeBase = false ->
  exists docs,
    retrieveFromChroma h q (optTopic opts) = Fulfilled docs /\
    ask h rnd q opts
    = Fulfilled {| role := assistant;
                   content := Doc.templateWith 8217 (Doc.toolFor q)
                                (Doc.bulleted docs);
                   error := None |}.
Proof.
  intros Ht Hp.
  exists (Doc.retrievalWith Doc.firstSpaceToken h q (optTopic opts)).
  split.
  - rewrite retrieveFromChroma_eq, (delay_with_timer _ _ Ht), Hp. reflexivity.
  - rewrite (ask_fulfilled h rnd q opts Ht Hp).
    rewrite selectMcpTool_first_rule, synthesizeAnswer_template. reflexivity.
Qed.

Lemma ask_answers_with_template_witness :
  exists docs,
    retrieveFromChroma browser (lit "Is there an API key?") None = Fulfilled docs /\
    ask browser 0 (lit "Is there an API key?") None
    = Fulfilled {| role := assistant;
                   content := Doc.templateWith 8217 (lit "api.docs.search")
                                (Doc.bulleted docs);
                   error := None |}.
Proof.
  exact (@ask_answers_with_template browser 0 (lit "Is there an API key?")
           None eq_refl eq_refl).
Defined.

(** ** A topic without a bucket *)

(** C6 (the code departs from it).  A topic identifier without a bucket in
    the knowledge base is meant to be answered as no topic at all, from the
    default bucket.  It is so unless the identifier is the name of a property
    that every object inherits, such as [constructor]: the read of the table
    then finds a function instead of [undefined], the fallback is skipped,
    [base.filter] throws, and [ask] is rejected where [ask] without topic is
    fulfilled. *)
Theorem unknown_topic_behaves_as_no_topic :
  (lookup (lit "constructor") mockKnowledgeBase = None /\
   ask browser 0 (lit "How do I pay?") (Some {| topic := Some (lit "constructor") |})
   = Rejected baseError /\
   exists m, ask browser 0 (lit "How do I pay?") None = Fulfilled m) /\
  forall (h : Host) (r1 r2 : Q) (q t : jsstring),
    hasSetTimeout h = true ->
    lookup t mockKnowledgeBase = None ->
    let token := Doc.firstSpaceToken (toLowerCase h q) in
    let kept :=
      filter (fun s => includes (toLowerCase h s) token) Doc.defaultBucket in
    let docs := match kept with [] => firstn 2 Doc.defaultBucket | _ => kept end in
    let answer := {| role := assistant;
                     content := Doc.templateWith 8217 (Doc.toolFor q)
                                  (Doc.bulleted docs);
                     error := None |} in
    retrieveFromChroma h q None = Fulfilled docs /\
    ask h r2 q None = Fulfilled answer /\
    ask h r2 q (Some {| topic := None |}) = Fulfilled answer /\
    (inherited t = false ->
     retrieveFromChroma h q (Some t) = Fulfilled docs /\
     ask h r1 q (Some {| topic := Some t |}) = Fulfilled answer) /\
    (inherited t = true ->
     retrieveFromChroma h q (Some t) = Rejected baseError /\
     ask h r1 q (Some {| topic := Some t |}) = Rejected baseError).
Proof.
  split.
  { split; [vm_compute; reflexivity|]. split; [vm_compute; reflexivity|].
    eexists. vm_compute. reflexivity. }
  intros h r1 r2 q t Ht Hl token kept docs answer.
  assert (Hdocs : forall topic, Doc.bucketFor topic = Doc.defaultBucket ->
            Doc.retrievalWith Doc.firstSpaceToken h q topic = docs).
  { intros topic Hb. unfold Doc.retrievalWith. rewrite Hb.
    subst docs kept token. destruct (filter _ _); reflexivity. }
  assert (Hb : Doc.bucketFor (Some t) = Doc.defaultBucket)
    by (unfold Doc.bucketFor; rewrite Hl; reflexivity).
  assert (Hhit : hitsPrototype t mockKnowledgeBase = inherited t)
    by apply hitsPrototype_knowledge.
  assert (Hr : forall topic,
            topicHitsPrototype topic mockKnowledgeBase = false ->
            Doc.bucketFor topic = Doc.defaultBucket ->
            retrieveFromChroma h q topic = Fulfilled docs).
  { intros topic Hp Hbt.
    rewrite retrieveFromChroma_eq, (delay_with_timer _ _ Ht), Hp.
    cbn [await]. rewrite (Hdocs topic Hbt). reflexivity. }
  assert (Ha : forall r opts,
            topicHitsPrototype (optTopic opts) mockKnowledgeBase = false ->
            Doc.bucketFor (optTopic opts) = Doc.defaultBucket ->
            ask h r q opts = Fulfilled answer).
  { intros r opts Hp Hbt. rewrite (ask_fulfilled h r q opts Ht Hp).
    rewrite selectMcpTool_first_rule, synthesizeAnswer_template.
    rewrite (Hdocs _ Hbt). reflexivity. }
  split; [apply Hr; reflexivity|].
  split; [apply Ha; reflexivity|].
  split; [apply Ha; reflexivity|].
  split; intros Hi.
  - split; [apply Hr | apply Ha]; cbn [optTopic topic topicHitsPrototype];
      try exact Hb; rewrite Hhit; exact Hi.
  - split.
    + rewrite retrieveFromChroma_eq, (delay_with_timer _ _ Ht).
      cbn [topicHitsPrototype await]. rewrite Hhit, Hi. reflexivity.
    + rewrite ask_eq, Ht. cbn [optTopic topic topicHitsPrototype].
      rewrite Hhit, Hi. reflexivity.
Qed.

Lemma unknown_topic_behaves_as_no_topic_witness :
  ask browser 0 (lit "How do I pay?") (Some {| topic := Some (lit "unknown-id") |})
  = ask browser 1 (lit "How do I pay?") None /\
  ask browser 0 (lit "How do I pay?") (Some {| topic := Some (lit "toString") |})
  = Rejected baseError.
Proof.
  destruct (proj2 unknown_topic_behaves_as_no_topic browser 0%Q 1%Q
              (lit "How do I pay?") (lit "unknown-id") eq_refl eq_refl)
    as [_ [Hnone [_ [Hplain _]]]].
  destruct (proj2 unknown_topic_behaves_as_no_topic browser 0%Q 1%Q
              (lit "How do I pay?") (lit "toString") eq_refl eq_refl)
    as [_ [_ [_ [_ Hproto]]]].
  split.
  - rewrite Hnone. exact (proj2 (Hplain eq_refl)).
  - exact (proj2 (Hproto eq_refl)).
Defined.

(** The order of the rules matters: a question with keywords of two rules
    gets the label of the earlier one. *)
Example tool_priority :
  selectMcpTool (lit "Payment API error") = lit "billing.lookup" /\
  selectMcpTool (lit "API error") = lit "api.docs.search" /\
  selectMcpTool (lit "SSO issue") = lit "security.policy.fetch" /\
  selectMcpTool (lit "an ISSUE") = lit "diagnostics.helper" /\
  selectMcpTool (lit "hello") = lit "knowledge.search".
Proof. repeat split; vm_compute; reflexivity. Qed.

(** ** The topic bridge *)

Import Bridge.

Lemma upToDate_step (svc : TopicsBridgeService) (op : Op) :
  upToDate svc -> upToDate (step svc op).
Proof.
  unfold upToDate, subscribers, current. intros H.
  destruct op as [t| |id]; simpl.
  - apply Forall_forall. intros sub Hin.
    apply in_map_iff in Hin as [old [<- _]].
    exists (received old). reflexivity.
  - apply Forall_app. split; [exact H|].
    constructor; [|constructor]. exists []. reflexivity.
  - apply Forall_forall. intros sub Hin.
    apply filter_In in Hin as [Hin _].
    rewrite Forall_forall in H. exact (H _ Hin).
Qed.

Lemma upToDate_run (ops : list Op) (svc : TopicsBridgeService) :
  upToDate svc -> upToDate (run ops svc).
Proof.
  revert svc. induction ops as [|op ops IH]; intros svc H; simpl.
  - exact H.
  - apply IH, upToDate_step, H.
Qed.

Lemma current_run (ops : list Op) (svc : TopicsBridgeService) :
  current (run ops svc) = lastPublished (current svc) ops.
Proof.
  revert svc. induction ops as [|op ops IH]; intros svc; simpl.
  - reflexivity.
  - unfold run in IH. rewrite IH. destruct op; reflexivity.
Qed.

Lemma find_deliver (i : nat) (v : Topic) (l : list Subscriber) :
  find (fun o => Nat.eqb (subId o) i) (map (deliver v) l)
  = option_map (deliver v) (find (fun o => Nat.eqb (subId o) i) l).
Proof.
  induction l as [|o l IH]; [reflexivity|].
  cbn [map find]. cbn [deliver subId].
  destruct (Nat.eqb (subId o) i); [reflexivity | exact IH].
Qed.

Lemma find_unsubscribed (i j : nat) (l : list Subscriber) :
  Nat.eqb j i = false ->
  find (fun o => Nat.eqb (subId o) i)
       (filter (fun o => negb (Nat.eqb (subId o) j)) l)
  = find (fun o => Nat.eqb (subId o) i) l.
Proof.
  intros Hji. induction l as [|o l IH]; [reflexivity|].
  cbn [filter find]. destruct (Nat.eqb (subId o) j) eqn:Ej; cbn [negb].
  - apply Nat.eqb_eq in Ej.
    destruct (Nat.eqb (subId o) i) eqn:Ei; [|exact IH].
    apply Nat.eqb_eq in Ei. rewrite <- Ej, Ei, Nat.eqb_refl in Hji.
    discriminate Hji.
  - cbn [find]. destruct (Nat.eqb (subId o) i); [reflexivity | exact IH].
Qed.

Lemma find_app_found (i : nat) (l l' : list Subscriber) (o : Subscriber) :
  find (fun o => Nat.eqb (subId o) i) l = Some o ->
  find (fun o => Nat.eqb (subId o) i) (l ++ l') = Some o.
Proof.
  induction l as [|x l IH]; [discriminate|].
  cbn [app find]. destruct (Nat.eqb (subId x) i); auto.
Qed.

Lemma find_app_fresh (i : nat) (l l' : list Subscriber) :
  Forall (fun o => (subId o < i)%nat) l ->
  find (fun o => Nat.eqb (subId o) i) (l ++ l')
  = find (fun o => Nat.eqb (subId o) i) l'.
Proof.
  induction 1 as [|x l Hx _ IH]; [reflexivity|].
  cbn [app find].
  assert (E : Nat.eqb (subId x) i = false) by (apply Nat.eqb_neq; lia).
  rewrite E. exact IH.
Qed.

(** The identifiers of the subscribers are below the next one. *)
Lemma fresh_ids_step (svc : TopicsBridgeService) (op : Op) :
  Forall (fun o => (subId o < nextId (topicSubject svc))%nat) (subscribers svc) ->
  Forall (fun o => (subId o < nextId (topicSubject (step svc op)))%nat)
         (subscribers (step svc op)).
Proof.
  unfold subscribers. intros H. destruct op as [t| |j]; simpl.
  - apply Forall_forall. intros o Hin.
    apply in_map_iff in Hin as [old [<- Hold]].
    rewrite Forall_forall in H. exact (H _ Hold).
  - apply Forall_app. split.
    + eapply Forall_impl; [|exact H]. simpl. intros o Ho. lia.
    + constructor; [simpl; lia | constructor].
  - apply Forall_forall. intros o Hin. apply filter_In in Hin as [Hin _].
    rewrite Forall_forall in H. exact (H _ Hin).
Qed.

Lemma fresh_ids_run (ops : list Op) (svc : TopicsBridgeService) :
  Forall (fun o => (subId o < nextId (topicSubject svc))%nat) (subscribers svc) ->
  Forall (fun o => (subId o < nextId (topicSubject (run ops svc)))%nat)
         (subscribers (run ops svc)).
Proof.
  revert svc. induction ops as [|op ops IH]; intros svc H; [exact H|].
  apply IH, fresh_ids_step, H.
Qed.

Lemma receivedBy_run (i : nat) (ops : list Op) :
  forall (svc : TopicsBridgeService) (log : list Topic),
    Shell.receivedBy i svc = Some log ->
    (i < nextId (topicSubject svc))%nat ->
    Shell.keeps i ops = true ->
    Shell.receivedBy i (run ops svc) = Some (log ++ Shell.published ops).
Proof.
  unfold Shell.receivedBy, subscribers.
  induction ops as [|op ops IH]; intros svc log Hlog Hi Hk.
  - cbn [run fold_left Shell.published]. rewrite app_nil_r. exact Hlog.
  - unfold Shell.keeps in Hk. cbn [forallb] in Hk.
    apply andb_true_iff in Hk as [Hop Hk].
    change (run (op :: ops) svc) with (run ops (step svc op)).
    destruct (find _ (observers (topicSubject svc))) as [o|] eqn:Ef;
      [|discriminate Hlog].
    cbn [option_map] in Hlog. injection Hlog as Hlog.
    destruct op as [t| |j]; cbn [Shell.published].
    + replace (log ++ t :: Shell.published ops)
        with ((log ++ [t]) ++ Shell.published ops)
        by (rewrite <- app_assoc; reflexivity).
      apply IH; [|exact Hi|exact Hk].
      cbn [step setTopic topicSubject next observers].
      rewrite find_deliver, Ef. cbn [option_map deliver received].
      rewrite Hlog. reflexivity.
    + apply IH; [|simpl; lia|exact Hk].
      cbn [step subscribeTopic subscribe snd topicSubject observers].
      rewrite (find_app_found i _ _ Ef). cbn [option_map]. rewrite Hlog.
      reflexivity.
    + apply negb_true_iff in Hop. apply IH; [|exact Hi|exact Hk].
      cbn [step unsubscribeTopic unsubscribe topicSubject observers].
      rewrite (find_unsubscribed i j _ Hop), Ef. cbn [option_map].
      rewrite Hlog. reflexivity.
Qed.

Lemma receivedBy_new (svc : TopicsBridgeService) :
  Forall (fun o => (subId o < nextId (topicSubject svc))%nat) (subscribers svc) ->
  Shell.receivedBy (fst (subscribeTopic svc)) (snd (subscribeTopic svc))
  = Some [current svc].
Proof.
  intros Hfresh. unfold Shell.receivedBy, subscribers in *.
  cbn [subscribeTopic subscribe snd fst topicSubject observers].
  rewrite find_app_fresh by exact Hfresh.
  cbn [find subId]. rewrite Nat.eqb_refl. reflexivity.
Qed.

(** The last of the values published is the last one a subscriber was
    called with. *)
Lemma published_last (ops : list Op) (v : Topic) :
  exists before, v :: Shell.published ops = before ++ [lastPublished v ops].
Proof.
  revert v. induction ops as [|op ops IH]; intros v.
  - exists []. reflexivity.
  - destruct op as [t| |j]; cbn [Shell.published].
    + destruct (IH t) as [before E]. exists (v :: before).
      rewrite E. reflexivity.
    + exact (IH v).
    + exact (IH v).
Qed.

(** C9.  The bridge starts with the value [getting-started].  After any
    sequence of [setTopic] calls, subscriptions and unsubscriptions, the
    current value is the last one published (the seed when none was), and a
    new subscriber is called at once with it, and with nothing else.
    Whatever happens afterwards, as long as it does not unsubscribe, that
    subscriber is still subscribed and the value it was called with last is
    the current one, the last published; so it is for every subscriber. *)
Theorem bridge_is_current_value_channel :
  current newTopicsBridgeService = Some (lit "getting-started") /\
  forall ops1 ops2 : list Op,
    let svc1 := run ops1 newTopicsBridgeService in
    let i := fst (subscribeTopic svc1) in
    let svc2 := run ops2 (snd (subscribeTopic svc1)) in
    current svc1 = lastPublished (Some (lit "getting-started")) ops1 /\
    current (snd (subscribeTopic svc1)) = current svc1 /\
    Shell.receivedBy i (snd (subscribeTopic svc1)) = Some [current svc1] /\
    current svc2 = lastPublished (current svc1) ops2 /\
    (Shell.keeps i ops2 = true ->
     exists before,
       Shell.receivedBy i svc2 = Some (before ++ [current svc2])) /\
    Forall (fun sub => exists before, received sub = before ++ [current svc2])
           (subscribers svc2).
Proof.
  split; [reflexivity|].
  intros ops1 ops2 svc1 i svc2.
  assert (Hfresh : Forall (fun o => (subId o < nextId (topicSubject svc1))%nat)
                          (subscribers svc1))
    by (apply (fresh_ids_run ops1 newTopicsBridgeService); constructor).
  assert (Hc : current svc2 = lastPublished (current svc1) ops2).
  { subst svc2. rewrite current_run. reflexivity. }
  split; [subst svc1; rewrite current_run; reflexivity|].
  split; [reflexivity|].
  split; [exact (receivedBy_new svc1 Hfresh)|].
  split; [exact Hc|]. split.
  - intros Hk.
    destruct (published_last ops2 (current svc1)) as [before E].
    exists before. rewrite Hc, <- E.
    change (current svc1 :: Shell.published ops2)
      with ([current svc1] ++ Shell.published ops2).
    apply receivedBy_run;
      [exact (receivedBy_new svc1 Hfresh)
      | subst i; cbn [subscribeTopic subscribe snd fst topicSubject nextId]; lia
      | exact Hk].
  - apply upToDate_run, upToDate_step with (op := OpSubscribe), upToDate_run.
    constructor.
Qed.

Lemma bridge_is_current_value_channel_witness :
  let svc1 := run [OpSetTopic (Some (lit "security"))] newTopicsBridgeService in
  let svc2 := run [OpSubscribe; OpSetTopic (Some (lit "api")); OpUnsubscribe 1]
                  (snd (subscribeTopic svc1)) in
  exists before,
    Shell.receivedBy (fst (subscribeTopic svc1)) svc2
    = Some (before ++ [Some (lit "api")]).
Proof.
  intros svc1 svc2.
  exact (proj1 (proj2 (proj2 (proj2 (proj2
           (proj2 bridge_is_current_value_channel
              [OpSetTopic (Some (lit "security"))]
              [OpSubscribe; OpSetTopic (Some (lit "api")); OpUnsubscribe 1])))))
           eq_refl).
Defined.

Example bridge_run :
  let svc := run [OpSubscribe; OpSetTopic (Some (lit "api")); OpSubscribe;
                  OpSetTopic (Some (lit "security"))] newTopicsBridgeService in
  map received (subscribers svc)
  = [ [Some (lit "getting-started"); Some (lit "api"); Some (lit "security")];
      [Some (lit "api"); Some (lit "security")] ].
Proof. vm_compute. reflexivity. Qed.

(** ** The filtered view *)

(** *** Substrings *)

Lemma startsWith_spec (pat s : jsstring) :
  startsWith pat s = true <-> exists post, s = pat ++ post.
Proof.
  revert s. induction pat as [|p pat IH]; intros s.
  - split; [intros _; exists s; reflexivity|]. intros _. destruct s; reflexivity.
  - destruct s as [|c s]; cbn [startsWith].
    + split; [discriminate|]. intros [post E]. discriminate E.
    + rewrite andb_true_iff, N.eqb_eq, IH. split.
      * intros [-> [post ->]]. exists post. reflexivity.
      * intros [post E]. injection E as -> ->. split; [reflexivity|].
        exists post. reflexivity.
Qed.

(** [text.includes(x)] holds exactly when [x] occurs in [text]. *)
Lemma includes_occursIn (text x : jsstring) :
  includes text x = true <-> Text.occursIn x text.
Proof.
  unfold Text.occursIn. induction text as [|c text IH]; cbn [includes].
  - rewrite orb_false_r, startsWith_spec. split.
    + intros [post E]. exists [], post. exact E.
    + intros [pre [post E]]. destruct pre; [|discriminate E].
      exists post. exact E.
  - rewrite orb_true_iff, startsWith_spec, IH. split.
    + intros [[post E]|[pre [post E]]].
      * exists [], post. exact E.
      * exists (c :: pre), post. rewrite E. reflexivity.
    + intros [pre [post E]]. destruct pre as [|c' pre].
      * left. exists post. exact E.
      * right. injection E as _ E. exists pre, post. exact E.
Qed.

Lemma startsWithCI_same (k m post : jsstring) :
  Doc.sameWordCI k m -> startsWithCI k (m ++ post) = true.
Proof.
  intros H. induction H as [|p c k m Hpc _ IH].
  - destruct post; reflexivity.
  - cbn [app startsWithCI]. rewrite Hpc. exact IH.
Qed.

Lemma testCI_occurrence (k pre m post : jsstring) :
  Doc.sameWordCI k m -> testCI k (pre ++ m ++ post) = true.
Proof.
  intros H. induction pre as [|c pre IH].
  - cbn [app]. destruct (m ++ post) eqn:E; cbn [testCI];
      rewrite <- E, (@startsWithCI_same k m post H); reflexivity.
  - cbn [app testCI]. rewrite IH. apply orb_true_r.
Qed.

Lemma startsWithCI_inv (k s : jsstring) :
  startsWithCI k s = true ->
  exists m post, s = m ++ post /\ Doc.sameWordCI k m.
Proof.
  revert s. induction k as [|p k IH]; intros s H.
  - exists [], s. split; [reflexivity | constructor].
  - destruct s as [|c s]; [discriminate H|].
    cbn [startsWithCI] in H. apply andb_true_iff in H as [Hpc H].
    destruct (IH _ H) as [m [post [-> Hm]]].
    exists (c :: m), post. split; [reflexivity | constructor; assumption].
Qed.

(** [/k/i.test(s)] holds exactly when [k] occurs in [s] up to the case of
    its letters. *)
Lemma testCI_spec (k s : jsstring) :
  testCI k s = true
  <-> exists pre m post, s = pre ++ m ++ post /\ Doc.sameWordCI k m.
Proof.
  split.
  - induction s as [|c s IH]; cbn [testCI]; intros H.
    + rewrite orb_false_r in H.
      destruct (startsWithCI_inv _ _ H) as [m [post [E Hm]]].
      exists [], m, post. split; assumption.
    + apply orb_true_iff in H as [H|H].
      * destruct (startsWithCI_inv _ _ H) as [m [post [E Hm]]].
        exists [], m, post. split; assumption.
      * destruct (IH H) as [pre [m [post [-> Hm]]]].
        exists (c :: pre), m, post. split; [reflexivity | exact Hm].
  - intros [pre [m [post [-> Hm]]]]. apply testCI_occurrence. exact Hm.
Qed.

(** *** Letters of either case *)

Lemma asciiLower_eq_asciiUpper_eq (x y : N) :
  asciiLower x = asciiLower y <-> asciiUpper x = asciiUpper y.
Proof.
  unfold asciiLower, asciiUpper, inRange.
  repeat match goal with
         | |- context [?a <=? ?b] => destruct (N.leb_spec a b)
         end; cbn [andb]; lia.
Qed.

Lemma lowerAscii_sameUpToCase (a b : jsstring) :
  lowerAscii a = lowerAscii b <-> Text.sameUpToCase a b.
Proof.
  unfold lowerAscii, Text.sameUpToCase. revert b.
  induction a as [|x a IH]; intros [|y b]; cbn [map];
    try (split; [reflexivity|reflexivity]); try (split; discriminate).
  split; intros E; injection E as Exy E; f_equal;
    try (apply asciiLower_eq_asciiUpper_eq; exact Exy);
    try (apply IH; exact E).
Qed.

Lemma isAscii_app (a b : jsstring) :
  isAscii (a ++ b) = isAscii a && isAscii b.
Proof. apply forallb_app. Qed.

(** On texts of ASCII characters the match of the host is the match up to
    the case of the letters. *)
Lemma containsCI_ascii (h : Host) (text q : jsstring) :
  lowersAscii h -> isAscii text = true -> isAscii q = true ->
  DocView.containsCI h text q <-> DocView.containsAsciiCI text q.
Proof.
  intros Hh Ht Hq.
  unfold DocView.containsCI, DocView.containsAsciiCI, Text.occursIn.
  rewrite (Hh _ Ht), (Hh _ Hq). split.
  - intros [pre [post E]]. unfold lowerAscii in E.
    apply map_eq_app in E as [pre' [rest [-> [_ E]]]].
    apply map_eq_app in E as [m [post' [-> [E _]]]].
    exists pre', m, post'. split; [reflexivity|].
    apply lowerAscii_sameUpToCase. exact E.
  - intros [pre [m [post [-> E]]]].
    apply lowerAscii_sameUpToCase in E.
    exists (lowerAscii pre), (lowerAscii post).
    unfold lowerAscii in *. rewrite !map_app, E. reflexivity.
Qed.

(** *** The filtered transcript *)

(** The test of the filter of [computeFilteredHistory]. *)
Lemma history_filter_spec (h : Host) (c : ChatboxComponent) (q : jsstring)
  (m : ChatMessage) :
  (if match activeTopic c with Some t => truthy t | None => false end
      && (isSystem (role m)
          && testCI (lit "Context updated to topic") (content m))
   then true
   else includes (toLowerCase h (content m)) (toLowerCase h q)) = true
  <-> DocView.inFilteredTranscript h c q m.
Proof.
  unfold DocView.inFilteredTranscript, DocView.containsCI,
    DocView.topicActive, DocView.recordsTopicChange.
  rewrite <- includes_occursIn, <- testCI_spec.
  assert (Ha : match activeTopic c with Some t => truthy t | None => false end = true
               <-> exists t, activeTopic c = Some t /\ t <> []).
  { destruct (activeTopic c) as [t|].
    - destruct t as [|x t]; cbn [truthy].
      + split; [discriminate|]. intros [t [[= <-] Hne]]. congruence.
      + split; [|reflexivity]. intros _. exists (x :: t).
        split; [reflexivity|discriminate].
    - split; [discriminate|]. intros [t [E _]]. discriminate E. }
  assert (Hs : isSystem (role m) = true <-> role m = system)
    by (destruct (role m); cbn; split; congruence).
  destruct (match activeTopic c with Some t => truthy t | None => false end
            && (isSystem (role m)
                && testCI (lit "Context updated to topic") (content m))) eqn:E.
  - apply andb_true_iff in E as [E1 E2]. apply andb_true_iff in E2 as [E2 E3].
    split; [|reflexivity]. intros _. right.
    split; [apply Ha; exact E1|]. split; [apply Hs; exact E2 | exact E3].
  - split; [intros H; left; exact H|].
    intros [H|[H1 [H2 H3]]]; [exact H|].
    apply Ha in H1. apply Hs in H2. rewrite H1, H2, H3 in E. discriminate E.
Qed.

(** The filtered transcript is the selection the document describes. *)
Lemma computeFilteredHistory_doc (h : Host) (c : ChatboxComponent) (q : jsstring) :
  exists keep,
    computeFilteredHistory h c q = filter keep (messages c) /\
    forall m, keep m = true <-> DocView.inFilteredTranscript h c q m.
Proof.
  eexists. split; [reflexivity|].
  intros m. apply history_filter_spec.
Qed.

(** The notes the component pushes when the topic changes are system
    messages that the filter recognises. *)
Lemma contextNote_recordsTopicChange (t : jsstring) :
  isSystem (role (contextNote t))
  && testCI (lit "Context updated to topic") (content (contextNote t)) = true.
Proof. vm_compute. reflexivity. Qed.

(** *** The filtered FAQ list *)

Lemma default_not_inherited : inherited (lit "default") = false.
Proof. vm_compute. reflexivity. Qed.

(** [computeFilteredFaqs] throws exactly when the read of the active topic
    ends on [Object.prototype]; otherwise it filters the bucket of the
    topic, or the default one. *)
Lemma computeFilteredFaqs_cases (h : Host) (c : ChatboxComponent) (q : jsstring) :
  computeFilteredFaqs h c q
  = if topicHitsPrototype (activeTopic c) (faqCatalog c)
    then Abrupt faqsError
    else Normal
           (filter (fun f => includes (toLowerCase h (Faq.title f)) (toLowerCase h q)
                             || includes (toLowerCase h (Faq.content f)) (toLowerCase h q))
                   (DocView.faqBucket c)).
Proof.
  unfold computeFilteredFaqs. rewrite selected_key.
  destruct (topicHitsPrototype (activeTopic c) (faqCatalog c)); [reflexivity|].
  assert (Hd : orElse (getProp (lit "default") (faqCatalog c)) (Own [])
               = Own (DocView.fallbackFaqs c)).
  { unfold getProp, DocView.fallbackFaqs. rewrite default_not_inherited.
    destruct (lookup (lit "default") (faqCatalog c)); reflexivity. }
  unfold DocView.faqBucket.
  destruct (activeTopic c) as [t|]; [|rewrite Hd; reflexivity].
  destruct (truthy t); [|rewrite Hd; reflexivity].
  destruct (lookup t (faqCatalog c)); [reflexivity|].
  rewrite Hd. reflexivity.
Qed.

Lemma faqs_filter_spec (h : Host) (q : jsstring) (f : Faq) :
  includes (toLowerCase h (Faq.title f)) (toLowerCase h q)
  || includes (toLowerCase h (Faq.content f)) (toLowerCase h q) = true
  <-> DocView.inFilteredFaqs h q f.
Proof.
  unfold DocView.inFilteredFaqs, DocView.containsCI.
  rewrite orb_true_iff, !includes_occursIn. reflexivity.
Qed.

(** A topic whose read ends on [Object.prototype] has no bucket of its own:
    the bucket the document names is the default one. *)
Lemma faqBucket_when_inherited (c : ChatboxComponent) :
  topicHitsPrototype (activeTopic c) (faqCatalog c) = true ->
  DocView.faqBucket c = DocView.fallbackFaqs c.
Proof.
  unfold topicHitsPrototype, DocView.faqBucket.
  destruct (activeTopic c) as [t|]; [|discriminate].
  intros H. apply hitsPrototype_spec in H as [Hl _]. rewrite Hl.
  destruct (truthy t); reflexivity.
Qed.

(** ** The submit cycle *)

Lemma refreshFilters_eq (h : Host) (q : jsstring) (w : World) :
  refreshFilters h q w
  = if topicHitsPrototype (activeTopic (self w)) (faqCatalog (self w))
    then Threw faqsError w
    else Returned tt {| self := refreshed h q (self w); ragCalls := ragCalls w |}.
Proof.
  unfold refreshFilters, refreshed, filteredFaqsOf, bind at 1, eval.
  rewrite computeFilteredFaqs_cases.
  destruct (topicHitsPrototype (activeTopic (self w)) (faqCatalog (self w)));
    reflexivity.
Qed.

(** C8 (the code departs from it).  The refresh of the filtered view that
    [send] runs for a query [q] stores, as filtered transcript, exactly the
    messages of the transcript (in their order) whose content contains [q]
    whatever the case, together with, when a topic is active, the system
    messages that record a change of topic context; and, as filtered FAQ
    list, exactly the entries of the bucket of the active topic (the default
    bucket when no topic is active or the topic has no bucket) whose title or
    content contains [q] whatever the case; the transcript, the catalog and
    the active topic are left as they were.  It is so unless the active
    topic is the name of a property that the catalog inherits without owning
    it, such as [toString]: the topic has no bucket, yet instead of
    falling back to the default bucket the refresh throws. *)
Theorem filtered_view_is_read_only_selection :
  (let c := onTopic (Some (lit "toString")) initial in
   lookup (lit "toString") (faqCatalog c) = None /\
   DocView.faqBucket c = DocView.fallbackFaqs c /\
   refreshFilters browser (lit "help") (world c) = Threw faqsError (world c)) /\
  forall (h : Host) (q : jsstring) (c : ChatboxComponent)
         (calls : list (jsstring * option QueryOptions)),
    (exists keep,
       computeFilteredHistory h c q = filter keep (messages c) /\
       (forall m, keep m = true <-> DocView.inFilteredTranscript h c q m) /\
       (lowersAscii h -> isAscii q = true ->
        forall m, isAscii (content m) = true ->
          (keep m = true <->
           DocView.containsAsciiCI (content m) q
           \/ (DocView.topicActive c /\ DocView.recordsTopicChange m)))) /\
    (topicHitsPrototype (activeTopic c) (faqCatalog c) = false ->
     exists c' keep,
       refreshFilters h q {| self := c; ragCalls := calls |}
       = Returned tt {| self := c'; ragCalls := calls |} /\
       filterMatches c' = true /\
       filteredMessages c' = computeFilteredHistory h c q /\
       filteredFaqs c' = filter keep (DocView.faqBucket c) /\
       (forall f, keep f = true <-> DocView.inFilteredFaqs h q f) /\
       (lowersAscii h -> isAscii q = true ->
        forall f, isAscii (Faq.title f) = true -> isAscii (Faq.content f) = true ->
          (keep f = true <->
           DocView.containsAsciiCI (Faq.title f) q
           \/ DocView.containsAsciiCI (Faq.content f) q)) /\
       messages c' = messages c /\
       faqCatalog c' = faqCatalog c /\
       activeTopic c' = activeTopic c) /\
    (topicHitsPrototype (activeTopic c) (faqCatalog c) = true ->
     DocView.faqBucket c = DocView.fallbackFaqs c /\
     refreshFilters h q {| self := c; ragCalls := calls |}
     = Threw faqsError {| self := c; ragCalls := calls |}).
Proof.
  split.
  { split; [vm_compute; reflexivity|]. split; vm_compute; reflexivity. }
  intros h q c calls.
  split; [|split].
  - eexists. split; [reflexivity|]. split; [intros m; apply history_filter_spec|].
    intros Hh Hq m Hm. rewrite history_filter_spec.
    unfold DocView.inFilteredTranscript.
    rewrite (@containsCI_ascii h (content m) q Hh Hm Hq). reflexivity.
  - intros Hp. eexists. eexists.
    split; [rewrite refreshFilters_eq; cbn [self ragCalls]; rewrite Hp; reflexivity|].
    split; [reflexivity|]. split; [reflexivity|]. split.
    + unfold refreshed, filteredFaqsOf.
      cbn [filteredFaqs set_filterMatches set_filteredMessages set_filteredFaqs].
      rewrite computeFilteredFaqs_cases, Hp. reflexivity.
    + split; [intros f; apply faqs_filter_spec|].
      split; [|repeat split].
      intros Hh Hq f Ht Hc. rewrite faqs_filter_spec.
      unfold DocView.inFilteredFaqs.
      rewrite (@containsCI_ascii h (Faq.title f) q Hh Ht Hq),
        (@containsCI_ascii h (Faq.content f) q Hh Hc Hq).
      reflexivity.
  - intros Hp. split; [apply faqBucket_when_inherited; exact Hp|].
    rewrite refreshFilters_eq. cbn [self ragCalls]. rewrite Hp. reflexivity.
Qed.

Lemma rate_in_RATE :
  DocView.containsAsciiCI (lit "About RATE limits") (lit "rate").
Proof.
  exists (lit "About "), (lit "RATE"), (lit " limits"). split; reflexivity.
Qed.

Lemma browser_lowersAscii : lowersAscii browser.
Proof. intros s _. reflexivity. Qed.

Lemma filtered_view_is_read_only_selection_witness :
  let m := {| role := user; content := lit "About RATE limits"; error := None |} in
  let c := push m (onTopic (Some (lit "api")) initial) in
  (exists c',
     refreshFilters browser (lit "rate") (world c) = Returned tt (world c') /\
     filteredMessages c' = computeFilteredHistory browser c (lit "rate") /\
     messages c' = messages c) /\
  In m (computeFilteredHistory browser c (lit "rate")).
Proof.
  intros m c.
  destruct (proj2 filtered_view_is_read_only_selection browser (lit "rate") c [])
    as [[keep [Hk [_ Hascii]]] [Hok _]].
  split.
  - destruct (Hok eq_refl) as [c' [keep' [Hr [_ [Hm [_ [_ [_ [Hmsg _]]]]]]]]].
    exists c'. split; [exact Hr|]. split; [exact Hm | exact Hmsg].
  - rewrite Hk. apply filter_In. split.
    + apply in_or_app. right. left. reflexivity.
    + apply (Hascii browser_lowersAscii eq_refl m eq_refl).
      left. exact rate_in_RATE.
Defined.

Example filtered_view_example :
  let c := push {| role := user; content := lit "About RATE limits"; error := None |}
             (onTopic (Some (lit "api")) initial) in
  map content (computeFilteredHistory browser c (lit "rate"))
  = [lit "Context updated to topic: api"; lit "About RATE limits"]
  /\ option_map (map Faq.title)
       (match computeFilteredFaqs browser c (lit "rate") with
        | Normal l => Some l
        | Abrupt _ => None
        end)
     = Some [lit "API keys"; lit "Rate limits"].
Proof. vm_compute. split; reflexivity. Qed.

(** While [send] is suspended the handlers that run leave the catalog
    alone, and either reset the last query or leave the active topic
    alone. *)
Lemma interleaved_keeps (evs : list Event) (c : ChatboxComponent) :
  faqCatalog (interleaved evs c) = faqCatalog c /\
  sending (interleaved evs c) = sending c /\
  (lastQuery (interleaved evs c) = []
   \/ (lastQuery (interleaved evs c) = lastQuery c
       /\ activeTopic (interleaved evs c) = activeTopic c)).
Proof.
  unfold interleaved. revert c.
  induction evs as [|e evs IH]; intros c; cbn [fold_left].
  - repeat split. right. split; reflexivity.
  - destruct (IH (handle c e)) as [Hc [Hs Hq]].
    assert (He : faqCatalog (handle c e) = faqCatalog c
                 /\ sending (handle c e) = sending c
                 /\ (lastQuery (handle c e) = []
                     \/ (lastQuery (handle c e) = lastQuery c
                         /\ activeTopic (handle c e) = activeTopic c))).
    { destruct e as [v|t|]; cbn [handle].
      - repeat split. right. split; reflexivity.
      - unfold onTopic. destruct t as [t|]; [destruct (truthy t)|];
          repeat split; left; reflexivity.
      - repeat split. left. reflexivity. }
    destruct He as [Hc' [Hs' Hq']].
    rewrite Hc, Hs, Hc', Hs'. repeat split.
    destruct Hq as [Hq|[Hq Ha]]; [left; exact Hq|].
    destruct Hq' as [Hq'|[Hq' Ha']].
    + left. rewrite Hq. exact Hq'.
    + right. rewrite Hq, Ha. split; assumption.
Qed.

(** The refresh that follows the answer of the service throws in no
    interleaving, when the one before the call did not. *)
Lemma interleaved_quiet (evs : list Event) (c : ChatboxComponent) :
  topicHitsPrototype (activeTopic c) (faqCatalog c) = false ->
  truthy (lastQuery (interleaved evs c))
  && topicHitsPrototype (activeTopic (interleaved evs c))
                        (faqCatalog (interleaved evs c)) = false.
Proof.
  intros Hp. destruct (interleaved_keeps evs c) as [Hc [_ [Hq|[_ Ha]]]].
  - rewrite Hq. reflexivity.
  - rewrite Hc, Ha, Hp. apply andb_false_r.
Qed.

(** What [send] does, case by case. *)
Lemma send_cases (h : Host) (rag : RagService) (during : ChatboxComponent -> ChatboxComponent)
  (c : ChatboxComponent) (calls : list (jsstring * option QueryOptions)) :
  sending c = false ->
  send h rag during {| self := c; ragCalls := calls |}
  = match cleaned (filterInput (input c)) with
    | None | Some [] =>
        Returned tt {| self := set_filterFeedback (Some pleaseEnter) c;
                       ragCalls := calls |}
    | Some text =>
        let fb := feedback (filterInput (input c)) in
        if topicHitsPrototype (activeTopic c) (faqCatalog c)
        then Threw faqsError
               {| self := set_lastQuery text (set_filterFeedback fb c);
                  ragCalls := calls |}
        else
          let pre := submitted h text fb c in
          let opts := Some {| topic := activeTopic c |} in
          let calls' := calls ++ [(text, opts)] in
          match rag text opts with
          | Fulfilled m =>
              let r := during pre in
              if truthy (lastQuery r)
                 && topicHitsPrototype (activeTopic r) (faqCatalog r)
              then Threw faqsError
                     {| self := set_sending false (push errMsg (push m r));
                        ragCalls := calls' |}
              else Returned tt {| self := completed h m r; ragCalls := calls' |}
          | Rejected e =>
              let r := during pre in
              if truthy (lastQuery r)
                 && topicHitsPrototype (activeTopic r) (faqCatalog r)
              then Threw faqsError
                     {| self := set_sending false (push errMsg r);
                        ragCalls := calls' |}
              else Returned tt {| self := completed h errMsg r; ragCalls := calls' |}
          | Pending => Suspended {| self := pre; ragCalls := calls' |}
          end
    end.
Proof.
  intros Hidle. unfold send, bind at 1, gets at 1. cbn [self]. rewrite Hidle.
  unfold bind at 1, gets at 1. cbn [self].
  destruct (filterInput (input c)) as [[text|] fb]; cbn [cleaned feedback];
    [|reflexivity].
  destruct text as [|x text]; [reflexivity|].
  set (txt := x :: text). cbv zeta.
  unfold bind at 1, modify at 1. cbn [self ragCalls].
  unfold bind at 1, modify at 1. cbn [self ragCalls].
  unfold bind at 1. rewrite refreshFilters_eq. cbn [self ragCalls].
  cbn [activeTopic faqCatalog set_lastQuery set_filterFeedback].
  destruct (topicHitsPrototype (activeTopic c) (faqCatalog c)) eqn:Hp;
    [reflexivity|].
  unfold submitted, wasMasked, completed.
  destruct fb as [fb|]; [destruct (truthy fb && testCI (lit "masked") fb)|];
    unfold tryFinally, tryCatch, awaitAsk, when, bind, gets, modify, ret;
    cbn [self ragCalls];
    cbn [lastQuery activeTopic push set_messages set_input set_sending
         refreshed set_filterMatches set_filteredMessages set_filteredFaqs
         set_lastQuery set_filterFeedback];
    destruct (rag txt (Some {| topic := activeTopic c |})); try reflexivity;
    cbn [self ragCalls];
    match goal with
    | |- context [truthy (lastQuery (during ?x))] =>
        destruct (truthy (lastQuery (during x))) eqn:Hq
    end;
    cbn [andb]; try reflexivity;
    rewrite ?refreshFilters_eq; cbn [self ragCalls];
    cbn [lastQuery activeTopic faqCatalog push set_messages];
    match goal with
    | |- context [topicHitsPrototype (activeTopic (during ?x)) (faqCatalog (during ?x))] =>
        destruct (topicHitsPrototype (activeTopic (during x)) (faqCatalog (during x)))
          eqn:Hr
    end;
    cbn [self ragCalls lastQuery push set_messages];
    rewrite ?Hq; rewrite ?refreshFilters_eq; cbn [self ragCalls];
    cbn [lastQuery activeTopic faqCatalog push set_messages];
    rewrite ?Hr; reflexivity.
Qed.

(** A submit with no other handler in between, or with handlers of the
    component in between, that has passed the first refresh. *)
Lemma send_cases_interleaved (h : Host) (rag : RagService) (evs : list Event)
  (c : ChatboxComponent) (calls : list (jsstring * option QueryOptions))
  (text : jsstring) :
  sending c = false ->
  cleaned (filterInput (input c)) = Some text -> text <> [] ->
  topicHitsPrototype (activeTopic c) (faqCatalog c) = false ->
  let pre := submitted h text (feedback (filterInput (input c))) c in
  let opts := Some {| topic := activeTopic c |} in
  let calls' := calls ++ [(text, opts)] in
  send h rag (interleaved evs) {| self := c; ragCalls := calls |}
  = match rag text opts with
    | Fulfilled m =>
        Returned tt {| self := completed h m (interleaved evs pre);
                       ragCalls := calls' |}
    | Rejected e =>
        Returned tt {| self := completed h errMsg (interleaved evs pre);
                       ragCalls := calls' |}
    | Pending => Suspended {| self := pre; ragCalls := calls' |}
    end.
Proof.
  intros Hidle Hc Hne Hp pre opts calls'.
  rewrite (send_cases h rag (interleaved evs) c calls Hidle), Hc.
  destruct text as [|x text]; [congruence|]. cbv zeta. rewrite Hp.
  fold pre. fold opts. fold calls'.
  assert (Hquiet : truthy (lastQuery (interleaved evs pre))
                   && topicHitsPrototype (activeTopic (interleaved evs pre))
                        (faqCatalog (interleaved evs pre)) = false).
  { apply interleaved_quiet. subst pre. unfold submitted.
    destruct (wasMasked _); exact Hp. }
  rewrite Hquiet. reflexivity.
Qed.

(** An accepted input where the filtered view cannot be refreshed: [send]
    throws before it sets [sending]. *)
Lemma send_throws (h : Host) (rag : RagService)
  (during : ChatboxComponent -> ChatboxComponent)
  (c : ChatboxComponent) (calls : list (jsstring * option QueryOptions))
  (text : jsstring) :
  sending c = false ->
  cleaned (filterInput (input c)) = Some text -> text <> [] ->
  topicHitsPrototype (activeTopic c) (faqCatalog c) = true ->
  send h rag during {| self := c; ragCalls := calls |}
  = Threw faqsError
      {| self := set_lastQuery text
                   (set_filterFeedback (feedback (filterInput (input c))) c);
         ragCalls := calls |}.
Proof.
  intros Hidle Hc Hne Hp.
  rewrite (send_cases h rag during c calls Hidle), Hc.
  destruct text as [|x text]; [congruence|]. cbv zeta. rewrite Hp. reflexivity.
Qed.

(** An accepted input where it can: the service is called once, however
    [send] ends. *)
Lemma send_calls_service (h : Host) (rag : RagService)
  (during : ChatboxComponent -> ChatboxComponent)
  (c : ChatboxComponent) (calls : list (jsstring * option QueryOptions))
  (text : jsstring) :
  sending c = false ->
  cleaned (filterInput (input c)) = Some text -> text <> [] ->
  topicHitsPrototype (activeTopic c) (faqCatalog c) = false ->
  ragCalls (finalWorld (send h rag during {| self := c; ragCalls := calls |}))
  = calls ++ [(text, Some {| topic := activeTopic c |})].
Proof.
  intros Hidle Hc Hne Hp.
  rewrite (send_cases h rag during c calls Hidle), Hc.
  destruct text as [|x text]; [congruence|]. cbv zeta. rewrite Hp.
  destruct (rag _ _); try reflexivity;
    match goal with
    | |- context [if ?b then _ else _] => destruct b
    end; reflexivity.
Qed.

(** ** Whole-word matching and whitespace *)

Lemma inRange_spec (lo hi c : N) :
  inRange lo hi c = true <-> (lo <= c /\ c <= hi).
Proof. unfold inRange. rewrite andb_true_iff, !N.leb_le. reflexivity. Qed.

Lemma inRange_out (lo hi c : N) :
  c < lo \/ hi < c -> inRange lo hi c = false.
Proof.
  intros H. destruct (inRange lo hi c) eqn:E; [|reflexivity].
  apply inRange_spec in E. lia.
Qed.

Lemma eqb_out (c n : N) : c <> n -> (c =? n) = false.
Proof. apply N.eqb_neq. Qed.

Lemma ascii_printable_not_space (c : N) :
  48 <= c <= 122 -> isSpace c = false.
Proof.
  intros H. unfold isSpace.
  rewrite !inRange_out by lia. rewrite !eqb_out by lia. reflexivity.
Qed.

Lemma isWordChar_range (c : N) : isWordChar c = true -> 48 <= c <= 122.
Proof.
  unfold isWordChar. rewrite !orb_true_iff, !inRange_spec, N.eqb_eq. lia.
Qed.

Lemma space_not_word (c : N) : isSpace c = true -> isWordChar c = false.
Proof.
  intros Hs. destruct (isWordChar c) eqn:Hw; [|reflexivity].
  apply isWordChar_range, ascii_printable_not_space in Hw. congruence.
Qed.

(** What a lowercase letter of a pattern matches is a letter. *)
Lemma eqCI_letter (p c : N) :
  inRange 97 122 p = true -> eqCI p c = true ->
  isWordChar c = true /\ isSpace c = false.
Proof.
  intros Hp He. apply inRange_spec in Hp.
  unfold eqCI, asciiUpper in He. apply N.eqb_eq in He.
  assert (Hc : (65 <= c /\ c <= 90) \/ (97 <= c /\ c <= 122)).
  { assert (Ep : inRange 97 122 p = true) by (apply inRange_spec; exact Hp).
    rewrite Ep in He.
    destruct (inRange 97 122 c) eqn:Ec.
    - apply inRange_spec in Ec. right. exact Ec.
    - left. lia. }
  split; [|apply ascii_printable_not_space; lia].
  unfold isWordChar. destruct Hc as [Hc|Hc].
  - assert (E : inRange 65 90 c = true) by (apply inRange_spec; exact Hc).
    rewrite E. rewrite orb_true_r. reflexivity.
  - assert (E : inRange 97 122 c = true) by (apply inRange_spec; exact Hc).
    rewrite E. rewrite !orb_true_r. reflexivity.
Qed.

Lemma matchLitCI_prev (w : jsstring) (prev prev' : option N) (s : jsstring) :
  truthy w = true -> matchLitCI w prev s = matchLitCI w prev' s.
Proof. destruct w; [discriminate|]. intros _. destruct s; reflexivity. Qed.

Lemma letterWord_inv (w : jsstring) :
  letterWord w = true -> truthy w = true /\ forallb (inRange 97 122) w = true.
Proof. unfold letterWord. apply andb_true_iff. Qed.

Lemma matchAlts_prev (alts : list jsstring) (prev prev' : option N) (s : jsstring) :
  forallb letterWord alts = true ->
  matchAlts alts prev s = matchAlts alts prev' s.
Proof.
  induction alts as [|w alts IH]; cbn [forallb matchAlts]; [reflexivity|].
  intros H. apply andb_true_iff in H as [Hw Ha].
  apply letterWord_inv in Hw as [Hne _].
  rewrite (matchLitCI_prev w prev prev' s Hne), (IH Ha). reflexivity.
Qed.

Lemma matchWordsAt_prev (alts : list jsstring) (prev prev' : option N) (s : jsstring) :
  forallb letterWord alts = true -> isWordAt prev = isWordAt prev' ->
  matchWordsAt alts prev s = matchWordsAt alts prev' s.
Proof.
  intros Ha Hp. unfold matchWordsAt, wordBoundary.
  rewrite Hp, (matchAlts_prev alts prev prev' s Ha). reflexivity.
Qed.

Lemma testWordsFrom_prev (alts : list jsstring) (prev prev' : option N) (s : jsstring) :
  forallb letterWord alts = true -> isWordAt prev = isWordAt prev' ->
  testWordsFrom alts prev s = testWordsFrom alts prev' s.
Proof.
  intros Ha Hp.
  destruct s; cbn [testWordsFrom];
    rewrite (matchWordsAt_prev alts prev prev' _ Ha Hp); reflexivity.
Qed.

(** No word starts at a character that is not a word character, nor at the
    end of the input. *)
Lemma matchLitCI_stop (w : jsstring) (prev : option N) (s : jsstring) :
  letterWord w = true -> isWordAt (hd_error s) = false ->
  matchLitCI w prev s = None.
Proof.
  intros Hw Hs. apply letterWord_inv in Hw as [Hne Hl].
  destruct w as [|p w]; [discriminate|].
  destruct s as [|c s]; [reflexivity|].
  cbn [forallb] in Hl. apply andb_true_iff in Hl as [Hp _].
  cbn [matchLitCI]. destruct (eqCI p c) eqn:E; [|reflexivity].
  apply (eqCI_letter _ _ Hp) in E as [E _]. simpl in Hs. congruence.
Qed.

Lemma matchAlts_stop (alts : list jsstring) (prev : option N) (s : jsstring) :
  forallb letterWord alts = true -> isWordAt (hd_error s) = false ->
  matchAlts alts prev s = None.
Proof.
  intros Ha Hs. induction alts as [|w alts IH]; cbn [matchAlts]; [reflexivity|].
  cbn [forallb] in Ha. apply andb_true_iff in Ha as [Hw Ha].
  rewrite (matchLitCI_stop w prev s Hw Hs). exact (IH Ha).
Qed.

Lemma matchWordsAt_stop (alts : list jsstring) (prev : option N) (s : jsstring) :
  forallb letterWord alts = true -> isWordAt (hd_error s) = false ->
  matchWordsAt alts prev s = None.
Proof.
  intros Ha Hs. unfold matchWordsAt.
  rewrite (matchAlts_stop alts prev s Ha Hs). destruct (wordBoundary _ _); reflexivity.
Qed.

Lemma testWordsFrom_skip (alts : list jsstring) (prev : option N) (c : N) (s : jsstring) :
  forallb letterWord alts = true -> isWordChar c = false ->
  testWordsFrom alts prev (c :: s) = testWordsFrom alts (Some c) s.
Proof.
  intros Ha Hc. cbn [testWordsFrom].
  rewrite (matchWordsAt_stop alts prev (c :: s) Ha Hc). reflexivity.
Qed.

Lemma testWordsFrom_blank (alts : list jsstring) (prev : option N) (s : jsstring) :
  forallb letterWord alts = true -> forallb isSpace s = true ->
  testWordsFrom alts prev s = false.
Proof.
  intros Ha. revert prev. induction s as [|c s IH]; intros prev Hs.
  - cbn [testWordsFrom]. rewrite (matchWordsAt_stop alts prev [] Ha eq_refl).
    reflexivity.
  - cbn [forallb] in Hs. apply andb_true_iff in Hs as [Hc Hs].
    rewrite (testWordsFrom_skip alts prev c s Ha (space_not_word _ Hc)). auto.
Qed.

(** *** Collapsing runs of whitespace *)

Lemma hd_collapseFrom (r : jsstring) :
  isWordAt (hd_error (collapseFrom false r)) = isWordAt (hd_error r).
Proof.
  destruct r as [|c r]; [reflexivity|]. cbn [collapseFrom].
  destruct (isSpace c) eqn:Hc; [|reflexivity].
  simpl. rewrite (space_not_word _ Hc). reflexivity.
Qed.

Lemma matchLitCI_collapse (w : jsstring) (prev : option N) (s : jsstring) :
  forallb (inRange 97 122) w = true ->
  matchLitCI w prev (collapseFrom false s)
  = option_map (fun lr => (fst lr, collapseFrom false (snd lr)))
               (matchLitCI w prev s).
Proof.
  revert prev s. induction w as [|p w IH]; intros prev s Hw; [reflexivity|].
  cbn [forallb] in Hw. apply andb_true_iff in Hw as [Hp Hw].
  destruct s as [|c s]; [reflexivity|]. cbn [collapseFrom].
  destruct (isSpace c) eqn:Hc; cbn [matchLitCI].
  - destruct (eqCI p 32) eqn:E32.
    { apply (eqCI_letter _ _ Hp) in E32 as [_ E32]. discriminate E32. }
    destruct (eqCI p c) eqn:Ec; [|reflexivity].
    apply (eqCI_letter _ _ Hp) in Ec as [_ Ec]. congruence.
  - destruct (eqCI p c); [apply IH; exact Hw | reflexivity].
Qed.

Lemma matchAlts_collapse (alts : list jsstring) (prev : option N) (s : jsstring) :
  forallb letterWord alts = true ->
  matchAlts alts prev (collapseFrom false s) = matchAlts alts prev s.
Proof.
  induction alts as [|w alts IH]; cbn [forallb matchAlts]; [reflexivity|].
  intros H. apply andb_true_iff in H as [Hw Ha].
  apply letterWord_inv in Hw as [_ Hl].
  rewrite (matchLitCI_collapse w prev s Hl), (IH Ha).
  destruct (matchLitCI w prev s) as [[last rest]|]; cbn [option_map fst snd];
    [|reflexivity].
  unfold wordBoundary. rewrite hd_collapseFrom. reflexivity.
Qed.

Lemma testWordsFrom_collapse (alts : list jsstring) :
  forallb letterWord alts = true ->
  forall (s : jsstring) (inRun : bool) (prev prev' : option N),
    isWordAt prev = isWordAt prev' ->
    (inRun = true -> isWordAt prev = false) ->
    testWordsFrom alts prev (collapseFrom inRun s) = testWordsFrom alts prev' s.
Proof.
  intros Ha. induction s as [|c s IH]; intros inRun prev prev' Hp Hrun.
  - cbn [collapseFrom]. apply testWordsFrom_prev; assumption.
  - cbn [collapseFrom]. destruct (isSpace c) eqn:Hc.
    + rewrite (testWordsFrom_skip alts prev' c s Ha (space_not_word _ Hc)).
      destruct inRun.
      * apply IH; [|intros _; auto].
        rewrite (Hrun eq_refl). simpl. rewrite (space_not_word _ Hc). reflexivity.
      * rewrite (testWordsFrom_skip alts prev 32 _ Ha eq_refl).
        apply IH; [|intros _; reflexivity].
        simpl. rewrite (space_not_word _ Hc). reflexivity.
    + cbn [testWordsFrom].
      assert (E : matchWordsAt alts prev (c :: collapseFrom false s)
                  = matchWordsAt alts prev' (c :: s)).
      { unfold matchWordsAt, wordBoundary. cbn [hd_error]. rewrite Hp.
        replace (c :: collapseFrom false s) with (collapseFrom false (c :: s))
          by (cbn [collapseFrom]; rewrite Hc; reflexivity).
        rewrite (matchAlts_collapse alts prev (c :: s) Ha).
        rewrite (matchAlts_prev alts prev prev' (c :: s) Ha). reflexivity. }
      rewrite E. destruct (matchWordsAt alts prev' (c :: s)); [reflexivity|].
      apply IH; [reflexivity | discriminate].
Qed.

(** *** Trimming *)

Lemma testWordsFrom_trimStart (alts : list jsstring) (prev : option N) (s : jsstring) :
  forallb letterWord alts = true -> isWordAt prev = false ->
  testWordsFrom alts prev (trimStart s) = testWordsFrom alts prev s.
Proof.
  intros Ha Hp. induction s as [|c s IH]; cbn [trimStart]; [reflexivity|].
  destruct (isSpace c) eqn:Hc; [|reflexivity].
  rewrite (testWordsFrom_skip alts prev c s Ha (space_not_word _ Hc)), IH.
  apply testWordsFrom_prev; [exact Ha|].
  simpl. rewrite (space_not_word _ Hc). exact Hp.
Qed.

Lemma trimEnd_cons (c : N) (s : jsstring) :
  trimEnd (c :: s) = c :: trimEnd s \/
  (isSpace c = true /\ trimEnd (c :: s) = [] /\ trimEnd s = []).
Proof. cbn [trimEnd]. destruct (trimEnd s), (isSpace c); auto. Qed.

Lemma trimEnd_nil_blank (s : jsstring) :
  trimEnd s = [] -> forallb isSpace s = true.
Proof.
  induction s as [|c s IH]; [reflexivity|].
  destruct (trimEnd_cons c s) as [E|[Hc [_ Hs]]].
  - rewrite E. discriminate.
  - intros _. cbn [forallb]. rewrite Hc, (IH Hs). reflexivity.
Qed.

Lemma hd_trimEnd (r : jsstring) :
  isWordAt (hd_error (trimEnd r)) = isWordAt (hd_error r).
Proof.
  destruct r as [|c r]; [reflexivity|].
  destruct (trimEnd_cons c r) as [E|[Hc [E _]]]; rewrite E; [reflexivity|].
  simpl. rewrite (space_not_word _ Hc). reflexivity.
Qed.

Lemma matchLitCI_trimEnd (w : jsstring) (prev : option N) (s : jsstring) :
  forallb (inRange 97 122) w = true ->
  matchLitCI w prev (trimEnd s)
  = option_map (fun lr => (fst lr, trimEnd (snd lr))) (matchLitCI w prev s).
Proof.
  revert prev s. induction w as [|p w IH]; intros prev s Hw; [reflexivity|].
  cbn [forallb] in Hw. apply andb_true_iff in Hw as [Hp Hw].
  destruct s as [|c s]; [reflexivity|].
  destruct (trimEnd_cons c s) as [E|[Hc [E _]]]; rewrite E; cbn [matchLitCI].
  - destruct (eqCI p c); [apply IH; exact Hw | reflexivity].
  - destruct (eqCI p c) eqn:Ec; [|reflexivity].
    apply (eqCI_letter _ _ Hp) in Ec as [_ Ec]. congruence.
Qed.

Lemma matchAlts_trimEnd (alts : list jsstring) (prev : option N) (s : jsstring) :
  forallb letterWord alts = true ->
  matchAlts alts prev (trimEnd s) = matchAlts alts prev s.
Proof.
  induction alts as [|w alts IH]; cbn [forallb matchAlts]; [reflexivity|].
  intros H. apply andb_true_iff in H as [Hw Ha].
  apply letterWord_inv in Hw as [_ Hl].
  rewrite (matchLitCI_trimEnd w prev s Hl), (IH Ha).
  destruct (matchLitCI w prev s) as [[last rest]|]; cbn [option_map fst snd];
    [|reflexivity].
  unfold wordBoundary. rewrite hd_trimEnd. reflexivity.
Qed.

Lemma testWordsFrom_trimEnd (alts : list jsstring) (prev : option N) (s : jsstring) :
  forallb letterWord alts = true ->
  testWordsFrom alts prev (trimEnd s) = testWordsFrom alts prev s.
Proof.
  intros Ha. revert prev. induction s as [|c s IH]; intros prev; [reflexivity|].
  destruct (trimEnd_cons c s) as [E|[Hc [E Hs]]].
  - rewrite E. cbn [testWordsFrom].
    assert (M : matchWordsAt alts prev (c :: trimEnd s)
                = matchWordsAt alts prev (c :: s)).
    { unfold matchWordsAt. cbn [hd_error].
      rewrite <- E, (matchAlts_trimEnd alts prev (c :: s) Ha). reflexivity. }
    rewrite M, IH. reflexivity.
  - rewrite E. rewrite (testWordsFrom_blank alts prev [] Ha eq_refl).
    symmetry. apply testWordsFrom_blank; [exact Ha|].
    cbn [forallb]. rewrite Hc, (trimEnd_nil_blank _ Hs). reflexivity.
Qed.

(** Normalising the whitespace of an input neither adds nor removes a whole
    word. *)
Lemma testWords_normalize (alts : list jsstring) (raw : jsstring) :
  forallb letterWord alts = true ->
  testWords alts (trim (collapseSpaces raw)) = testWords alts raw.
Proof.
  intros Ha. unfold testWords, trim, collapseSpaces.
  rewrite (testWordsFrom_trimEnd alts None _ Ha).
  rewrite (testWordsFrom_trimStart alts None _ Ha eq_refl).
  apply testWordsFrom_collapse; [exact Ha | reflexivity | discriminate].
Qed.

Lemma banned_letterWords : forallb letterWord banned = true.
Proof. vm_compute. reflexivity. Qed.

(** *** Whole words, declaratively *)

Lemma matchLitCI_inv (w : jsstring) (prev : option N) (s : jsstring)
  (l : option N) (r : jsstring) :
  matchLitCI w prev s = Some (l, r) ->
  exists m, s = m ++ r /\ Doc.sameWordCI w m /\ l = Doc.lastOr prev m
            /\ r = skipn (List.length w) s.
Proof.
  revert prev s. induction w as [|p w IH]; intros prev s; cbn [matchLitCI].
  - intros [= <- <-]. exists []. repeat split. constructor.
  - destruct s as [|c s]; [discriminate|].
    destruct (eqCI p c) eqn:E; [|discriminate].
    intros H. destruct (IH _ _ H) as [m [-> [Hm [-> Hr]]]].
    exists (c :: m). repeat split.
    + constructor; assumption.
    + exact Hr.
Qed.

Lemma matchLitCI_same (w m : jsstring) (prev : option N) (post : jsstring) :
  Doc.sameWordCI w m ->
  matchLitCI w prev (m ++ post) = Some (Doc.lastOr prev m, post).
Proof.
  intros H. revert prev. induction H as [|p c w m Hpc _ IH]; intros prev.
  - reflexivity.
  - cbn [matchLitCI app Doc.lastOr]. rewrite Hpc. apply IH.
Qed.

(** A match of a word of letters begins and ends with a word character. *)
Lemma sameWord_letters (w m : jsstring) (prev : option N) (post : jsstring) :
  letterWord w = true -> Doc.sameWordCI w m ->
  isWordAt (hd_error (m ++ post)) = true /\ isWordAt (Doc.lastOr prev m) = true.
Proof.
  intros Hw H. apply letterWord_inv in Hw as [Hne Hl].
  destruct H as [|p c w m Hpc H]; [discriminate|]. clear Hne.
  cbn [forallb] in Hl. apply andb_true_iff in Hl as [Hp Hl].
  split.
  - simpl. exact (proj1 (eqCI_letter _ _ Hp Hpc)).
  - cbn [Doc.lastOr].
    assert (Hc : isWordAt (Some c) = true) by exact (proj1 (eqCI_letter _ _ Hp Hpc)).
    clear Hp Hpc. revert c Hc Hl.
    induction H as [|p' c' w m Hpc' _ IH]; intros c Hc Hl; [exact Hc|].
    cbn [forallb] in Hl. apply andb_true_iff in Hl as [Hp' Hl].
    cbn [Doc.lastOr]. apply IH; [|exact Hl].
    exact (proj1 (eqCI_letter _ _ Hp' Hpc')).
Qed.

Lemma matchAlts_Some_inv (alts : list jsstring) (prev : option N)
  (s : jsstring) (n : nat) :
  matchAlts alts prev s = Some n ->
  exists w l r, In w alts /\ n = List.length w /\
                matchLitCI w prev s = Some (l, r) /\
                wordBoundary l (hd_error r) = true.
Proof.
  induction alts as [|w alts IH]; cbn [matchAlts]; [discriminate|].
  destruct (matchLitCI w prev s) as [[l r]|] eqn:E.
  - destruct (wordBoundary l (hd_error r)) eqn:B.
    + intros [= <-]. exists w, l, r. repeat split; auto. left. reflexivity.
    + intros H. destruct (IH H) as [w' [l' [r' [Hin Hrest]]]].
      exists w', l', r'. split; [right; exact Hin | exact Hrest].
  - intros H. destruct (IH H) as [w' [l' [r' [Hin Hrest]]]].
    exists w', l', r'. split; [right; exact Hin | exact Hrest].
Qed.

Lemma matchAlts_None_inv (alts : list jsstring) (prev : option N)
  (s : jsstring) (w : jsstring) (l : option N) (r : jsstring) :
  matchAlts alts prev s = None -> In w alts ->
  matchLitCI w prev s = Some (l, r) ->
  wordBoundary l (hd_error r) = false.
Proof.
  induction alts as [|w' alts IH]; cbn [matchAlts]; [intros _ []|].
  intros H [->|Hin] Hm.
  - rewrite Hm in H. destruct (wordBoundary l (hd_error r)); [discriminate|reflexivity].
  - apply IH; try assumption.
    destruct (matchLitCI w' prev s) as [[l' r']|]; [|exact H].
    destruct (wordBoundary l' (hd_error r')); [discriminate|exact H].
Qed.

Lemma matchAlts_complete (alts : list jsstring) (prev : option N)
  (s : jsstring) (w : jsstring) (l : option N) (r : jsstring) :
  In w alts -> matchLitCI w prev s = Some (l, r) ->
  wordBoundary l (hd_error r) = true ->
  matchAlts alts prev s <> None.
Proof.
  intros Hin Hm Hb Hnone.
  rewrite (matchAlts_None_inv alts prev s w Hnone Hin Hm) in Hb. discriminate.
Qed.

Lemma forallb_letterWord_In (alts : list jsstring) (w : jsstring) :
  forallb letterWord alts = true -> In w alts -> letterWord w = true.
Proof. intros H Hin. rewrite forallb_forall in H. exact (H _ Hin). Qed.

Lemma testWordsFrom_complete (alts : list jsstring) (m post w : jsstring) :
  forallb letterWord alts = true ->
  In w alts -> Doc.sameWordCI w m -> isWordAt (hd_error post) = false ->
  forall (pre : jsstring) (prev : option N),
    isWordAt (Doc.lastOr prev pre) = false ->
    testWordsFrom alts prev (pre ++ m ++ post) = true.
Proof.
  intros Ha Hin Hm Hpost.
  pose proof (forallb_letterWord_In alts w Ha Hin) as Hw.
  induction pre as [|c pre IH]; intros prev Hprev.
  - cbn [app Doc.lastOr] in *.
    destruct (sameWord_letters prev post Hw Hm) as [Hhd Hlast].
    assert (M : matchWordsAt alts prev (m ++ post) <> None).
    { unfold matchWordsAt, wordBoundary. rewrite Hprev, Hhd. cbn [xorb].
      apply (matchAlts_complete alts prev (m ++ post) w Hin (matchLitCI_same prev post Hm)).
      unfold wordBoundary. rewrite Hlast, Hpost. reflexivity. }
    destruct (m ++ post); cbn [testWordsFrom];
      destruct (matchWordsAt alts prev _); congruence.
  - cbn [app testWordsFrom].
    destruct (matchWordsAt alts prev _); [reflexivity|].
    apply IH. exact Hprev.
Qed.

Lemma testWordsFrom_sound (alts : list jsstring) :
  forallb letterWord alts = true ->
  forall (s : jsstring) (prev : option N),
    testWordsFrom alts prev s = true ->
    exists pre m post w,
      s = pre ++ m ++ post /\ In w alts /\ Doc.sameWordCI w m /\
      isWordAt (Doc.lastOr prev pre) = false /\
      isWordAt (hd_error post) = false.
Proof.
  intros Ha.
  assert (Here : forall s prev n, matchWordsAt alts prev s = Some n ->
            exists m post w,
              s = m ++ post /\ In w alts /\ Doc.sameWordCI w m /\
              isWordAt prev = false /\ isWordAt (hd_error post) = false).
  { intros s prev n H. unfold matchWordsAt in H.
    destruct (wordBoundary prev (hd_error s)) eqn:B; [|discriminate].
    apply matchAlts_Some_inv in H as [w [l [r [Hin [_ [Hm Hb]]]]]].
    destruct (matchLitCI_inv _ _ _ Hm) as [m [-> [Hsame [-> _]]]].
    pose proof (forallb_letterWord_In alts w Ha Hin) as Hw.
    destruct (sameWord_letters prev r Hw Hsame) as [Hhd Hlast].
    exists m, r, w. repeat split; auto.
    - unfold wordBoundary in B. rewrite Hhd in B.
      destruct (isWordAt prev); [discriminate|reflexivity].
    - unfold wordBoundary in Hb. rewrite Hlast in Hb.
      destruct (isWordAt (hd_error r)); [discriminate|reflexivity]. }
  induction s as [|c s IH]; intros prev H; cbn [testWordsFrom] in H.
  - destruct (matchWordsAt alts prev []) eqn:M; [|discriminate].
    destruct (Here _ _ _ M) as [m [post [w [E Hrest]]]].
    exists [], m, post, w. split; [exact E | exact Hrest].
  - destruct (matchWordsAt alts prev (c :: s)) eqn:M.
    + destruct (Here _ _ _ M) as [m [post [w [E Hrest]]]].
      exists [], m, post, w. split; [exact E | exact Hrest].
    + destruct (IH _ H) as [pre [m [post [w [-> Hrest]]]]].
      exists (c :: pre), m, post, w. split; [reflexivity | exact Hrest].
Qed.

(** The regular expression [\b(w1|...)\b] with the flag [i] finds a match
    exactly in the inputs that contain one of the words as a whole word. *)
Lemma testWords_hasWholeWord (alts : list jsstring) (s : jsstring) :
  forallb letterWord alts = true ->
  testWords alts s = true <-> Doc.hasWholeWord alts s.
Proof.
  intros Ha. unfold testWords, Doc.hasWholeWord. split.
  - apply testWordsFrom_sound. exact Ha.
  - intros [pre [m [post [w [-> [Hin [Hm [Hpre Hpost]]]]]]]].
    apply (@testWordsFrom_complete alts m post w Ha Hin Hm Hpost). exact Hpre.
Qed.

(** *** Replacing whole words by a mask *)

Lemma startsWith_app (a b : jsstring) : startsWith a (a ++ b) = true.
Proof.
  induction a as [|x a IH]; cbn [app startsWith].
  - destruct b; reflexivity.
  - rewrite N.eqb_refl. exact IH.
Qed.

Lemma includes_app_l (a b : jsstring) : includes (a ++ b) a = true.
Proof.
  destruct (a ++ b) eqn:E; cbn [includes]; rewrite <- E, startsWith_app;
    reflexivity.
Qed.

Lemma includes_cons (c : N) (s pat : jsstring) :
  includes s pat = true -> includes (c :: s) pat = true.
Proof. intros H. cbn [includes]. rewrite H. apply orb_true_r. Qed.

Lemma replaceWordsFrom_has_mask (alts : list jsstring) (mask : jsstring) :
  forallb letterWord alts = true ->
  forall (s : jsstring) (prev : option N),
    testWordsFrom alts prev s = true ->
    includes (replaceWordsFrom alts mask 0 prev s) mask = true.
Proof.
  intros Ha. induction s as [|c s IH]; intros prev H.
  - rewrite (testWordsFrom_blank alts prev [] Ha eq_refl) in H. discriminate.
  - cbn [testWordsFrom] in H. cbn [replaceWordsFrom].
    destruct (matchWordsAt alts prev (c :: s)).
    + apply includes_app_l.
    + apply includes_cons, IH, H.
Qed.

Lemma matchWordsAt_Some_inv (alts : list jsstring) (prev : option N)
  (s : jsstring) (n : nat) :
  forallb letterWord alts = true ->
  matchWordsAt alts prev s = Some n ->
  exists k, n = S k /\ isWordAt (hd_error (skipn n s)) = false.
Proof.
  intros Ha H. unfold matchWordsAt in H.
  destruct (wordBoundary prev (hd_error s)); [|discriminate].
  apply matchAlts_Some_inv in H as [w [l [r [Hin [-> [Hm Hb]]]]]].
  pose proof (forallb_letterWord_In alts w Ha Hin) as Hw.
  destruct (matchLitCI_inv _ _ _ Hm) as [m [_ [Hsame [-> <-]]]].
  destruct (sameWord_letters prev r Hw Hsame) as [_ Hlast].
  apply letterWord_inv in Hw as [Hne _].
  destruct w as [|p w]; [discriminate|].
  exists (List.length w). split; [reflexivity|].
  unfold wordBoundary in Hb. rewrite Hlast in Hb.
  destruct (isWordAt (hd_error r)); [discriminate|reflexivity].
Qed.







Lemma replaceWords_has_mask (alts : list jsstring) (mask s : jsstring) :
  forallb letterWord alts = true ->
  testWords alts s = true ->
  includes (replaceWords alts mask s) mask = true.
Proof.
  intros Ha H. unfold replaceWords.
  apply replaceWordsFrom_has_mask; assumption.
Qed.

(** ** Masking and angle brackets *)

Lemma angle_not_space (c : N) : isAngle c = true -> isSpace c = false.
Proof.
  unfold isAngle. rewrite orb_true_iff, !N.eqb_eq.
  intros H. apply ascii_printable_not_space. lia.
Qed.

Lemma space_not_angle (c : N) : isSpace c = true -> isAngle c = false.
Proof.
  intros Hs. destruct (isAngle c) eqn:Ha; [|reflexivity].
  apply angle_not_space in Ha. congruence.
Qed.

Lemma word_not_angle (c : N) : isWordChar c = true -> isAngle c = false.
Proof.
  unfold isWordChar, isAngle.
  rewrite !orb_true_iff, !inRange_spec, N.eqb_eq. intros H.
  rewrite !eqb_out by lia. reflexivity.
Qed.

Lemma collapseFrom_angles (s : jsstring) (inRun : bool) :
  filter isAngle (collapseFrom inRun s) = filter isAngle s.
Proof.
  revert inRun. induction s as [|c s IH]; intros inRun; [reflexivity|].
  cbn [collapseFrom filter]. destruct (isSpace c) eqn:Hc.
  - rewrite (space_not_angle _ Hc). destruct inRun; cbn [filter]; apply IH.
  - cbn [filter]. rewrite IH. reflexivity.
Qed.

Lemma trimStart_angles (s : jsstring) :
  filter isAngle (trimStart s) = filter isAngle s.
Proof.
  induction s as [|c s IH]; [reflexivity|]. cbn [trimStart].
  destruct (isSpace c) eqn:Hc; [|reflexivity].
  cbn [filter]. rewrite (space_not_angle _ Hc). exact IH.
Qed.

Lemma trimEnd_angles (s : jsstring) :
  filter isAngle (trimEnd s) = filter isAngle s.
Proof.
  induction s as [|c s IH]; [reflexivity|].
  destruct (trimEnd_cons c s) as [E|[Hc [E Hs]]]; rewrite E; cbn [filter].
  - rewrite IH. reflexivity.
  - rewrite (space_not_angle _ Hc), <- IH, Hs. reflexivity.
Qed.

(** The characters of a match are word characters. *)
Lemma matchWordsAt_letters (alts : list jsstring) (prev : option N)
  (s : jsstring) (n : nat) :
  forallb letterWord alts = true ->
  matchWordsAt alts prev s = Some n ->
  forallb isWordChar (firstn n s) = true.
Proof.
  intros Ha H. unfold matchWordsAt in H.
  destruct (wordBoundary prev (hd_error s)); [|discriminate].
  apply matchAlts_Some_inv in H as [w [l [r [Hin [-> [Hm _]]]]]].
  pose proof (forallb_letterWord_In alts w Ha Hin) as Hw.
  apply letterWord_inv in Hw as [_ Hl].
  destruct (matchLitCI_inv _ _ _ Hm) as [m [-> [Hsame _]]].
  clear Hm Hin. revert Hl. induction Hsame as [|p c w m Hpc _ IH]; intros Hl.
  - reflexivity.
  - cbn [forallb] in Hl. apply andb_true_iff in Hl as [Hp Hl].
    cbn [List.length app firstn forallb].
    rewrite (proj1 (eqCI_letter _ _ Hp Hpc)). exact (IH Hl).
Qed.

Lemma replaceWordsFrom_angles (alts : list jsstring) (mask : jsstring) :
  forallb letterWord alts = true -> filter isAngle mask = [] ->
  forall (s : jsstring) (skip : nat) (prev : option N),
    forallb isWordChar (firstn skip s) = true ->
    filter isAngle (replaceWordsFrom alts mask skip prev s) = filter isAngle s.
Proof.
  intros Ha Hmask. induction s as [|c s IH]; intros skip prev Hskip.
  - reflexivity.
  - cbn [replaceWordsFrom]. destruct skip as [|k].
    + destruct (matchWordsAt alts prev (c :: s)) as [n|] eqn:M.
      * pose proof (@matchWordsAt_letters alts prev (c :: s) n Ha M) as Hn.
        destruct (@matchWordsAt_Some_inv alts prev (c :: s) n Ha M) as [k [-> _]].
        cbn [firstn forallb] in Hn. apply andb_true_iff in Hn as [Hc Hk].
        rewrite filter_app, Hmask. cbn [app pred filter].
        rewrite (word_not_angle _ Hc). apply IH. exact Hk.
      * cbn [filter]. rewrite (IH 0%nat (Some c) eq_refl). reflexivity.
    + cbn [firstn forallb] in Hskip. apply andb_true_iff in Hskip as [Hc Hk].
      cbn [filter]. rewrite (word_not_angle _ Hc). apply IH. exact Hk.
Qed.

(** C1 (the code departs from it).  An accepted input with an angle bracket
    and a banned word: [filterInput] returns from the masking branch, before
    the statement that strips angle brackets, and the cleaned text keeps
    every [<] and [>] of the input.  It is so for every input that holds a
    banned whole word: the angle brackets of the cleaned text are those of
    the input, one for one. *)
Theorem filterInput_masked_keeps_angle_brackets :
  (filterInput (lit "<b>badword</b>")
   = {| cleaned := Some (lit "<b>****</b>"); feedback := Some maskNote |}
   /\ existsb isAngle (lit "<b>****</b>") = true)
  /\ forall raw : jsstring,
       Doc.hasWholeWord banned raw ->
       exists text,
         filterInput raw = {| cleaned := Some text; feedback := Some maskNote |}
         /\ filter isAngle text = filter isAngle raw.
Proof.
  split; [split; vm_compute; reflexivity|].
  intros raw Hword.
  pose proof banned_letterWords as Hb.
  apply (testWords_hasWholeWord banned raw Hb) in Hword.
  rewrite <- (testWords_normalize banned raw Hb) in Hword.
  exists (replaceWords banned maskToken (trim (collapseSpaces raw))). split.
  - unfold filterInput.
    destruct (trim (collapseSpaces raw)) eqn:E; [discriminate Hword|].
    cbn [truthy negb]. rewrite Hword. reflexivity.
  - unfold replaceWords.
    rewrite (@replaceWordsFrom_angles banned maskToken Hb eq_refl _ 0%nat None eq_refl).
    unfold trim, collapseSpaces.
    rewrite trimEnd_angles, trimStart_angles, collapseFrom_angles. reflexivity.
Qed.

Lemma submitted_messages (h : Host) (text : jsstring) (fb : option jsstring)
  (c : ChatboxComponent) :
  messages (submitted h text fb c)
  = messages c ++ {| role := user; content := text; error := None |}
      :: (if wasMasked fb
          then [ {| role := system; content := maskNote; error := None |} ]
          else []).
Proof.
  unfold submitted. destruct (wasMasked fb); cbn; [|reflexivity].
  rewrite <- app_assoc. reflexivity.
Qed.

Lemma completed_messages (h : Host) (m : ChatMessage) (c : ChatboxComponent) :
  messages (completed h m c) = messages c ++ [m].
Proof. unfold completed. destruct (truthy _); reflexivity. Qed.

(** ** Masking *)

Lemma submitted_hitsPrototype (h : Host) (text : jsstring) (fb : option jsstring)
  (c : ChatboxComponent) :
  topicHitsPrototype (activeTopic (submitted h text fb c))
                     (faqCatalog (submitted h text fb c))
  = topicHitsPrototype (activeTopic c) (faqCatalog c).
Proof. unfold submitted. destruct (wasMasked fb); reflexivity. Qed.

Lemma app_one_neq {A : Type} (l : list A) (x : A) : l ++ [x] <> l.
Proof.
  intros E. apply (f_equal (@List.length A)) in E.
  rewrite length_app in E. cbn [List.length] in E. lia.
Qed.




(** ** Failure of the service *)

(** C7.  In a submit cycle (a call of [send] when no submit is in flight),
    whatever the handlers of the component that run while [send] is
    suspended: when the service is called and its call is rejected, [send]
    returns after having appended to the transcript, as it is when [send]
    resumes, exactly one message, the assistant message "Sorry, something
    went wrong while fetching the answer." with the error flag set.
    Whenever [send] completes, [sending] is false, whether the input was
    rejected, the service answered or the service failed.  No exception
    leaves [send] once the service has been called: one can only come from
    the refresh of the filtered view that precedes the call, the transcript
    being then as it was and [sending] false. *)
Theorem service_failure_is_reported
  (h : Host) (rag : RagService) (evs : list Event)
  (c : ChatboxComponent) (calls : list (jsstring * option QueryOptions)) :
  sending c = false ->
  let o := send h rag (interleaved evs) {| self := c; ragCalls := calls |} in
  (forall text opts e,
     ragCalls (finalWorld o) = calls ++ [(text, opts)] ->
     rag text opts = Rejected e ->
     let pre := submitted h text (feedback (filterInput (input c))) c in
     let r := interleaved evs pre in
     let c' := completed h errMsg r in
     cleaned (filterInput (input c)) = Some text /\
     opts = Some {| topic := activeTopic c |} /\
     o = Returned tt {| self := c'; ragCalls := calls ++ [(text, opts)] |} /\
     messages c' = messages r ++ [errMsg] /\
     sending c' = false /\
     messages pre
     = messages c ++ {| role := user; content := text; error := None |}
         :: (if wasMasked (feedback (filterInput (input c)))
             then [ {| role := system; content := maskNote; error := None |} ]
             else [])) /\
  (forall w', o = Returned tt w' -> sending (self w') = false) /\
  (forall e w', o = Threw e w' ->
     ragCalls w' = calls /\ messages (self w') = messages c /\
     sending (self w') = false) /\
  errMsg = {| role := assistant;
              content := lit "Sorry, something went wrong while fetching the answer.";
              error := Some true |}.
Proof.
  intros Hidle o.
  assert (Ho : o = match cleaned (filterInput (input c)) with
                   | None | Some [] =>
                       Returned tt {| self := set_filterFeedback (Some pleaseEnter) c;
                                      ragCalls := calls |}
                   | Some text =>
                       let fb := feedback (filterInput (input c)) in
                       if topicHitsPrototype (activeTopic c) (faqCatalog c)
                       then Threw faqsError
                              {| self := set_lastQuery text (set_filterFeedback fb c);
                                 ragCalls := calls |}
                       else
                         let pre := submitted h text fb c in
                         let opts := Some {| topic := activeTopic c |} in
                         let calls' := calls ++ [(text, opts)] in
                         match rag text opts with
                         | Fulfilled m =>
                             Returned tt {| self := completed h m (interleaved evs pre);
                                            ragCalls := calls' |}
                         | Rejected e =>
                             Returned tt {| self := completed h errMsg (interleaved evs pre);
                                            ragCalls := calls' |}
                         | Pending => Suspended {| self := pre; ragCalls := calls' |}
                         end
                   end).
  { subst o. rewrite (send_cases h rag (interleaved evs) c calls Hidle).
    destruct (cleaned (filterInput (input c))) as [[|x text]|]; try reflexivity.
    cbv zeta.
    destruct (topicHitsPrototype (activeTopic c) (faqCatalog c)) eqn:Hp;
      [reflexivity|].
    rewrite interleaved_quiet by (rewrite submitted_hitsPrototype; exact Hp).
    reflexivity. }
  clearbody o. subst o.
  split; [|split; [|split; [|reflexivity]]].
  - intros text opts e Hcalls Hrag pre r c'.
    assert (Hnot : calls <> calls ++ [(text, opts)])
      by (intros E; symmetry in E; exact (@app_one_neq _ _ _ E)).
    destruct (cleaned (filterInput (input c))) as [[|x q]|] eqn:Hc;
      try (cbn [finalWorld ragCalls] in Hcalls; congruence).
    cbv zeta in Hcalls.
    destruct (topicHitsPrototype (activeTopic c) (faqCatalog c)) eqn:Hp;
      [cbn [finalWorld ragCalls] in Hcalls; congruence|].
    assert (E : (x :: q, Some {| topic := activeTopic c |}) = (text, opts)).
    { destruct (rag (x :: q) (Some {| topic := activeTopic c |}));
        cbn [finalWorld ragCalls] in Hcalls;
        apply app_inv_head in Hcalls; injection Hcalls as E1 E2;
        rewrite E1, E2; reflexivity. }
    injection E as Et Eo. subst text opts.
    cbv zeta. rewrite Hrag.
    split; [reflexivity|]. split; [reflexivity|]. split; [reflexivity|].
    split; [apply completed_messages|].
    split; [reflexivity|]. apply submitted_messages.
  - intros w'.
    destruct (cleaned (filterInput (input c))) as [[|x text]|].
    + intros [= <-]. exact Hidle.
    + cbv zeta. destruct (topicHitsPrototype _ _); [discriminate|].
      destruct (rag _ _); intros [= <-]; reflexivity.
    + intros [= <-]. exact Hidle.
  - intros e w'.
    destruct (cleaned (filterInput (input c))) as [[|x text]|]; try discriminate.
    cbv zeta. destruct (topicHitsPrototype _ _).
    + intros [= <- <-]. repeat split. exact Hidle.
    + destruct (rag _ _); discriminate.
Qed.

Lemma service_failure_is_reported_witness :
  let c := set_input (lit "hi") initial in
  let rag : RagService := fun _ _ => Rejected (Thrown (lit "network down")) in
  exists w,
    send browser rag (interleaved []) (world c) = Returned tt w /\
    messages (self w)
    = [greeting; {| role := user; content := lit "hi"; error := None |}; errMsg] /\
    sending (self w) = false.
Proof.
  intros c rag.
  destruct (@service_failure_is_reported browser rag [] c [] eq_refl)
    as [Hfail _].
  destruct (Hfail (lit "hi") (Some {| topic := None |})
              (Thrown (lit "network down")) eq_refl eq_refl)
    as [_ [_ [Hs [Hm [Hi Hpre]]]]].
  eexists. split; [exact Hs|]. split; [|exact Hi].
  cbn [self]. rewrite Hm. unfold interleaved. cbn [fold_left].
  rewrite Hpre. vm_compute. reflexivity.
Defined.

(* ===================================================================== *)
(** * Further properties of the code *)
(* ===================================================================== *)

Import Text.

(** ** The normalised text *)

Lemma space32 : isSpace 32 = true.
Proof. reflexivity. Qed.

Lemma not_space_not_32 (c : N) : isSpace c = false -> (c =? 32) = false.
Proof.
  intros H. destruct (c =? 32) eqn:E; [|reflexivity].
  apply N.eqb_eq in E. subst c. discriminate H.
Qed.

Lemma collapseFrom_plain (s : jsstring) (inRun : bool) :
  onlyPlainSpaces (collapseFrom inRun s) = true.
Proof.
  unfold onlyPlainSpaces. revert inRun.
  induction s as [|c s IH]; intros inRun; [reflexivity|].
  cbn [collapseFrom]. destruct (isSpace c) eqn:Hc.
  - destruct inRun; [apply IH|]. cbn [forallb]. rewrite IH. reflexivity.
  - cbn [forallb]. rewrite Hc, IH. reflexivity.
Qed.

Lemma hd_collapseFrom_run (s : jsstring) :
  isSpaceAt (hd_error (collapseFrom true s)) = false.
Proof.
  induction s as [|c s IH]; [reflexivity|]. cbn [collapseFrom].
  destruct (isSpace c) eqn:Hc; [exact IH | exact Hc].
Qed.

Lemma collapseFrom_noDouble (s : jsstring) (inRun : bool) :
  noDoubleSpace (collapseFrom inRun s) = true.
Proof.
  revert inRun. induction s as [|c s IH]; intros inRun; [reflexivity|].
  cbn [collapseFrom]. destruct (isSpace c) eqn:Hc.
  - destruct inRun; [apply IH|]. cbn [noDoubleSpace]. rewrite IH.
    pose proof (hd_collapseFrom_run s) as Hh.
    destruct (collapseFrom true s) as [|c' t]; [reflexivity|].
    simpl in Hh. rewrite (not_space_not_32 _ Hh). reflexivity.
  - cbn [noDoubleSpace]. rewrite IH, (not_space_not_32 _ Hc).
    destruct (collapseFrom false s); reflexivity.
Qed.

Lemma noDoubleSpace_tail (c : N) (s : jsstring) :
  noDoubleSpace (c :: s) = true -> noDoubleSpace s = true.
Proof. cbn [noDoubleSpace]. intros H. apply andb_true_iff in H. tauto. Qed.

Lemma trimStart_shape (s : jsstring) :
  onlyPlainSpaces s = true -> noDoubleSpace s = true ->
  onlyPlainSpaces (trimStart s) = true /\
  noDoubleSpace (trimStart s) = true /\
  isSpaceAt (hd_error (trimStart s)) = false.
Proof.
  induction s as [|c s IH]; intros Hp Hd; [repeat split|].
  cbn [trimStart]. destruct (isSpace c) eqn:Hc.
  - apply IH; [|exact (noDoubleSpace_tail _ _ Hd)].
    unfold onlyPlainSpaces in *. cbn [forallb] in Hp.
    apply andb_true_iff in Hp. tauto.
  - repeat split; assumption.
Qed.

Lemma hd_trimEnd_eq (s : jsstring) (x : N) (t : jsstring) :
  trimEnd s = x :: t -> hd_error s = Some x.
Proof.
  destruct s as [|c s]; [discriminate|].
  destruct (trimEnd_cons c s) as [E|[_ [E _]]]; rewrite E;
    [intros [= -> _]; reflexivity | discriminate].
Qed.

Lemma trimEnd_shape (s : jsstring) :
  onlyPlainSpaces s = true -> noDoubleSpace s = true ->
  onlyPlainSpaces (trimEnd s) = true /\ noDoubleSpace (trimEnd s) = true.
Proof.
  unfold onlyPlainSpaces.
  induction s as [|c s IH]; intros Hp Hd; [split; reflexivity|].
  cbn [forallb] in Hp. apply andb_true_iff in Hp as [Hc Hp].
  destruct (IH Hp (noDoubleSpace_tail _ _ Hd)) as [IHp IHd].
  destruct (trimEnd_cons c s) as [E|[_ [E _]]]; rewrite E; [|split; reflexivity].
  split.
  - cbn [forallb]. rewrite Hc, IHp. reflexivity.
  - cbn [noDoubleSpace] in *. rewrite IHd.
    destruct (trimEnd s) as [|x t] eqn:Et; [reflexivity|].
    rewrite andb_true_r. apply hd_trimEnd_eq in Et.
    destruct s as [|x' s']; [discriminate|]. injection Et as ->.
    apply andb_true_iff in Hd. tauto.
Qed.

Lemma lastOr_trimEnd (s : jsstring) (prev : option N) :
  isSpaceAt prev = false ->
  isSpaceAt (Doc.lastOr prev (trimEnd s)) = false.
Proof.
  revert prev. induction s as [|c s IH]; intros prev Hprev; [exact Hprev|].
  cbn [trimEnd]. destruct (trimEnd s) as [|x t] eqn:Et.
  - destruct (isSpace c) eqn:Hc; [exact Hprev | exact Hc].
  - specialize (IH None eq_refl). exact IH.
Qed.

Lemma hd_trimEnd_space (s : jsstring) :
  isSpaceAt (hd_error s) = false -> isSpaceAt (hd_error (trimEnd s)) = false.
Proof.
  destruct s as [|c s]; [reflexivity|].
  destruct (trimEnd_cons c s) as [E|[_ [E _]]]; rewrite E; auto.
Qed.

(** The shape of a normalised text. *)
Lemma normalized_shape (raw : jsstring) :
  let t := trim (collapseSpaces raw) in
  onlyPlainSpaces t = true /\ noDoubleSpace t = true /\
  isSpaceAt (hd_error t) = false /\ isSpaceAt (Doc.lastOr None t) = false.
Proof.
  unfold trim, collapseSpaces.
  destruct (trimStart_shape (collapseFrom false raw)
              (collapseFrom_plain raw false) (collapseFrom_noDouble raw false))
    as [Hp [Hd Hh]].
  destruct (trimEnd_shape _ Hp Hd) as [Hp' Hd'].
  repeat split; try assumption.
  - apply hd_trimEnd_space. exact Hh.
  - apply lastOr_trimEnd. reflexivity.
Qed.

Lemma replaceWordsFrom_forallb (P : N -> bool) (alts : list jsstring)
  (mask : jsstring) :
  forallb P mask = true ->
  forall (s : jsstring) (skip : nat) (prev : option N),
    forallb P s = true ->
    forallb P (replaceWordsFrom alts mask skip prev s) = true.
Proof.
  intros Hm. induction s as [|c s IH]; intros skip prev Hs; [reflexivity|].
  cbn [forallb] in Hs. apply andb_true_iff in Hs as [Hc Hs].
  cbn [replaceWordsFrom]. destruct skip as [|k]; [|apply IH; exact Hs].
  destruct (matchWordsAt alts prev (c :: s)).
  - rewrite forallb_app, Hm. apply IH. exact Hs.
  - cbn [forallb]. rewrite Hc. apply IH. exact Hs.
Qed.

(** X1.  The text [filterInput] works on, [raw.replace(/\s+/g, ' ').trim()],
    has no whitespace character other than the space U+0020, no two spaces
    in a row, and no space at either end; and whatever cleaned text
    [filterInput] returns has no whitespace character other than U+0020. *)
Theorem cleaned_text_has_plain_spaces_only (raw : jsstring) :
  let t := trim (collapseSpaces raw) in
  (onlyPlainSpaces t = true /\ noDoubleSpace t = true /\
   isSpaceAt (hd_error t) = false /\ isSpaceAt (Doc.lastOr None t) = false) /\
  match cleaned (filterInput raw) with
  | Some text => onlyPlainSpaces text = true
  | None => True
  end.
Proof.
  intros t. pose proof (normalized_shape raw) as Hshape. fold t in Hshape.
  split; [exact Hshape|]. destruct Hshape as [Hp _].
  unfold filterInput. fold t.
  destruct (negb (truthy t)); [exact I|].
  destruct (testWords banned t); cbn [cleaned].
  - unfold replaceWords. apply replaceWordsFrom_forallb; [reflexivity | exact Hp].
  - unfold stripAngles, onlyPlainSpaces in *.
    clear -Hp. induction t as [|c t IH]; [reflexivity|].
    cbn [forallb] in Hp. apply andb_true_iff in Hp as [Hc Hp].
    cbn [filter]. destruct (negb (isAngle c)); [|exact (IH Hp)].
    cbn [forallb]. rewrite Hc. exact (IH Hp).
Qed.

Lemma collapseFrom_fixed (t : jsstring) :
  onlyPlainSpaces t = true -> noDoubleSpace t = true ->
  forall inRun : bool,
    (inRun = true -> isSpaceAt (hd_error t) = false) ->
    collapseFrom inRun t = t.
Proof.
  unfold onlyPlainSpaces.
  induction t as [|c t IH]; intros Hp Hd inRun Hrun; [reflexivity|].
  cbn [forallb] in Hp. apply andb_true_iff in Hp as [Hc Hp].
  pose proof (noDoubleSpace_tail _ _ Hd) as Hd'.
  cbn [collapseFrom]. destruct (isSpace c) eqn:Hs.
  - cbn [negb orb] in Hc. apply N.eqb_eq in Hc. subst c.
    destruct inRun; [specialize (Hrun eq_refl); discriminate Hrun|].
    f_equal. apply IH; try assumption. intros _.
    destruct t as [|c' t']; [reflexivity|].
    cbn [noDoubleSpace] in Hd. apply andb_true_iff in Hd as [Hd _].
    cbn [forallb] in Hp. apply andb_true_iff in Hp as [Hc' _].
    simpl. destruct (isSpace c') eqn:Hs'; [|reflexivity].
    cbn [negb orb] in Hc'. rewrite Hc' in Hd. discriminate Hd.
  - f_equal. apply IH; try assumption. discriminate.
Qed.

Lemma trimStart_fixed (t : jsstring) :
  isSpaceAt (hd_error t) = false -> trimStart t = t.
Proof.
  destruct t as [|c t]; [reflexivity|]. simpl. intros ->. reflexivity.
Qed.

Lemma trimEnd_fixed (t : jsstring) :
  isSpaceAt (Doc.lastOr None t) = false -> trimEnd t = t.
Proof.
  induction t as [|c t IH]; [reflexivity|].
  cbn [Doc.lastOr trimEnd]. destruct t as [|x t'].
  - simpl. intros ->. reflexivity.
  - intros H. rewrite IH by exact H. reflexivity.
Qed.

(** X2.  Normalising a normalised text changes nothing. *)
Theorem normalisation_is_idempotent (raw : jsstring) :
  trim (collapseSpaces (trim (collapseSpaces raw))) = trim (collapseSpaces raw).
Proof.
  destruct (normalized_shape raw) as [Hp [Hd [Hh Hl]]].
  set (t := trim (collapseSpaces raw)) in *.
  unfold trim at 1, collapseSpaces at 1.
  rewrite (@collapseFrom_fixed t Hp Hd false) by discriminate.
  rewrite (@trimStart_fixed t Hh). apply trimEnd_fixed. exact Hl.
Qed.

(** ** What [filterInput] returns *)

Lemma collapseFrom_blank_inv (s : jsstring) (inRun : bool) :
  forallb isSpace (collapseFrom inRun s) = true -> forallb isSpace s = true.
Proof.
  revert inRun. induction s as [|c s IH]; intros inRun; [reflexivity|].
  cbn [collapseFrom forallb]. destruct (isSpace c) eqn:Hc.
  - destruct inRun; [apply IH|]. cbn [forallb]. rewrite space32. apply IH.
  - cbn [forallb]. rewrite Hc. discriminate.
Qed.

Lemma trimStart_blank_inv (s : jsstring) :
  forallb isSpace (trimStart s) = true -> forallb isSpace s = true.
Proof.
  induction s as [|c s IH]; [reflexivity|].
  cbn [trimStart]. destruct (isSpace c) eqn:Hc.
  - cbn [forallb]. rewrite Hc. exact IH.
  - auto.
Qed.

Lemma normalize_nil_blank (raw : jsstring) :
  trim (collapseSpaces raw) = [] -> forallb isSpace raw = true.
Proof.
  unfold trim, collapseSpaces. intros H.
  apply (collapseFrom_blank_inv raw false), trimStart_blank_inv,
    trimEnd_nil_blank, H.
Qed.

(** X3.  [filterInput] returns [null] as cleaned text exactly for the inputs
    made of whitespace only, and the masking note as feedback exactly for the
    inputs that contain a banned word as a whole word; for every other input
    it returns no feedback. *)
Theorem filterInput_result_shape (raw : jsstring) :
  (cleaned (filterInput raw) = None <-> forallb isSpace raw = true) /\
  (feedback (filterInput raw) = Some maskNote <-> Doc.hasWholeWord banned raw) /\
  (feedback (filterInput raw) = None <-> ~ Doc.hasWholeWord banned raw).
Proof.
  pose proof banned_letterWords as Hb.
  pose proof (testWords_hasWholeWord banned raw Hb) as Hw.
  rewrite <- (testWords_normalize banned raw Hb) in Hw.
  unfold filterInput.
  destruct (trim (collapseSpaces raw)) as [|x t] eqn:Et; cbn [truthy negb].
  - cbn [cleaned feedback]. split; [|split].
    + split; [intros _; apply normalize_nil_blank, Et | reflexivity].
    + split; [discriminate|]. intros H. apply Hw in H. discriminate H.
    + split; [|reflexivity]. intros _ H. apply Hw in H. discriminate H.
  - destruct (testWords banned (x :: t)) eqn:Hm; cbn [cleaned feedback].
    + split; [|split].
      * split; [discriminate|]. intros Hblank.
        rewrite (normalize_blank raw Hblank) in Et. discriminate Et.
      * split; [intros _; apply Hw; reflexivity | reflexivity].
      * split; [discriminate|]. intros H. exfalso. apply H, Hw. reflexivity.
    + split; [|split].
      * split; [discriminate|]. intros Hblank.
        rewrite (normalize_blank raw Hblank) in Et. discriminate Et.
      * split; [discriminate|]. intros H. apply Hw in H. discriminate H.
      * split; [|reflexivity]. intros _ H. apply Hw in H. discriminate H.
Qed.

(** ** An angle bracket inside a banned word *)

Lemma In_cuts (a b : jsstring) : In (a, b) (cuts (a ++ b)).
Proof.
  induction a as [|c a IH]; cbn [app cuts].
  - destruct b; left; reflexivity.
  - right. apply in_map_iff. exists (a, b). split; [reflexivity | exact IH].
Qed.

Lemma banned_words_cut_by_angle :
  forallb (fun w =>
    forallb (fun ab =>
      match fst ab, snd ab with
      | [], _ => true
      | _, [] => true
      | a, b =>
          forallb (fun x =>
            match cleaned (filterInput (a ++ x :: b)),
                  feedback (filterInput (a ++ x :: b)) with
            | Some t, None => JS.eqb t w
            | _, _ => false
            end) [60; 62]
      end) (cuts w)) banned = true.
Proof. vm_compute. reflexivity. Qed.

(** X4.  The angle brackets are stripped after the search for banned words:
    a banned word written with an angle bracket anywhere inside it is not
    masked, and the cleaned text is the banned word itself, without
    feedback. *)
Theorem angle_bracket_inside_banned_word (w a b : jsstring) (x : N) :
  In w banned -> w = a ++ b -> a <> [] -> b <> [] -> isAngle x = true ->
  filterInput (a ++ x :: b) = {| cleaned := Some w; feedback := None |}.
Proof.
  intros Hin -> Ha Hb Hx.
  pose proof banned_words_cut_by_angle as H.
  rewrite forallb_forall in H. specialize (H _ Hin).
  rewrite forallb_forall in H. specialize (H _ (In_cuts a b)).
  cbn [fst snd] in H.
  destruct a as [|a0 a]; [congruence|]. destruct b as [|b0 b]; [congruence|].
  rewrite forallb_forall in H.
  assert (Hx' : In x [60; 62]).
  { unfold isAngle in Hx. apply orb_true_iff in Hx as [Hx|Hx];
      apply N.eqb_eq in Hx; subst x; simpl; auto. }
  specialize (H _ Hx').
  destruct (filterInput ((a0 :: a) ++ x :: b0 :: b)) as [[t|] [fb|]];
    cbn [cleaned feedback] in H; try discriminate H.
  apply JS_eqb_eq in H. subst t. reflexivity.
Qed.

Lemma angle_bracket_inside_banned_word_witness :
  filterInput (lit "bad<word")
  = {| cleaned := Some (lit "badword"); feedback := None |}.
Proof.
  apply (@angle_bracket_inside_banned_word (lit "badword") (lit "bad")
           (lit "word") 60).
  - left. reflexivity.
  - reflexivity.
  - discriminate.
  - discriminate.
  - reflexivity.
Defined.

(** ** Which inputs [send] rejects *)

Lemma angle_not_word (c : N) : isAngle c = true -> isWordChar c = false.
Proof.
  intros Ha. destruct (isWordChar c) eqn:Hw; [|reflexivity].
  apply word_not_angle in Hw. congruence.
Qed.

Lemma testWordsFrom_nonword (alts : list jsstring) (prev : option N)
  (s : jsstring) :
  forallb letterWord alts = true ->
  forallb (fun c => negb (isWordChar c)) s = true ->
  testWordsFrom alts prev s = false.
Proof.
  intros Ha. revert prev. induction s as [|c s IH]; intros prev Hs.
  - apply testWordsFrom_blank; [exact Ha|reflexivity].
  - cbn [forallb] in Hs. apply andb_true_iff in Hs as [Hc Hs].
    apply negb_true_iff in Hc.
    rewrite (testWordsFrom_skip alts prev c s Ha Hc). auto.
Qed.

Lemma stripAngles_nil (t : jsstring) :
  stripAngles t = [] <-> forallb isAngle t = true.
Proof.
  unfold stripAngles. induction t as [|c t IH]; [split; reflexivity|].
  cbn [filter forallb]. destruct (isAngle c); cbn [negb andb].
  - exact IH.
  - split; discriminate.
Qed.

Lemma masked_text_nonempty (t : jsstring) :
  testWords banned t = true -> replaceWords banned maskToken t <> [].
Proof.
  intros H E.
  pose proof (replaceWords_has_mask banned maskToken t banned_letterWords H) as Hm.
  rewrite E in Hm. discriminate Hm.
Qed.

(** X5.  A submit made when none is in flight is rejected, with the feedback
    "Please enter a question before sending." and nothing else changed,
    exactly when the normalised input consists of angle brackets only (the
    empty text included).  Every other input is accepted with a non-empty
    question; it reaches the service where the filtered view can be
    refreshed, and otherwise [send] throws before the service is called. *)
Theorem send_rejects_angle_only_input
  (h : Host) (rag : RagService) (during : ChatboxComponent -> ChatboxComponent)
  (c : ChatboxComponent) (calls : list (jsstring * option QueryOptions)) :
  sending c = false ->
  let t := trim (collapseSpaces (input c)) in
  (forallb isAngle t = true ->
   send h rag during {| self := c; ragCalls := calls |}
   = Returned tt {| self := set_filterFeedback (Some pleaseEnter) c;
                    ragCalls := calls |}) /\
  (forallb isAngle t = false ->
   exists q,
     q <> [] /\ cleaned (filterInput (input c)) = Some q /\
     (topicHitsPrototype (activeTopic c) (faqCatalog c) = false ->
      ragCalls (finalWorld (send h rag during {| self := c; ragCalls := calls |}))
      = calls ++ [(q, Some {| topic := activeTopic c |})]) /\
     (topicHitsPrototype (activeTopic c) (faqCatalog c) = true ->
      send h rag during {| self := c; ragCalls := calls |}
      = Threw faqsError
          {| self := set_lastQuery q
                       (set_filterFeedback (feedback (filterInput (input c))) c);
             ragCalls := calls |})).
Proof.
  intros Hidle t. split.
  - intros Ha. rewrite (send_cases h rag during c calls Hidle).
    unfold filterInput. fold t.
    assert (Hw : testWords banned t = false).
    { apply testWordsFrom_nonword; [exact banned_letterWords|].
      clear -Ha. induction t as [|x t IH]; [reflexivity|].
      cbn [forallb] in *. apply andb_true_iff in Ha as [Hx Ha].
      rewrite (angle_not_word _ Hx). exact (IH Ha). }
    destruct (negb (truthy t)); [reflexivity|]. rewrite Hw. cbn [cleaned].
    rewrite (proj2 (stripAngles_nil t) Ha). reflexivity.
  - intros Ha.
    assert (Ht : truthy t = true) by (destruct t; [discriminate Ha|reflexivity]).
    assert (Hq : exists q, q <> [] /\ cleaned (filterInput (input c)) = Some q).
    { unfold filterInput. fold t. rewrite Ht. cbn [negb].
      destruct (testWords banned t) eqn:Hw; cbn [cleaned].
      - exists (replaceWords banned maskToken t).
        split; [exact (masked_text_nonempty t Hw) | reflexivity].
      - exists (stripAngles t). split; [|reflexivity].
        intros E. apply stripAngles_nil in E. congruence. }
    destruct Hq as [q [Hne Hc]]. exists q.
    split; [exact Hne|]. split; [exact Hc|]. split; intros Hp.
    + exact (@send_calls_service h rag during c calls q Hidle Hc Hne Hp).
    + exact (@send_throws h rag during c calls q Hidle Hc Hne Hp).
Qed.

Lemma send_rejects_angle_only_input_witness :
  (let c := set_input (lit " <<> ") initial in
   send browser (ask browser 0) (fun x => x) (world c)
   = Returned tt (world (set_filterFeedback (Some pleaseEnter) c))) /\
  (let c := set_input (lit "<hi>") initial in
   ragCalls (finalWorld (send browser (ask browser 0) (fun x => x) (world c)))
   = [(lit "hi", Some {| topic := None |})]).
Proof.
  split; intros c.
  - exact (proj1 (@send_rejects_angle_only_input browser (ask browser 0)
                    (fun x => x) c [] eq_refl) eq_refl).
  - destruct (proj2 (@send_rejects_angle_only_input browser (ask browser 0)
                       (fun x => x) c [] eq_refl) eq_refl)
      as [q [_ [Hq [Hcalls _]]]].
    unfold world. rewrite (Hcalls eq_refl).
    injection Hq as <-. vm_compute. reflexivity.
Defined.

(** What [send] does with an accepted input when the filtered view can be
    refreshed and the service has not answered yet. *)
Lemma send_pending (h : Host) (rag : RagService)
  (during : ChatboxComponent -> ChatboxComponent)
  (c : ChatboxComponent) (calls : list (jsstring * option QueryOptions))
  (text : jsstring) :
  sending c = false ->
  cleaned (filterInput (input c)) = Some text -> text <> [] ->
  topicHitsPrototype (activeTopic c) (faqCatalog c) = false ->
  rag text (Some {| topic := activeTopic c |}) = Pending ->
  send h rag during {| self := c; ragCalls := calls |}
  = Suspended {| self := submitted h text (feedback (filterInput (input c))) c;
                 ragCalls := calls ++ [(text, Some {| topic := activeTopic c |})] |}.
Proof.
  intros Hidle Hc Hne Hp Hrag.
  rewrite (send_cases h rag during c calls Hidle), Hc.
  destruct text as [|x text]; [congruence|]. cbv zeta. rewrite Hp, Hrag.
  reflexivity.
Qed.

(** The same when the service answers and the refresh that follows is
    skipped, the last query having been reset in the meantime. *)
Lemma send_fulfilled_reset (h : Host) (rag : RagService)
  (during : ChatboxComponent -> ChatboxComponent)
  (c : ChatboxComponent) (calls : list (jsstring * option QueryOptions))
  (text : jsstring) (m : ChatMessage) :
  sending c = false ->
  cleaned (filterInput (input c)) = Some text -> text <> [] ->
  topicHitsPrototype (activeTopic c) (faqCatalog c) = false ->
  rag text (Some {| topic := activeTopic c |}) = Fulfilled m ->
  lastQuery (during (submitted h text (feedback (filterInput (input c))) c)) = [] ->
  send h rag during {| self := c; ragCalls := calls |}
  = Returned tt
      {| self := set_sending false
                   (push m (during (submitted h text
                                      (feedback (filterInput (input c))) c)));
         ragCalls := calls ++ [(text, Some {| topic := activeTopic c |})] |}.
Proof.
  intros Hidle Hc Hne Hp Hrag Hq.
  rewrite (send_cases h rag during c calls Hidle), Hc.
  destruct text as [|x text]; [congruence|]. cbv zeta. rewrite Hp, Hrag, Hq.
  cbn [truthy andb]. unfold completed. cbn [lastQuery push set_messages].
  rewrite Hq. reflexivity.
Qed.



(** ** The submit cycle, path by path *)

Lemma send_busy (h : Host) (rag : RagService)
  (during : ChatboxComponent -> ChatboxComponent) (w : World) :
  sending (self w) = true -> send h rag during w = Returned tt w.
Proof.
  intros H. unfold send, bind at 1, gets at 1. rewrite H. reflexivity.
Qed.

Lemma submitted_fields (h : Host) (text : jsstring) (fb : option jsstring)
  (c : ChatboxComponent) :
  sending (submitted h text fb c) = true /\
  input (submitted h text fb c) = [] /\
  lastQuery (submitted h text fb c) = text /\
  activeTopic (submitted h text fb c) = activeTopic c /\
  filterFeedback (submitted h text fb c) = fb /\
  faqCatalog (submitted h text fb c) = faqCatalog c.
Proof. unfold submitted. destruct (wasMasked fb); repeat split; reflexivity. Qed.

(** X7.  While the promise of the service is pending, [send] stays suspended
    with [sending] set, the input field emptied and the user message already
    in the transcript; a further [send] in that state returns at once and
    changes nothing: no message, no second call of the service. *)
Theorem submit_in_flight_blocks_further_submits
  (h : Host) (rag : RagService) (during : ChatboxComponent -> ChatboxComponent)
  (c : ChatboxComponent) (calls : list (jsstring * option QueryOptions))
  (text : jsstring) :
  sending c = false ->
  cleaned (filterInput (input c)) = Some text -> text <> [] ->
  topicHitsPrototype (activeTopic c) (faqCatalog c) = false ->
  rag text (Some {| topic := activeTopic c |}) = Pending ->
  let pre := submitted h text (feedback (filterInput (input c))) c in
  let w := {| self := pre;
              ragCalls := calls ++ [(text, Some {| topic := activeTopic c |})] |} in
  send h rag during {| self := c; ragCalls := calls |} = Suspended w /\
  sending pre = true /\ input pre = [] /\
  In {| role := user; content := text; error := None |} (messages pre) /\
  forall (rag' : RagService) (during' : ChatboxComponent -> ChatboxComponent),
    send h rag' during' w = Returned tt w.
Proof.
  intros Hidle Hc Hne Hp Hrag pre w.
  destruct (submitted_fields h text (feedback (filterInput (input c))) c)
    as [Hs [Hi _]].
  split; [|split; [exact Hs|split; [exact Hi|split]]].
  - exact (@send_pending h rag during c calls text Hidle Hc Hne Hp Hrag).
  - subst pre. rewrite submitted_messages. apply in_or_app. right. left. reflexivity.
  - intros rag' during'. apply send_busy. exact Hs.
Qed.

Lemma submit_in_flight_blocks_further_submits_witness :
  let c := set_input (lit "hello") initial in
  let rag : RagService := fun _ _ => Pending in
  exists w,
    send browser rag (fun x => x) (world c) = Suspended w /\
    sending (self w) = true /\
    send browser (ask browser 0) (fun x => x) w = Returned tt w.
Proof.
  intros c rag.
  assert (Hc : cleaned (filterInput (input c)) = Some (lit "hello"))
    by (vm_compute; reflexivity).
  assert (Hne : lit "hello" <> []) by discriminate.
  destruct (@submit_in_flight_blocks_further_submits browser rag (fun x => x)
              c [] (lit "hello") eq_refl Hc Hne eq_refl eq_refl)
    as [Hs [Hb [_ [_ Hno]]]].
  eexists. split; [exact Hs|]. split; [exact Hb|]. apply Hno.
Defined.

(** X8.  When the service answers, [send] returns after having appended the
    answer, and nothing else, to the transcript as it is when [send] resumes,
    whatever the handlers of the component that ran in the meantime; before
    the call it had appended the cleaned text as user message, followed by
    the masking note when words were masked, and emptied the input field;
    [sending] is false afterwards. *)
Theorem service_answer_is_appended
  (h : Host) (rag : RagService) (evs : list Event)
  (c : ChatboxComponent) (calls : list (jsstring * option QueryOptions))
  (text : jsstring) (m : ChatMessage) :
  sending c = false ->
  cleaned (filterInput (input c)) = Some text -> text <> [] ->
  topicHitsPrototype (activeTopic c) (faqCatalog c) = false ->
  rag text (Some {| topic := activeTopic c |}) = Fulfilled m ->
  let pre := submitted h text (feedback (filterInput (input c))) c in
  let c' := completed h m (interleaved evs pre) in
  send h rag (interleaved evs) {| self := c; ragCalls := calls |}
  = Returned tt {| self := c';
                   ragCalls := calls ++ [(text, Some {| topic := activeTopic c |})] |} /\
  messages c' = messages (interleaved evs pre) ++ [m] /\
  sending c' = false /\
  input pre = [] /\
  messages pre
  = messages c ++ {| role := user; content := text; error := None |}
      :: (if wasMasked (feedback (filterInput (input c)))
          then [ {| role := system; content := maskNote; error := None |} ]
          else []).
Proof.
  intros Hidle Hc Hne Hp Hrag pre c'.
  split; [|split; [apply completed_messages|split; [reflexivity|split]]].
  - pose proof (@send_cases_interleaved h rag evs c calls text Hidle Hc Hne Hp)
      as Hs. cbv zeta in Hs. rewrite Hrag in Hs. exact Hs.
  - apply submitted_fields.
  - apply submitted_messages.
Qed.

Lemma service_answer_is_appended_witness :
  let c := set_input (lit "hi") initial in
  let m := {| role := assistant; content := lit "hello!"; error := None |} in
  let rag : RagService := fun _ _ => Fulfilled m in
  exists w,
    send browser rag (interleaved [Typed (lit "and")]) (world c) = Returned tt w /\
    messages (self w)
    = [greeting; {| role := user; content := lit "hi"; error := None |}; m] /\
    input (self w) = lit "and".
Proof.
  intros c m rag.
  assert (Hc : cleaned (filterInput (input c)) = Some (lit "hi"))
    by (vm_compute; reflexivity).
  assert (Hne : lit "hi" <> []) by discriminate.
  destruct (@service_answer_is_appended browser rag [Typed (lit "and")] c []
              (lit "hi") m eq_refl Hc Hne eq_refl eq_refl)
    as [Hs [Hm [_ [_ Hpre]]]].
  eexists. split; [exact Hs|]. split.
  - cbn [self]. rewrite Hm. unfold interleaved. cbn [fold_left handle].
    cbn [messages set_input]. rewrite Hpre. vm_compute. reflexivity.
  - vm_compute. reflexivity.
Defined.

Lemma onTopic_fields (t : option jsstring) (c : ChatboxComponent) :
  activeTopic (onTopic t c) = t /\
  filterMatches (onTopic t c) = false /\
  filteredMessages (onTopic t c) = [] /\
  filteredFaqs (onTopic t c) = [] /\
  lastQuery (onTopic t c) = [] /\
  sending (onTopic t c) = sending c /\
  input (onTopic t c) = input c /\
  filterFeedback (onTopic t c) = filterFeedback c /\
  faqCatalog (onTopic t c) = faqCatalog c /\
  messages (onTopic t c)
  = messages c ++ match t with
                  | Some s => if truthy s then [contextNote s] else []
                  | None => []
                  end.
Proof.
  unfold onTopic. destruct t as [s|]; [destruct (truthy s)|];
    repeat split; try reflexivity; cbn; rewrite app_nil_r; reflexivity.
Qed.

(** X9.  A change of topic while a submit is in flight does not touch the
    call already made: the service was asked with the topic active when
    [send] was called.  When the answer arrives it is appended after the note
    of the topic change, the new topic is active, whatever it is, and the
    filtered view stays reset: it is not recomputed for the question. *)
Theorem topic_change_while_in_flight
  (h : Host) (rag : RagService) (t' : option jsstring)
  (c : ChatboxComponent) (calls : list (jsstring * option QueryOptions))
  (text : jsstring) (m : ChatMessage) :
  sending c = false ->
  cleaned (filterInput (input c)) = Some text -> text <> [] ->
  topicHitsPrototype (activeTopic c) (faqCatalog c) = false ->
  rag text (Some {| topic := activeTopic c |}) = Fulfilled m ->
  let pre := submitted h text (feedback (filterInput (input c))) c in
  exists c',
    send h rag (onTopic t') {| self := c; ragCalls := calls |}
    = Returned tt {| self := c';
                     ragCalls := calls ++ [(text, Some {| topic := activeTopic c |})] |} /\
    activeTopic c' = t' /\
    messages c'
    = messages pre
        ++ match t' with
           | Some s => if truthy s then [contextNote s] else []
           | None => []
           end ++ [m] /\
    filterMatches c' = false /\ filteredMessages c' = [] /\
    filteredFaqs c' = [] /\ lastQuery c' = [] /\ sending c' = false.
Proof.
  intros Hidle Hc Hne Hp Hrag pre.
  exists (set_sending false (push m (onTopic t' pre))).
  destruct (onTopic_fields t' pre) as [Ha [Hfm [Hfms [Hff [Hq [_ [_ [_ [_ Hm]]]]]]]]].
  split.
  - exact (@send_fulfilled_reset h rag (onTopic t') c calls text m
             Hidle Hc Hne Hp Hrag Hq).
  - cbn [activeTopic messages filterMatches filteredMessages
         filteredFaqs lastQuery sending set_sending push set_messages].
    rewrite Hm, <- app_assoc. repeat split; assumption.
Qed.

Lemma topic_change_while_in_flight_witness :
  let c := set_input (lit "hi") (onTopic (Some (lit "api")) initial) in
  let m := {| role := assistant; content := lit "hello!"; error := None |} in
  let rag : RagService := fun _ _ => Fulfilled m in
  exists c',
    send browser rag (onTopic (Some (lit "security"))) (world c)
    = Returned tt {| self := c';
                     ragCalls := [(lit "hi", Some {| topic := Some (lit "api") |})] |} /\
    activeTopic c' = Some (lit "security") /\ filterMatches c' = false.
Proof.
  intros c m rag.
  assert (Hc : cleaned (filterInput (input c)) = Some (lit "hi"))
    by (vm_compute; reflexivity).
  assert (Hne : lit "hi" <> []) by discriminate.
  destruct (@topic_change_while_in_flight browser rag (Some (lit "security"))
              c [] (lit "hi") m eq_refl Hc Hne eq_refl eq_refl)
    as [c' [Hs [Ha [_ [Hf _]]]]].
  exists c'. split; [exact Hs|]. split; assumption.
Defined.

(** X10.  [clear()] while a submit is in flight: when the answer arrives the
    transcript is the message "Chat cleared. How can I help you next?"
    followed by the answer; the user message of the submit is gone and the
    filtered view stays reset. *)
Theorem clear_while_in_flight
  (h : Host) (rag : RagService)
  (c : ChatboxComponent) (calls : list (jsstring * option QueryOptions))
  (text : jsstring) (m : ChatMessage) :
  sending c = false ->
  cleaned (filterInput (input c)) = Some text -> text <> [] ->
  topicHitsPrototype (activeTopic c) (faqCatalog c) = false ->
  rag text (Some {| topic := activeTopic c |}) = Fulfilled m ->
  exists c',
    send h rag clear {| self := c; ragCalls := calls |}
    = Returned tt {| self := c';
                     ragCalls := calls ++ [(text, Some {| topic := activeTopic c |})] |} /\
    messages c'
    = [ {| role := assistant;
           content := lit "Chat cleared. How can I help you next?";
           error := None |}; m ] /\
    filterMatches c' = false /\ filteredMessages c' = [] /\
    filteredFaqs c' = [] /\ lastQuery c' = [] /\
    filterFeedback c' = None /\ sending c' = false /\
    activeTopic c' = activeTopic c.
Proof.
  intros Hidle Hc Hne Hp Hrag.
  set (pre := submitted h text (feedback (filterInput (input c))) c).
  exists (set_sending false (push m (clear pre))). split.
  - exact (@send_fulfilled_reset h rag clear c calls text m
             Hidle Hc Hne Hp Hrag eq_refl).
  - repeat split; try reflexivity.
    apply (submitted_fields h text (feedback (filterInput (input c))) c).
Qed.

Lemma clear_while_in_flight_witness :
  let c := set_input (lit "hi") initial in
  let m := {| role := assistant; content := lit "hello!"; error := None |} in
  let rag : RagService := fun _ _ => Fulfilled m in
  exists c',
    send browser rag clear (world c)
    = Returned tt {| self := c';
                     ragCalls := [(lit "hi", Some {| topic := None |})] |} /\
    List.length (messages c') = 2%nat.
Proof.
  intros c m rag.
  assert (Hc : cleaned (filterInput (input c)) = Some (lit "hi"))
    by (vm_compute; reflexivity).
  assert (Hne : lit "hi" <> []) by discriminate.
  destruct (@clear_while_in_flight browser rag c [] (lit "hi") m
              eq_refl Hc Hne eq_refl eq_refl) as [c' [Hs [Hm _]]].
  exists c'. split; [exact Hs|]. rewrite Hm. reflexivity.
Defined.

(** ** The component with the mock service *)

Lemma startsWith_refl (s : jsstring) : startsWith s s = true.
Proof.
  induction s as [|c s IH]; [reflexivity|].
  cbn [startsWith]. rewrite N.eqb_refl. exact IH.
Qed.

Lemma includes_refl (s : jsstring) : includes s s = true.
Proof. destruct s; cbn [includes]; rewrite startsWith_refl; reflexivity. Qed.

(** With the catalog of the component and the knowledge base of the
    service, a topic passes the one read exactly when it passes the
    other. *)
Lemma tables_agree (topic : option jsstring) :
  topicHitsPrototype topic mockKnowledgeBase
  = topicHitsPrototype topic initialFaqCatalog.
Proof.
  destruct topic as [t|]; [|reflexivity]. cbn [topicHitsPrototype].
  rewrite hitsPrototype_knowledge, hitsPrototype_initial_catalog. reflexivity.
Qed.

(** X11.  With the mock service on a host with timers and no other handler
    in between, a submit of an accepted input that gets past the refresh of
    the filtered view always completes, and never with the error message:
    the catalog of the component and the knowledge base of the service have
    the same keys, so the service finds a bucket to read whenever the
    component did.  The transcript gains the cleaned text as user message,
    the masking note if words were masked, and the answer of the service for
    that text and the active topic.  Afterwards the input field is empty,
    [sending] is false, and the filtered view is the one for the cleaned text
    over the final transcript; the user message is part of it. *)
Theorem submit_with_mock_service
  (h : Host) (rnd : Q) (c : ChatboxComponent)
  (calls : list (jsstring * option QueryOptions)) (text : jsstring) :
  hasSetTimeout h = true ->
  sending c = false ->
  faqCatalog c = initialFaqCatalog ->
  topicHitsPrototype (activeTopic c) (faqCatalog c) = false ->
  cleaned (filterInput (input c)) = Some text -> text <> [] ->
  exists answer c',
    ask h rnd text (Some {| topic := activeTopic c |}) = Fulfilled answer /\
    role answer = assistant /\ error answer = None /\
    send h (ask h rnd) (fun x => x) {| self := c; ragCalls := calls |}
    = Returned tt {| self := c';
                     ragCalls := calls ++ [(text, Some {| topic := activeTopic c |})] |} /\
    messages c'
    = messages c
        ++ {| role := user; content := text; error := None |}
        :: (if wasMasked (feedback (filterInput (input c)))
            then [ {| role := system; content := maskNote; error := None |} ]
            else [])
        ++ [answer] /\
    input c' = [] /\ sending c' = false /\
    lastQuery c' = text /\ filterMatches c' = true /\
    filteredMessages c' = computeFilteredHistory h c' text /\
    computeFilteredFaqs h c' text = Normal (filteredFaqs c') /\
    In {| role := user; content := text; error := None |} (filteredMessages c').
Proof.
  intros Ht Hidle Hcat Hp Hc Hne.
  assert (Hkb : topicHitsPrototype
                  (optTopic (Some {| topic := activeTopic c |})) mockKnowledgeBase
                = false).
  { cbn [optTopic topic]. rewrite tables_agree, <- Hcat. exact Hp. }
  pose proof (ask_fulfilled h rnd text (Some {| topic := activeTopic c |}) Ht Hkb)
    as Hask.
  set (answer := {| role := assistant;
                    content := synthesizeAnswer text
                      (Doc.retrievalWith Doc.firstSpaceToken h text
                         (optTopic (Some {| topic := activeTopic c |})))
                      (selectMcpTool text);
                    error := None |}) in *.
  set (fb := feedback (filterInput (input c))).
  set (pre := submitted h text fb c).
  exists answer, (completed h answer pre).
  assert (Hlq : lastQuery pre = text) by apply (submitted_fields h text fb c).
  assert (Hq : truthy (lastQuery (push answer pre)) = true).
  { cbn [lastQuery push set_messages]. rewrite Hlq.
    destruct text; [congruence|reflexivity]. }
  assert (E : completed h answer pre
              = set_sending false (refreshed h text (push answer pre))).
  { unfold completed. rewrite Hq. cbn [lastQuery push set_messages].
    rewrite Hlq. reflexivity. }
  assert (Hm : messages (completed h answer pre)
               = messages c
                   ++ {| role := user; content := text; error := None |}
                   :: (if wasMasked fb
                       then [ {| role := system; content := maskNote; error := None |} ]
                       else [])
                   ++ [answer]).
  { rewrite completed_messages. subst pre. rewrite submitted_messages.
    rewrite <- app_assoc. reflexivity. }
  assert (Hview : filteredMessages (completed h answer pre)
                  = computeFilteredHistory h (completed h answer pre) text).
  { rewrite E. reflexivity. }
  assert (Hpre : topicHitsPrototype (activeTopic pre) (faqCatalog pre) = false)
    by (subst pre; rewrite submitted_hitsPrototype; exact Hp).
  split; [exact Hask|]. split; [reflexivity|]. split; [reflexivity|].
  split.
  { pose proof (@send_cases_interleaved h (ask h rnd) [] c calls text
                  Hidle Hc Hne Hp) as Hs.
    cbv zeta in Hs. fold fb in Hs. fold pre in Hs. rewrite Hask in Hs.
    exact Hs. }
  split; [exact Hm|].
  split; [rewrite E; apply (submitted_fields h text fb c)|].
  split; [reflexivity|].
  split; [rewrite E; apply (submitted_fields h text fb c)|].
  split; [rewrite E; reflexivity|].
  split; [exact Hview|].
  split.
  { rewrite E. unfold refreshed, filteredFaqsOf.
    cbn [filteredFaqs set_sending set_filterMatches set_filteredMessages
         set_filteredFaqs].
    rewrite !computeFilteredFaqs_cases.
    cbn [activeTopic faqCatalog set_sending set_filterMatches
         set_filteredMessages set_filteredFaqs push set_messages].
    rewrite Hpre. reflexivity. }
  rewrite Hview. unfold computeFilteredHistory, buildFilterDataset.
  apply filter_In. split.
  - rewrite Hm. apply in_or_app. right. left. reflexivity.
  - cbn [role content isSystem andb]. rewrite andb_false_r.
    apply includes_refl.
Qed.

Lemma submit_with_mock_service_witness :
  let c := set_input (lit "rate limits") (onTopic (Some (lit "api")) initial) in
  exists answer c',
    ask browser 0 (lit "rate limits") (Some {| topic := Some (lit "api") |})
    = Fulfilled answer /\
    send browser (ask browser 0) (fun x => x) (world c)
    = Returned tt {| self := c';
                     ragCalls := [(lit "rate limits",
                                   Some {| topic := Some (lit "api") |})] |} /\
    sending c' = false /\ lastQuery c' = lit "rate limits".
Proof.
  intros c.
  assert (Hc : cleaned (filterInput (input c)) = Some (lit "rate limits"))
    by (vm_compute; reflexivity).
  assert (Hne : lit "rate limits" <> []) by discriminate.
  destruct (@submit_with_mock_service browser 0 c [] (lit "rate limits")
              eq_refl eq_refl eq_refl eq_refl Hc Hne)
    as [answer [c' [Ha [_ [_ [Hs [_ [_ [Hb [Hq _]]]]]]]]]].
  exists answer, c'. split; [exact Ha|]. split; [exact Hs|]. split; assumption.
Defined.

(** ** The topic callback *)

(** X12.  The callback of the topic subscription, called with a non-empty
    topic, appends exactly one system message, "Context updated to topic: "
    followed by the topic with its first hyphen replaced by a space; while
    that topic is active the message is part of the filtered transcript for
    every query.  Called with [null] or the empty string it appends nothing.
    In every case the topic becomes the active one, the filtered view is
    reset, and the input, the feedback and [sending] are untouched. *)
Theorem topic_callback_notes_the_change
  (h : Host) (topic : option jsstring) (c : ChatboxComponent) :
  let c' := onTopic topic c in
  activeTopic c' = topic /\
  filterMatches c' = false /\ filteredMessages c' = [] /\
  filteredFaqs c' = [] /\ lastQuery c' = [] /\
  sending c' = sending c /\ input c' = input c /\
  filterFeedback c' = filterFeedback c /\
  (forall t, topic = Some t -> truthy t = true ->
     messages c'
     = messages c
         ++ [ {| role := system;
                 content := lit "Context updated to topic: " ++ replaceFirst 45 32 t;
                 error := None |} ] /\
     forall q, In (contextNote t) (computeFilteredHistory h c' q)) /\
  (topic = None \/ topic = Some [] -> messages c' = messages c).
Proof.
  intros c'. destruct (onTopic_fields topic c)
    as [Ha [Hfm [Hfms [Hff [Hq [Hs [Hi [Hfb [_ Hm]]]]]]]]].
  subst c'. repeat split; try assumption.
  - subst topic. rewrite Hm, H0. reflexivity.
  - intros q. unfold computeFilteredHistory, buildFilterDataset.
    apply filter_In. split.
    + rewrite Hm. subst topic. rewrite H0. apply in_or_app. right. left. reflexivity.
    + rewrite Ha. subst topic. rewrite H0. cbn [andb].
      rewrite (contextNote_recordsTopicChange t). reflexivity.
  - intros [->| ->]; rewrite Hm; apply app_nil_r.
Qed.

Lemma topic_callback_notes_the_change_witness :
  let c' := onTopic (Some (lit "getting-started")) initial in
  messages c'
  = messages initial
      ++ [ {| role := system;
              content := lit "Context updated to topic: getting started";
              error := None |} ] /\
  In (contextNote (lit "getting-started"))
     (computeFilteredHistory browser c' (lit "no such text")).
Proof.
  intros c'.
  destruct (@topic_callback_notes_the_change browser
              (Some (lit "getting-started")) initial)
    as [_ [_ [_ [_ [_ [_ [_ [_ [Hnote _]]]]]]]]].
  destruct (Hnote (lit "getting-started") eq_refl eq_refl) as [Hm Hin].
  split; [exact Hm | apply Hin].
Defined.

(** ** The mock service *)

(** X13.  [ask] settles exactly on a host with [setTimeout].  There it is
    rejected, with the [TypeError] of [base.filter], exactly when the topic
    is one of the names every object inherits from [Object.prototype], and
    fulfilled for every other topic and without topic.  The value drawn by
    [Math.random] has no influence on the outcome. *)
Theorem ask_rejects_exactly_on_inherited_names
  (h : Host) (rnd rnd' : Q) (q : jsstring) (opts : option QueryOptions) :
  settled (ask h rnd q opts) = hasSetTimeout h /\
  ask h rnd q opts = ask h rnd' q opts /\
  (forall e, ask h rnd q opts = Rejected e <->
     hasSetTimeout h = true /\ e = baseError /\
     exists t, optTopic opts = Some t /\ In t objectPrototypeKeys) /\
  ((exists m, ask h rnd q opts = Fulfilled m) <->
     hasSetTimeout h = true /\
     forall t, optTopic opts = Some t -> ~ In t objectPrototypeKeys).
Proof.
  assert (Hhit : topicHitsPrototype (optTopic opts) mockKnowledgeBase = true
                 <-> exists t, optTopic opts = Some t /\ In t objectPrototypeKeys).
  { destruct (optTopic opts) as [t|]; cbn [topicHitsPrototype].
    - rewrite hitsPrototype_knowledge, inherited_In. split.
      + intros H. exists t. split; [reflexivity | exact H].
      + intros [t' [[= <-] H]]. exact H.
    - split; [discriminate|]. intros [t [E _]]. discriminate E. }
  rewrite !ask_eq.
  destruct (hasSetTimeout h);
    [destruct (topicHitsPrototype (optTopic opts) mockKnowledgeBase)|].
  - pose proof (proj1 Hhit eq_refl) as Hp.
    split; [reflexivity|]. split; [reflexivity|]. split.
    + intros e. split.
      * intros [= <-]. repeat split. exact Hp.
      * intros [_ [-> _]]. reflexivity.
    + split.
      * intros [m E]. discriminate E.
      * intros [_ H]. destruct Hp as [t [E Hin]]. exfalso. exact (H t E Hin).
  - split; [reflexivity|]. split; [reflexivity|]. split.
    + intros e. split; [discriminate|].
      intros [_ [_ H]]. apply Hhit in H. discriminate H.
    + split.
      * intros _. split; [reflexivity|]. intros t E Hin.
        assert (H : false = true) by (apply Hhit; exists t; split; assumption).
        discriminate H.
      * intros _. eexists. reflexivity.
  - split; [reflexivity|]. split; [reflexivity|]. split.
    + intros e. split; [discriminate|]. intros [H _]. discriminate H.
    + split; [intros [m E]; discriminate E | intros [H _]; discriminate H].
Qed.

Lemma includes_app_r (a b t : jsstring) :
  includes b t = true -> includes (a ++ b) t = true.
Proof.
  intros H. induction a as [|c a IH]; [exact H|].
  cbn [app]. apply includes_cons. exact IH.
Qed.

Lemma startsWith_app_l (t a b : jsstring) :
  startsWith t a = true -> startsWith t (a ++ b) = true.
Proof.
  revert a. induction t as [|x t IH]; intros a H.
  - destruct (a ++ b); reflexivity.
  - destruct a as [|c a]; [discriminate H|].
    cbn [startsWith app] in *. apply andb_true_iff in H as [Hx H].
    rewrite Hx. exact (IH _ H).
Qed.

Lemma includes_app_left (a b t : jsstring) :
  includes a t = true -> includes (a ++ b) t = true.
Proof.
  induction a as [|c a IH]; intros H.
  - destruct t as [|x t]; [apply includes_empty|discriminate H].
  - cbn [app includes] in *. apply orb_true_iff in H as [H|H].
    + pose proof (startsWith_app_l t (c :: a) b H) as E. cbn [app] in E.
      rewrite E. reflexivity.
    + rewrite (IH H). apply orb_true_r.
Qed.

Lemma includes_bulleted (docs : list jsstring) (d : jsstring) :
  In d docs ->
  includes (join [10] (map (fun x => bullet ++ x) docs)) d = true.
Proof.
  induction docs as [|p docs IH]; [intros []|].
  intros Hin. cbn [map join].
  destruct docs as [|p' docs].
  - destruct Hin as [->|[]]. apply includes_app_r, includes_refl.
  - destruct Hin as [->|Hin].
    + apply includes_app_left, includes_app_r, includes_refl.
    + apply includes_app_r, includes_app_r, IH, Hin.
Qed.

(** X14.  Whenever [ask] is fulfilled, the message has the role assistant
    and no error flag, and its content contains the label of the selected
    tool and every snippet that the retrieval returned, of which there is at
    least one. *)
Theorem answer_contains_tool_and_snippets
  (h : Host) (rnd : Q) (q : jsstring) (opts : option QueryOptions)
  (m : ChatMessage) :
  ask h rnd q opts = Fulfilled m ->
  role m = assistant /\ error m = None /\
  includes (content m) (selectMcpTool q) = true /\
  exists docs,
    retrieveFromChroma h q (optTopic opts) = Fulfilled docs /\
    docs <> [] /\
    forall d, In d docs -> includes (content m) d = true.
Proof.
  intros H. rewrite ask_eq in H.
  destruct (hasSetTimeout h) eqn:Ht; [|discriminate H].
  destruct (topicHitsPrototype (optTopic opts) mockKnowledgeBase) eqn:Hp;
    [discriminate H|].
  injection H as <-.
  cbn [role error content]. split; [reflexivity|]. split; [reflexivity|].
  split.
  - unfold synthesizeAnswer.
    apply includes_app_r, includes_app_r, includes_app_r, includes_app_l.
  - exists (Doc.retrievalWith Doc.firstSpaceToken h q (optTopic opts)).
    split; [rewrite retrieveFromChroma_eq, (delay_with_timer _ _ Ht), Hp;
            reflexivity|].
    split.
    + unfold Doc.retrievalWith.
      pose proof (bucketFor_nonempty (optTopic opts)) as Hne.
      destruct (filter _ (Doc.bucketFor (optTopic opts))); [|discriminate].
      destruct (Doc.bucketFor (optTopic opts)); [congruence|discriminate].
    + intros d Hd. unfold synthesizeAnswer.
      do 6 apply includes_app_r. apply includes_app_left.
      apply includes_bulleted. exact Hd.
Qed.

Lemma answer_contains_tool_and_snippets_witness :
  exists m,
    ask browser 0 (lit "invoice") (Some {| topic := Some (lit "account") |})
    = Fulfilled m /\
    includes (content m) (lit "billing.lookup") = true.
Proof.
  eexists. split.
  - apply ask_fulfilled; reflexivity.
  - exact (proj1 (proj2 (proj2
             (@answer_contains_tool_and_snippets browser 0 (lit "invoice")
                (Some {| topic := Some (lit "account") |}) _
                (ask_fulfilled browser 0 (lit "invoice")
                   (Some {| topic := Some (lit "account") |}) eq_refl eq_refl))))).
Defined.

(** ** Tool selection *)

Lemma startsWithCI_case (pat s1 s2 : jsstring) :
  sameUpToCase s1 s2 -> startsWithCI pat s1 = startsWithCI pat s2.
Proof.
  unfold sameUpToCase. revert s1 s2.
  induction pat as [|p pat IH]; intros s1 s2 H; [reflexivity|].
  destruct s1 as [|c1 s1], s2 as [|c2 s2]; try discriminate H; [reflexivity|].
  cbn [map] in H. injection H as Hc Hs.
  cbn [startsWithCI]. unfold eqCI. rewrite Hc, (IH _ _ Hs). reflexivity.
Qed.

Lemma testCI_case (pat s1 s2 : jsstring) :
  sameUpToCase s1 s2 -> testCI pat s1 = testCI pat s2.
Proof.
  revert s2. induction s1 as [|c1 s1 IH]; intros s2 H.
  - destruct s2; [reflexivity|discriminate H].
  - destruct s2 as [|c2 s2]; [discriminate H|].
    cbn [testCI]. rewrite (@startsWithCI_case pat (c1 :: s1) (c2 :: s2) H).
    unfold sameUpToCase in H. cbn [map] in H. injection H as _ Hs.
    rewrite (IH s2 Hs). reflexivity.
Qed.

Lemma testAnyCI_case (alts : list jsstring) (s1 s2 : jsstring) :
  sameUpToCase s1 s2 -> testAnyCI alts s1 = testAnyCI alts s2.
Proof.
  intros H. unfold testAnyCI.
  induction alts as [|k alts IH]; [reflexivity|].
  cbn [existsb]. rewrite (@testCI_case k s1 s2 H), IH. reflexivity.
Qed.

(** X15.  The selected tool does not depend on the case of the ASCII letters
    of the question. *)
Theorem tool_selection_ignores_case (q1 q2 : jsstring) :
  sameUpToCase q1 q2 -> selectMcpTool q1 = selectMcpTool q2.
Proof.
  intros H. unfold selectMcpTool.
  rewrite !(@testAnyCI_case _ q1 q2 H). reflexivity.
Qed.

Lemma tool_selection_ignores_case_witness :
  selectMcpTool (lit "My PAYMENT failed") = selectMcpTool (lit "my payment FAILED").
Proof.
  apply tool_selection_ignores_case. reflexivity.
Defined.

(** X16.  The tool is always one of the five labels, and a question in
    which [billing], [invoice] or [payment] occurs anywhere, in any case,
    gets [billing.lookup] whatever else it contains. *)
Theorem billing_keywords_win (q : jsstring) :
  In (selectMcpTool q)
     [lit "billing.lookup"; lit "api.docs.search"; lit "security.policy.fetch";
      lit "diagnostics.helper"; lit "knowledge.search"] /\
  forall k pre m post,
    In k [lit "billing"; lit "invoice"; lit "payment"] ->
    Doc.sameWordCI k m -> q = pre ++ m ++ post ->
    selectMcpTool q = lit "billing.lookup".
Proof.
  split.
  - unfold selectMcpTool.
    repeat match goal with
           | |- context [testAnyCI ?a ?s] => destruct (testAnyCI a s)
           end; cbn [In]; auto 6.
  - intros k pre m post Hk Hm ->.
    unfold selectMcpTool.
    assert (E : testAnyCI [lit "billing"; lit "invoice"; lit "payment"]
                  (pre ++ m ++ post) = true).
    { unfold testAnyCI. apply existsb_exists. exists k.
      split; [exact Hk | apply testCI_occurrence; exact Hm]. }
    rewrite E. reflexivity.
Qed.

Lemma billing_keywords_win_witness :
  selectMcpTool (lit "API key for Invoices") = lit "billing.lookup".
Proof.
  apply (proj2 (billing_keywords_win (lit "API key for Invoices"))
           (lit "invoice") (lit "API key for ") (lit "Invoice") (lit "s")).
  - right. left. reflexivity.
  - unfold Doc.sameWordCI. repeat constructor.
  - reflexivity.
Defined.

(** ** Retrieval *)

Lemma knowledge_buckets_have_two :
  Forall (fun kv => List.length (snd kv) = 2%nat) mockKnowledgeBase.
Proof. unfold mockKnowledgeBase. repeat constructor. Qed.

Lemma bucketFor_in_table (topic : option jsstring) :
  exists key,
    In (key, Doc.bucketFor topic) mockKnowledgeBase /\
    (key = lit "default" \/ topic = Some key).
Proof.
  assert (Hd : In (lit "default", Doc.defaultBucket) mockKnowledgeBase)
    by (apply lookup_In, lookup_default_knowledge).
  unfold Doc.bucketFor. destruct topic as [t|]; [|exists (lit "default"); auto].
  destruct (lookup t mockKnowledgeBase) as [[|s b]|] eqn:Hl;
    try solve [exists (lit "default"); split; [exact Hd | left; reflexivity]].
  exists t. split; [apply lookup_In, Hl | auto].
Qed.

(** X17.  Whatever retrieval returns comes from a single bucket of the
    knowledge base, the one of the topic or the default one, in the order of
    the bucket, and consists of one or two snippets. *)
Theorem retrieval_reads_one_bucket
  (h : Host) (q : jsstring) (topic : option jsstring) (docs : list jsstring) :
  retrieveFromChroma h q topic = Fulfilled docs ->
  exists key bucket,
    In (key, bucket) mockKnowledgeBase /\
    (key = lit "default" \/ topic = Some key) /\
    (exists f, docs = filter f bucket) /\
    (1 <= List.length docs <= 2)%nat.
Proof.
  intros H. rewrite retrieveFromChroma_eq in H.
  destruct (delay h 200); try discriminate H. cbn [await] in H.
  destruct (topicHitsPrototype topic mockKnowledgeBase); [discriminate H|].
  injection H as <-.
  destruct (bucketFor_in_table topic) as [key [Hin Hkey]].
  exists key, (Doc.bucketFor topic). split; [exact Hin|]. split; [exact Hkey|].
  pose proof knowledge_buckets_have_two as F. rewrite Forall_forall in F.
  specialize (F _ Hin). cbn [snd] in F.
  unfold Doc.retrievalWith.
  destruct (filter _ (Doc.bucketFor topic)) as [|d kept] eqn:Ef.
  - destruct (Doc.bucketFor topic) as [|d1 [|d2 [|d3 l]]]; try discriminate F.
    split; [exists (fun _ => true); reflexivity|]. cbn. lia.
  - split.
    + eexists. rewrite <- Ef. reflexivity.
    + pose proof (filter_length_le
                    (fun s => includes (toLowerCase h s)
                                (Doc.firstSpaceToken (toLowerCase h q)))
                    (Doc.bucketFor topic)) as L.
      rewrite Ef in L. cbn [List.length] in *. lia.
Qed.

Lemma retrieval_reads_one_bucket_witness :
  exists key bucket,
    In (key, bucket) mockKnowledgeBase /\
    (key = lit "default" \/ Some (lit "security") = Some key) /\
    (exists f, [lit "We support SSO, MFA, and granular role-based access control."]
               = filter f bucket) /\
    (1 <= 1 <= 2)%nat.
Proof.
  apply (@retrieval_reads_one_bucket browser (lit "sso login")
           (Some (lit "security"))
           [lit "We support SSO, MFA, and granular role-based access control."]).
  vm_compute. reflexivity.
Defined.

(** ** What a subscriber of the bridge receives *)

(** X18.  A subscriber is called at once with the value current when it
    subscribes, and then with every value published afterwards, in the order
    of publication and with none left out, for as long as it is not
    unsubscribed. *)
Theorem subscriber_receives_every_later_value (ops1 ops2 : list Op) :
  let svc1 := run ops1 newTopicsBridgeService in
  let i := fst (subscribeTopic svc1) in
  let svc2 := snd (subscribeTopic svc1) in
  Shell.keeps i ops2 = true ->
  Shell.receivedBy i (run ops2 svc2)
  = Some (current svc1 :: Shell.published ops2).
Proof.
  intros svc1 i svc2 Hk.
  change (current svc1 :: Shell.published ops2)
    with ([current svc1] ++ Shell.published ops2).
  apply receivedBy_run;
    [| subst svc2 i;
       cbn [subscribeTopic subscribe snd fst topicSubject nextId]; lia
     | exact Hk].
  unfold Shell.receivedBy, subscribers. subst svc2 i.
  cbn [subscribeTopic subscribe snd fst topicSubject observers].
  rewrite find_app_fresh.
  - cbn [find subId]. rewrite Nat.eqb_refl. reflexivity.
  - apply (fresh_ids_run ops1 newTopicsBridgeService). constructor.
Qed.

Lemma subscriber_receives_every_later_value_witness :
  let svc1 := run [OpSubscribe; OpSetTopic (Some (lit "api"))]
                  newTopicsBridgeService in
  Shell.receivedBy (fst (subscribeTopic svc1))
    (run [OpSetTopic None; OpUnsubscribe 0; OpSetTopic (Some (lit "account"))]
         (snd (subscribeTopic svc1)))
  = Some [Some (lit "api"); None; Some (lit "account")].
Proof.
  exact (@subscriber_receives_every_later_value
           [OpSubscribe; OpSetTopic (Some (lit "api"))]
           [OpSetTopic None; OpUnsubscribe 0; OpSetTopic (Some (lit "account"))]
           eq_refl).
Defined.

(** ** The chat component behind the bridge *)

Lemma chatAfter_fields (log : list Topic) (c : ChatboxComponent) :
  sending (Shell.chatAfter log c) = sending c /\
  input (Shell.chatAfter log c) = input c /\
  messages (Shell.chatAfter log c)
  = messages c
      ++ flat_map (fun t => match t with
                            | Some s => if truthy s then [contextNote s] else []
                            | None => []
                            end) log.
Proof.
  unfold Shell.chatAfter. revert c.
  induction log as [|t log IH]; intros c; cbn [fold_left flat_map].
  - rewrite app_nil_r. repeat split.
  - destruct (IH (onTopic t c)) as [Hs [Hi Hm]].
    destruct (onTopic_fields t c) as [_ [_ [_ [_ [_ [Hs' [Hi' [_ [_ Hm']]]]]]]]].
    rewrite Hs, Hi, Hm, Hs', Hi', Hm', <- app_assoc. repeat split.
Qed.

(** X19.  The chat component follows the bridge: with the callback of its
    constructor called for each value its subscription has received, its
    active topic is the current value of the bridge; its transcript has
    gained one note for each non-empty topic received, in order, and nothing
    else; [sending] and the input field are as they were. *)
Theorem chat_follows_the_bridge
  (ops : list Op) (sub : Subscriber) (c : ChatboxComponent) :
  In sub (subscribers (run ops newTopicsBridgeService)) ->
  let c' := Shell.chatAfter (received sub) c in
  activeTopic c' = current (run ops newTopicsBridgeService) /\
  messages c'
  = messages c
      ++ flat_map (fun t => match t with
                            | Some s => if truthy s then [contextNote s] else []
                            | None => []
                            end) (received sub) /\
  sending c' = sending c /\ input c' = input c.
Proof.
  intros Hin c'.
  destruct (chatAfter_fields (received sub) c) as [Hs [Hi Hm]].
  split; [|split; [exact Hm|split; assumption]].
  assert (U : upToDate (run ops newTopicsBridgeService))
    by (apply upToDate_run; constructor).
  unfold upToDate in U. rewrite Forall_forall in U.
  destruct (U _ Hin) as [before E].
  subst c'. unfold Shell.chatAfter. rewrite E, fold_left_app.
  cbn [fold_left]. apply onTopic_fields.
Qed.

Lemma chat_follows_the_bridge_witness :
  let ops := [OpSubscribe; OpSetTopic (Some (lit "api"))] in
  let sub := {| subId := 0;
                received := [Some (lit "getting-started"); Some (lit "api")] |} in
  activeTopic (Shell.chatAfter (received sub) initial) = Some (lit "api").
Proof.
  intros ops sub.
  apply (@chat_follows_the_bridge ops sub initial).
  left. reflexivity.
Defined.

(** ** The topics of the sidebar *)

Lemma sidebar_topics_checked :
  forallb (fun e =>
    truthy (Sidebar.id e)
    && match lookup (Sidebar.id e) mockKnowledgeBase with
       | Some (_ :: _) => true
       | _ => false
       end
    && match lookup (Sidebar.id e) initialFaqCatalog with
       | Some (_ :: _) => true
       | _ => false
       end) (Sidebar.topics Sidebar.initial) = true.
Proof. vm_compute. reflexivity. Qed.

(** X20.  Every topic the sidebar offers has a non-empty bucket of its own
    in the knowledge base of the service and in the FAQ catalog of the chat
    component, so that no topic of the sidebar is answered from the default
    bucket; selecting it makes it the active entry of the sidebar and, relayed
    by the shell, the current value of the bridge.  The entry active at start
    is the seed of the bridge. *)
Theorem sidebar_topics_have_their_buckets
  (e : Sidebar.TopicEntry) (s : Sidebar.SidebarTopicsComponent)
  (svc : TopicsBridgeService) :
  In e (Sidebar.topics Sidebar.initial) ->
  (exists b, lookup (Sidebar.id e) mockKnowledgeBase = Some b /\ b <> [] /\
             Doc.bucketFor (Some (Sidebar.id e)) = b) /\
  (exists f, lookup (Sidebar.id e) initialFaqCatalog = Some f /\ f <> []) /\
  Sidebar.active (fst (Sidebar.selectTopic (Sidebar.id e) s)) = Sidebar.id e /\
  current (Shell.onTopicSelected (snd (Sidebar.selectTopic (Sidebar.id e) s)) svc)
  = Some (Sidebar.id e) /\
  current newTopicsBridgeService = Some (Sidebar.active Sidebar.initial).
Proof.
  intros Hin. pose proof sidebar_topics_checked as H.
  rewrite forallb_forall in H. specialize (H _ Hin).
  apply andb_true_iff in H as [H Hf]. apply andb_true_iff in H as [_ Hk].
  split; [|split; [|repeat split]].
  - unfold Doc.bucketFor.
    destruct (lookup (Sidebar.id e) mockKnowledgeBase) as [[|x b]|];
      try discriminate Hk.
    exists (x :: b). repeat split. discriminate.
  - destruct (lookup (Sidebar.id e) initialFaqCatalog) as [[|x f]|];
      try discriminate Hf.
    exists (x :: f). split; [reflexivity|discriminate].
Qed.

Lemma sidebar_topics_have_their_buckets_witness :
  exists b,
    lookup (lit "troubleshooting") mockKnowledgeBase = Some b /\ b <> [] /\
    Doc.bucketFor (Some (lit "troubleshooting")) = b.
Proof.
  refine (proj1 (@sidebar_topics_have_their_buckets
                   (Sidebar.mkTopic "troubleshooting" "Troubleshooting" 7)
                   Sidebar.initial newTopicsBridgeService _)).
  simpl. tauto.
Defined.

(** ** Live filtering *)

Lemma updateLiveFilters_eq (h : Host) (q : jsstring) (w : World) :
  LiveFilter.updateLiveFilters h q w
  = let c1 := set_filterFeedback (feedback (filterInput q)) (self w) in
    match cleaned (filterInput q) with
    | None | Some [] =>
        Returned tt {| self := resetFilterView c1; ragCalls := ragCalls w |}
    | Some text =>
        if topicHitsPrototype (activeTopic (self w)) (faqCatalog (self w))
        then Threw faqsError
               {| self := set_lastQuery text c1; ragCalls := ragCalls w |}
        else Returned tt {| self := refreshed h text (set_lastQuery text c1);
                            ragCalls := ragCalls w |}
    end.
Proof.
  unfold LiveFilter.updateLiveFilters.
  destruct (cleaned (filterInput q)) as [[|x t]|]; try reflexivity.
  unfold bind, modify, eval, gets, refreshed, filteredFaqsOf.
  cbn [self ragCalls]. rewrite computeFilteredFaqs_cases.
  cbn [activeTopic faqCatalog set_lastQuery set_filterFeedback].
  destruct (topicHitsPrototype (activeTopic (self w)) (faqCatalog (self w)));
    reflexivity.
Qed.

Lemma onInputChanged_eq (h : Host) (v : jsstring) (c : ChatboxComponent)
  (calls : list (jsstring * option QueryOptions)) :
  LiveFilter.onInputChanged h v {| self := c; ragCalls := calls |}
  = LiveFilter.updateLiveFilters h v {| self := set_input v c; ragCalls := calls |}.
Proof. reflexivity. Qed.

Lemma accepted_iff_not_angles (v : jsstring) :
  match cleaned (filterInput v) with
  | None | Some [] => forallb isAngle (trim (collapseSpaces v)) = true
  | Some (_ :: _) => forallb isAngle (trim (collapseSpaces v)) = false
  end.
Proof.
  unfold filterInput. set (t := trim (collapseSpaces v)).
  destruct t as [|x t'] eqn:Et; [reflexivity|]. cbn [truthy negb].
  destruct (testWords banned (x :: t')) eqn:Hw; cbn [cleaned].
  - pose proof (masked_text_nonempty (x :: t') Hw) as Hne.
    destruct (replaceWords banned maskToken (x :: t')) as [|y q]; [congruence|].
    destruct (forallb isAngle (x :: t')) eqn:Ha; [|reflexivity].
    exfalso.
    assert (Hw' : testWords banned (x :: t') = false).
    { apply testWordsFrom_nonword; [exact banned_letterWords|].
      clear -Ha. induction (x :: t') as [|z l IH]; [reflexivity|].
      cbn [forallb] in *. apply andb_true_iff in Ha as [Hz Ha].
      rewrite (angle_not_word _ Hz). exact (IH Ha). }
    congruence.
  - destruct (stripAngles (x :: t')) as [|y q] eqn:Es.
    + apply stripAngles_nil in Es. exact Es.
    + destruct (forallb isAngle (x :: t')) eqn:Ha; [|reflexivity].
      apply stripAngles_nil in Ha. congruence.
Qed.

(** X21.  Where the filtered view can be refreshed, the live filter depends
    on the latest input only: typing [v1] and then [v2] leaves the component
    exactly as typing [v2] at once.  Typing never changes the transcript, the
    active topic or [sending], and the view is filtered exactly when the
    input is one that [send] would accept.  Where the view cannot be
    refreshed, typing an input that [send] would accept throws after the
    input, the feedback and the last query have been updated, the filtered
    view staying as it was. *)
Theorem live_filter_follows_latest_input
  (h : Host) (v1 v2 : jsstring) (c : ChatboxComponent)
  (calls : list (jsstring * option QueryOptions)) :
  (topicHitsPrototype (activeTopic c) (faqCatalog c) = false ->
   exists c1,
     LiveFilter.onInputChanged h v1 {| self := c; ragCalls := calls |}
     = Returned tt {| self := c1; ragCalls := calls |} /\
     LiveFilter.onInputChanged h v2 {| self := c1; ragCalls := calls |}
     = LiveFilter.onInputChanged h v2 {| self := c; ragCalls := calls |} /\
     messages c1 = messages c /\ activeTopic c1 = activeTopic c /\
     sending c1 = sending c /\ input c1 = v1 /\
     filterMatches c1 = negb (forallb isAngle (trim (collapseSpaces v1)))) /\
  (topicHitsPrototype (activeTopic c) (faqCatalog c) = true ->
   forallb isAngle (trim (collapseSpaces v1)) = false ->
   exists c1 text,
     LiveFilter.onInputChanged h v1 {| self := c; ragCalls := calls |}
     = Threw faqsError {| self := c1; ragCalls := calls |} /\
     cleaned (filterInput v1) = Some text /\
     input c1 = v1 /\ lastQuery c1 = text /\
     filterFeedback c1 = feedback (filterInput v1) /\
     filterMatches c1 = filterMatches c /\
     filteredMessages c1 = filteredMessages c /\
     filteredFaqs c1 = filteredFaqs c /\
     messages c1 = messages c).
Proof.
  split.
  - intros Hp.
    assert (Hstep : forall v c0,
              activeTopic c0 = activeTopic c -> faqCatalog c0 = faqCatalog c ->
              LiveFilter.onInputChanged h v {| self := c0; ragCalls := calls |}
              = Returned tt
                  {| self :=
                       let c1 := set_filterFeedback (feedback (filterInput v))
                                   (set_input v c0) in
                       match cleaned (filterInput v) with
                       | None | Some [] => resetFilterView c1
                       | Some text => refreshed h text (set_lastQuery text c1)
                       end;
                     ragCalls := calls |}).
    { intros v c0 Ha Hc. rewrite onInputChanged_eq, updateLiveFilters_eq.
      cbn [self ragCalls activeTopic faqCatalog set_input]. rewrite Ha, Hc, Hp.
      destruct (cleaned (filterInput v)) as [[|x t]|]; reflexivity. }
    eexists. split; [apply Hstep; reflexivity|].
    split; [|split; [|split; [|split; [|split]]]].
    + rewrite !Hstep; try reflexivity.
      * destruct c.
        destruct (cleaned (filterInput v1)) as [[|x1 t1]|];
          destruct (cleaned (filterInput v2)) as [[|x2 t2]|]; reflexivity.
      * destruct (cleaned (filterInput v1)) as [[|x1 t1]|]; reflexivity.
      * destruct (cleaned (filterInput v1)) as [[|x1 t1]|]; reflexivity.
    + destruct (cleaned (filterInput v1)) as [[|x1 t1]|]; reflexivity.
    + destruct (cleaned (filterInput v1)) as [[|x1 t1]|]; reflexivity.
    + destruct (cleaned (filterInput v1)) as [[|x1 t1]|]; reflexivity.
    + destruct (cleaned (filterInput v1)) as [[|x1 t1]|]; reflexivity.
    + pose proof (accepted_iff_not_angles v1) as Hacc.
      destruct (cleaned (filterInput v1)) as [[|x1 t1]|];
        rewrite Hacc; reflexivity.
  - intros Hp Ha.
    pose proof (accepted_iff_not_angles v1) as Hacc.
    destruct (cleaned (filterInput v1)) as [[|x1 t1]|] eqn:Hc;
      try (rewrite Hacc in Ha; discriminate Ha).
    eexists. exists (x1 :: t1). split.
    + rewrite onInputChanged_eq, updateLiveFilters_eq.
      cbn [self ragCalls activeTopic faqCatalog set_input]. rewrite Hp, Hc.
      reflexivity.
    + repeat split.
Qed.

Lemma live_filter_follows_latest_input_witness :
  exists c1,
    LiveFilter.onInputChanged browser (lit "rate") (world initial)
    = Returned tt (world c1) /\
    LiveFilter.onInputChanged browser (lit "key") (world c1)
    = LiveFilter.onInputChanged browser (lit "key") (world initial) /\
    filterMatches c1 = true.
Proof.
  destruct (proj1 (@live_filter_follows_latest_input browser (lit "rate")
                     (lit "key") initial []) eq_refl)
    as [c1 [H1 [H2 [_ [_ [_ [_ Hf]]]]]]].
  exists c1. split; [exact H1|]. split; [exact H2|]. exact Hf.
Defined.

(** X22.  In the revision with live filtering, a change of topic while
    there is text in the input field ends exactly as the callback without
    live filtering followed by typing the same input again: the view is
    recomputed for the new topic, or the recomputation throws.  With a blank
    input field the callback is the one without live filtering. *)
Theorem live_topic_change_refilters
  (h : Host) (topic : option jsstring) (c : ChatboxComponent)
  (calls : list (jsstring * option QueryOptions)) :
  (truthy (trim (input c)) = true ->
   LiveFilter.onTopic h topic {| self := c; ragCalls := calls |}
   = LiveFilter.onInputChanged h (input c)
       {| self := Chatbox.onTopic topic c; ragCalls := calls |}) /\
  (truthy (trim (input c)) = false ->
   LiveFilter.onTopic h topic {| self := c; ragCalls := calls |}
   = Returned tt {| self := Chatbox.onTopic topic c; ragCalls := calls |}).
Proof.
  assert (E : LiveFilter.onTopic h topic {| self := c; ragCalls := calls |}
              = if truthy (input c) && truthy (trim (input c))
                then LiveFilter.updateLiveFilters h (input c)
                       {| self := Chatbox.onTopic topic c; ragCalls := calls |}
                else Returned tt {| self := Chatbox.onTopic topic c;
                                    ragCalls := calls |}).
  { unfold LiveFilter.onTopic, Chatbox.onTopic, bind, modify, gets, when, ret.
    cbn [self ragCalls].
    destruct topic as [t|]; [destruct (truthy t)|];
      cbn [self ragCalls input push set_messages resetFilterView set_lastQuery
           set_filteredFaqs set_filteredMessages set_filterMatches
           set_activeTopic];
      destruct (truthy (input c) && truthy (trim (input c))); reflexivity. }
  split; intros Ht; rewrite E, Ht.
  - assert (Hin : truthy (input c) = true)
      by (destruct (input c); [discriminate Ht|reflexivity]).
    rewrite Hin. cbn [andb]. rewrite onInputChanged_eq.
    assert (Es : set_input (input c) (Chatbox.onTopic topic c)
                 = Chatbox.onTopic topic c).
    { unfold Chatbox.onTopic.
      destruct topic as [t|]; [destruct (truthy t)|]; destruct c; reflexivity. }
    rewrite Es. reflexivity.
  - rewrite andb_false_r. reflexivity.
Qed.

Lemma live_topic_change_refilters_witness :
  let c := set_input (lit "rate") initial in
  LiveFilter.onTopic browser (Some (lit "api")) (world c)
  = LiveFilter.onInputChanged browser (lit "rate")
      (world (Chatbox.onTopic (Some (lit "api")) c)) /\
  LiveFilter.onTopic browser (Some (lit "api")) (world initial)
  = Returned tt (world (Chatbox.onTopic (Some (lit "api")) initial)).
Proof.
  intros c. split.
  - exact (proj1 (@live_topic_change_refilters browser (Some (lit "api")) c [])
             eq_refl).
  - exact (proj2 (@live_topic_change_refilters browser (Some (lit "api"))
                    initial []) eq_refl).
Defined.

(** ** The component on a host without timers *)

(** X23.  On a host without [setTimeout] the first accepted submit that
    gets past the refresh of the filtered view never completes: [send] stays
    suspended on the mock service with [sending] set, the transcript having
    gained the user message (and the masking note) but neither an answer nor
    the error message, and every later submit returns at once without any
    effect. *)
Theorem submit_never_completes_without_setTimeout
  (h : Host) (rnd : Q) (during : ChatboxComponent -> ChatboxComponent)
  (c : ChatboxComponent) (calls : list (jsstring * option QueryOptions))
  (text : jsstring) :
  hasSetTimeout h = false ->
  sending c = false ->
  cleaned (filterInput (input c)) = Some text -> text <> [] ->
  topicHitsPrototype (activeTopic c) (faqCatalog c) = false ->
  let pre := submitted h text (feedback (filterInput (input c))) c in
  let w := {| self := pre;
              ragCalls := calls ++ [(text, Some {| topic := activeTopic c |})] |} in
  send h (ask h rnd) during {| self := c; ragCalls := calls |} = Suspended w /\
  sending pre = true /\
  messages pre
  = messages c ++ {| role := user; content := text; error := None |}
      :: (if wasMasked (feedback (filterInput (input c)))
          then [ {| role := system; content := maskNote; error := None |} ]
          else []) /\
  forall (rnd' : Q) (during' : ChatboxComponent -> ChatboxComponent),
    send h (ask h rnd') during' w = Returned tt w.
Proof.
  intros Ht Hidle Hc Hne Hp pre w.
  assert (Hpend : forall r q o, ask h r q o = Pending).
  { intros r q o. rewrite ask_eq, Ht. reflexivity. }
  assert (Hs : sending pre = true) by apply submitted_fields.
  split; [|split; [exact Hs|split; [apply submitted_messages|]]].
  - exact (@send_pending h (ask h rnd) during c calls text Hidle Hc Hne Hp
             (Hpend _ _ _)).
  - intros rnd' during'. apply send_busy. exact Hs.
Qed.

Lemma submit_never_completes_without_setTimeout_witness :
  let c := set_input (lit "hello") initial in
  exists w,
    send ssr (ask ssr 0) (fun x => x) (world c) = Suspended w /\
    sending (self w) = true /\
    send ssr (ask ssr 0) (fun x => x) w = Returned tt w.
Proof.
  intros c.
  assert (Hc : cleaned (filterInput (input c)) = Some (lit "hello"))
    by (vm_compute; reflexivity).
  assert (Hne : lit "hello" <> []) by discriminate.
  destruct (@submit_never_completes_without_setTimeout ssr 0 (fun x => x)
              c [] (lit "hello") eq_refl eq_refl Hc Hne eq_refl)
    as [Hs [Hb [_ Hno]]].
  eexists. split; [exact Hs|]. split; [exact Hb|]. apply Hno.
Defined.

(** ** A topic named like a member of [Object.prototype] *)

(** X24.  When the active topic is the name of a property that the catalog
    inherits without owning it, a submit of an accepted input throws the
    [TypeError] of [faqs.filter] before [sending] is set: the service is not
    called, the transcript and the input field are as they were, the
    feedback and the last query are those of the input while the filtered
    view is the old one.  Submitting again throws again and changes nothing;
    after a change to a topic that the catalog can read, the same input is
    sent. *)
Theorem submit_throws_on_inherited_topic
  (h : Host) (rag : RagService) (during : ChatboxComponent -> ChatboxComponent)
  (c : ChatboxComponent) (calls : list (jsstring * option QueryOptions))
  (text : jsstring) :
  sending c = false ->
  cleaned (filterInput (input c)) = Some text -> text <> [] ->
  topicHitsPrototype (activeTopic c) (faqCatalog c) = true ->
  exists c',
    send h rag during {| self := c; ragCalls := calls |}
    = Threw faqsError {| self := c'; ragCalls := calls |} /\
    messages c' = messages c /\ input c' = input c /\ sending c' = false /\
    activeTopic c' = activeTopic c /\
    lastQuery c' = text /\
    filterFeedback c' = feedback (filterInput (input c)) /\
    filterMatches c' = filterMatches c /\
    filteredMessages c' = filteredMessages c /\
    filteredFaqs c' = filteredFaqs c /\
    (forall (rag' : RagService) (during' : ChatboxComponent -> ChatboxComponent),
       send h rag' during' {| self := c'; ragCalls := calls |}
       = Threw faqsError {| self := c'; ragCalls := calls |}) /\
    (forall (t' : option jsstring) (rag' : RagService)
            (during' : ChatboxComponent -> ChatboxComponent),
       topicHitsPrototype t' (faqCatalog c) = false ->
       ragCalls (finalWorld (send h rag' during'
                               {| self := onTopic t' c'; ragCalls := calls |}))
       = calls ++ [(text, Some {| topic := t' |})]).
Proof.
  intros Hidle Hc Hne Hp.
  set (c' := set_lastQuery text
               (set_filterFeedback (feedback (filterInput (input c))) c)).
  exists c'.
  split; [exact (@send_throws h rag during c calls text Hidle Hc Hne Hp)|].
  do 9 (split; [try reflexivity; exact Hidle|]).
  split.
  - intros rag' during'.
    assert (Hc' : cleaned (filterInput (input c')) = Some text) by exact Hc.
    rewrite (@send_throws h rag' during' c' calls text Hidle Hc' Hne Hp).
    subst c'. destruct c. reflexivity.
  - intros t' rag' during' Ht'.
    destruct (onTopic_fields t' c')
      as [Ha [_ [_ [_ [_ [Hs [Hi [_ [Hcat _]]]]]]]]].
    pose proof (@send_calls_service h rag' during' (onTopic t' c') calls text)
      as Hsend.
    rewrite Ha, Hs, Hi, Hcat in Hsend.
    exact (Hsend Hidle Hc Hne Ht').
Qed.

Lemma submit_throws_on_inherited_topic_witness :
  let c := set_input (lit "hello") (onTopic (Some (lit "toString")) initial) in
  exists c',
    send browser (ask browser 0) (fun x => x) (world c)
    = Threw faqsError (world c') /\
    messages c' = messages c /\ sending c' = false /\
    ragCalls (finalWorld (send browser (ask browser 0) (fun x => x)
                            (world (onTopic (Some (lit "api")) c'))))
    = [(lit "hello", Some {| topic := Some (lit "api") |})].
Proof.
  intros c.
  assert (Hc : cleaned (filterInput (input c)) = Some (lit "hello"))
    by (vm_compute; reflexivity).
  assert (Hne : lit "hello" <> []) by discriminate.
  destruct (@submit_throws_on_inherited_topic browser (ask browser 0)
              (fun x => x) c [] (lit "hello") eq_refl Hc Hne eq_refl)
    as [c' [Hs [Hm [_ [Hb [_ [_ [_ [_ [_ [_ [_ Hrec]]]]]]]]]]]].
  exists c'. split; [exact Hs|]. split; [exact Hm|]. split; [exact Hb|].
  exact (Hrec (Some (lit "api")) (ask browser 0) (fun x => x) eq_refl).
Defined.

(** ** The application as it is wired *)

Lemma last_cons {A : Type} (x d : A) (l : list A) :
  last (x :: l) d = last l x.
Proof.
  revert x d. induction l as [|y l IH]; intros x d; [reflexivity|].
  change (last (x :: y :: l) d) with (last (y :: l) d).
  rewrite (IH y d), (IH y x). reflexivity.
Qed.

Lemma chatAfter_topic (log : list Topic) (c : ChatboxComponent) :
  activeTopic (Shell.chatAfter log c) = last log (activeTopic c) /\
  faqCatalog (Shell.chatAfter log c) = faqCatalog c.
Proof.
  unfold Shell.chatAfter. revert c.
  induction log as [|t log IH]; intros c; [split; reflexivity|].
  cbn [fold_left]. destruct (IH (onTopic t c)) as [Ha Hc].
  destruct (onTopic_fields t c) as [Ha' [_ [_ [_ [_ [_ [_ [_ [Hc' _]]]]]]]]].
  rewrite Ha, Hc, Ha', Hc', last_cons. split; reflexivity.
Qed.

Lemma sidebar_ids_not_inherited :
  forallb (fun e => negb (inherited (Sidebar.id e)))
          (Sidebar.topics Sidebar.initial) = true.
Proof. vm_compute. reflexivity. Qed.

Lemma afterSelecting_run (es : list Sidebar.TopicEntry) (svc : TopicsBridgeService) :
  Shell.afterSelecting es svc
  = run (map (fun e => OpSetTopic (Some (Sidebar.id e))) es) svc.
Proof.
  unfold Shell.afterSelecting, run. revert svc.
  induction es as [|e es IH]; intros svc; [reflexivity|].
  cbn [fold_left map]. apply IH.
Qed.

Lemma received_after_selecting (es : list Sidebar.TopicEntry) :
  Shell.receivedBy (fst (subscribeTopic newTopicsBridgeService))
    (Shell.afterSelecting es (snd (subscribeTopic newTopicsBridgeService)))
  = Some (Some (lit "getting-started") :: map (fun e => Some (Sidebar.id e)) es).
Proof.
  rewrite afterSelecting_run.
  replace (map (fun e => Some (Sidebar.id e)) es)
    with (Shell.published (map (fun e => OpSetTopic (Some (Sidebar.id e))) es))
    by (induction es as [|e es IH]; [reflexivity|];
        cbn [map Shell.published]; rewrite IH; reflexivity).
  change (Some (lit "getting-started") :: ?l)
    with ([Some (lit "getting-started")] ++ l).
  apply receivedBy_run.
  - reflexivity.
  - cbn. lia.
  - induction es as [|e es IH]; [reflexivity|]. exact IH.
Qed.

(** X25.  In the application as it is wired the active topic of the chat
    component is the seed of the bridge or an entry of the sidebar, none of
    which is named like a member of [Object.prototype]: after any sequence
    of selections in the sidebar the bucket of the active topic can be read
    in the catalog and in the knowledge base, and a submit of whatever was
    typed never throws, whatever the service answers and whatever happens
    while [send] is suspended. *)
Theorem sidebar_topics_never_throw (es : list Sidebar.TopicEntry) :
  Forall (fun e => In e (Sidebar.topics Sidebar.initial)) es ->
  exists c,
    Shell.chatAfterSelecting es = Some c /\
    (exists e, In e (Sidebar.topics Sidebar.initial) /\
               activeTopic c = Some (Sidebar.id e)) /\
    topicHitsPrototype (activeTopic c) (faqCatalog c) = false /\
    topicHitsPrototype (activeTopic c) mockKnowledgeBase = false /\
    forall (h : Host) (rag : RagService) (evs : list Event) (v : jsstring)
           (calls : list (jsstring * option QueryOptions)) (e : JsError) (w : World),
      send h rag (interleaved evs) {| self := set_input v c; ragCalls := calls |}
      <> Threw e w.
Proof.
  intros Hes.
  set (log := Some (lit "getting-started") :: map (fun e => Some (Sidebar.id e)) es).
  exists (Shell.chatAfter log initial).
  assert (Hchat : Shell.chatAfterSelecting es = Some (Shell.chatAfter log initial)).
  { unfold Shell.chatAfterSelecting.
    pose proof (received_after_selecting es) as Hr.
    destruct (subscribeTopic newTopicsBridgeService) as [i svc].
    cbn [fst snd] in Hr. rewrite Hr. reflexivity. }
  set (c := Shell.chatAfter log initial).
  destruct (chatAfter_topic log initial) as [Ha Hcat].
  fold c in Ha, Hcat.
  assert (Hsel : exists e, In e (Sidebar.topics Sidebar.initial) /\
                           activeTopic c = Some (Sidebar.id e)).
  { rewrite Ha. subst log. rewrite last_cons. clear Ha Hcat Hchat c.
    assert (Hseed : exists e, In e (Sidebar.topics Sidebar.initial) /\
                      Some (lit "getting-started") = Some (Sidebar.id e)).
    { exists (Sidebar.mkTopic "getting-started" "Getting Started" 8).
      split; [left; reflexivity | reflexivity]. }
    revert Hseed. generalize (Some (lit "getting-started")).
    induction Hes as [|e es He _ IH]; intros d Hd; [exact Hd|].
    cbn [map]. rewrite last_cons. apply IH.
    exists e. split; [exact He | reflexivity]. }
  assert (Hni : forall table : list (jsstring * list Faq),
            table = initialFaqCatalog ->
            topicHitsPrototype (activeTopic c) table = false).
  { intros table ->. destruct Hsel as [e [He ->]]. cbn [topicHitsPrototype].
    rewrite hitsPrototype_initial_catalog.
    pose proof sidebar_ids_not_inherited as H.
    rewrite forallb_forall in H. apply negb_true_iff. exact (H _ He). }
  assert (Hp : topicHitsPrototype (activeTopic c) (faqCatalog c) = false)
    by (apply Hni; exact Hcat).
  split; [exact Hchat|]. split; [exact Hsel|]. split; [exact Hp|].
  split; [rewrite tables_agree; apply Hni; reflexivity|].
  intros h rag evs v calls e w.
  assert (Hidle : sending (set_input v c) = false).
  { cbn [sending set_input]. subst c.
    rewrite (proj1 (chatAfter_fields _ _)). reflexivity. }
  rewrite (send_cases h rag (interleaved evs) (set_input v c) calls Hidle).
  destruct (cleaned (filterInput (input (set_input v c)))) as [[|x t]|];
    try discriminate.
  cbv zeta. cbn [activeTopic faqCatalog set_input]. rewrite Hp.
  destruct (rag _ _); try discriminate;
    rewrite interleaved_quiet
      by (rewrite submitted_hitsPrototype; exact Hp);
    discriminate.
Qed.

Lemma sidebar_topics_never_throw_witness :
  exists c,
    Shell.chatAfterSelecting
      [Sidebar.mkTopic "api" "API & Integrations" 9;
       Sidebar.mkTopic "security" "Security" 6] = Some c /\
    activeTopic c = Some (lit "security") /\
    forall (e : JsError) (w : World),
      send browser (ask browser 0) (interleaved [])
           {| self := set_input (lit "Is MFA supported?") c; ragCalls := [] |}
      <> Threw e w.
Proof.
  assert (Hes : Forall (fun e => In e (Sidebar.topics Sidebar.initial))
                  [Sidebar.mkTopic "api" "API & Integrations" 9;
                   Sidebar.mkTopic "security" "Security" 6])
    by (repeat constructor; simpl; tauto).
  destruct (@sidebar_topics_never_throw _ Hes) as [c [Hc [_ [_ [_ Hno]]]]].
  exists c. split; [exact Hc|]. split.
  - vm_compute in Hc. injection Hc as <-. reflexivity.
  - intros e w. apply Hno.
Defined.
